(** * youtube-transcript: a shallow embedding of [src/get_transcript.ts]

    The development follows the source file top to bottom: strings and
    numbers of the host language, the time parser, the entity decoder,
    the player-response classifier, the timed-text scanner, the window
    filter and the command-line driver.  Theorems come after all the
    definitions.

    Conventions.
    - A string is the sequence of its UTF-16 code units ([jsstring]).
    - A [number] is NaN, an infinity, or a finite value kept as an exact
      rational.  Comparison, [Math.round] and [Math.floor] are exact on
      finite doubles, so they are modelled exactly.  Integer arithmetic
      ([parseInt], [m * 60 + sec]) is modelled on [Z]; it agrees with the
      runtime for magnitudes below 2^53.
    - [throw new Error(msg)] is modelled by [Err e], one constructor per
      kind of message. *)

From Stdlib Require Import String Ascii.
From Stdlib Require Import List ZArith NArith QArith Qround Bool Lia Lqa.
From Stdlib Require Import Permutation.
Import ListNotations.

Local Open Scope Z_scope.

(* ------------------------------------------------------------------ *)
(** ** Strings *)

(** A code unit and a string of code units. *)
Abbreviation char16 := N (only parsing).
Abbreviation jsstring := (list N) (only parsing).

(** A literal of the source, as code units. *)
Definition lit (s : string) : jsstring :=
  map N_of_ascii (list_ascii_of_string s).

Fixpoint str_eqb (a b : jsstring) : bool :=
  match a, b with
  | [], [] => true
  | x :: a', y :: b' => N.eqb x y && str_eqb a' b'
  | _, _ => false
  end.

(** [s.startsWith(p)] *)
Fixpoint startsWith (p s : jsstring) : bool :=
  match p, s with
  | [], _ => true
  | x :: p', y :: s' => N.eqb x y && startsWith p' s'
  | _ :: _, [] => false
  end.

(** [s.includes(p)] *)
Fixpoint includes (s p : jsstring) : bool :=
  startsWith p s ||
  match s with
  | [] => false
  | _ :: s' => includes s' p
  end.

(** WhiteSpace and LineTerminator code units, as used by [trim] and by
    the leading-blank skipping of [parseInt]. *)
Definition isWhiteSpace (c : char16) : bool :=
  ((9 <=? c) && (c <=? 13) || (c =? 32) || (c =? 160) || (c =? 5760)
   || (8192 <=? c) && (c <=? 8202) || (c =? 8232) || (c =? 8233)
   || (c =? 8239) || (c =? 8287) || (c =? 12288) || (c =? 65279))%N.

Fixpoint trimStart (s : jsstring) : jsstring :=
  match s with
  | c :: s' => if isWhiteSpace c then trimStart s' else s
  | [] => []
  end.

Definition trimEnd (s : jsstring) : jsstring := rev (trimStart (rev s)).

(** [s.trim()] *)
Definition trim (s : jsstring) : jsstring := trimEnd (trimStart s).

(** [s.split(sep)] for a one-unit separator. *)
Fixpoint split (sep : char16) (s : jsstring) : list jsstring :=
  match s with
  | [] => [[]]
  | c :: s' =>
      if N.eqb c sep then [] :: split sep s'
      else match split sep s' with
           | h :: t => (c :: h) :: t
           | [] => [[c]]
           end
  end.

(** [s.indexOf(c)] for a one-unit needle; [None] stands for -1. *)
Fixpoint indexOf (c : char16) (s : jsstring) : option nat :=
  match s with
  | [] => None
  | x :: s' =>
      if N.eqb x c then Some O
      else match indexOf c s' with
           | Some i => Some (S i)
           | None => None
           end
  end.

(** [parts.join(sep)] *)
Fixpoint join (sep : jsstring) (parts : list jsstring) : jsstring :=
  match parts with
  | [] => []
  | [p] => p
  | p :: rest => p ++ sep ++ join sep rest
  end.

(** [s.padStart(2, "0")] *)
Definition padStart2 (s : jsstring) : jsstring :=
  match s with
  | [] => lit "00"
  | [c] => 48%N :: [c]
  | _ => s
  end.

(* ------------------------------------------------------------------ *)
(** ** Numbers *)

Inductive number :=
| NaN
| NegInf
| PosInf
| Fin (q : Q).

Definition ofZ (z : Z) : number := Fin (inject_Z z).

(** [a <= b] *)
Definition num_le (a b : number) : bool :=
  match a, b with
  | NaN, _ | _, NaN => false
  | NegInf, _ => true
  | _, PosInf => true
  | Fin x, Fin y => Qle_bool x y
  | _, _ => false
  end.

(** [a < b] *)
Definition num_lt (a b : number) : bool :=
  match a, b with
  | NaN, _ | _, NaN => false
  | NegInf, NegInf => false
  | NegInf, _ => true
  | PosInf, _ => false
  | Fin _, PosInf => true
  | Fin _, NegInf => false
  | Fin x, Fin y => negb (Qle_bool y x)
  end.

(** [a >= b] and [a > b] *)
Definition num_ge (a b : number) : bool := num_le b a.
Definition num_gt (a b : number) : bool := num_lt b a.

(** SameValueZero, the equality used by [Set.prototype.has]. *)
Definition sameValueZero (a b : number) : bool :=
  match a, b with
  | NaN, NaN => true
  | NegInf, NegInf => true
  | PosInf, PosInf => true
  | Fin x, Fin y => Qeq_bool x y
  | _, _ => false
  end.

(** [Math.round]: the nearest integer, ties towards +infinity. *)
Definition Math_round (x : number) : number :=
  match x with
  | Fin q => ofZ (Qfloor (q + (1 # 2)))
  | _ => x
  end.

(** [new Set(xs).has(x)] *)
Definition Set_has (xs : list number) (x : number) : bool :=
  existsb (sameValueZero x) xs.

(* ------------------------------------------------------------------ *)
(** ** Errors *)

Inductive time_form := AnyForm | FormMMSS | FormHHMMSS.
Inductive order_site := ExcludeOrder | FromToOrder.

Inductive error :=
| InvalidTimeFormat (expected : time_form)
    (* "Invalid time: ... (expected MM:SS or HH:MM:SS)",
       "... (expected MM:SS, seconds 0-59)",
       "... (expected HH:MM:SS, minutes and seconds 0-59)" *)
| InvalidRangeFormat
    (* "Invalid exclude range: ... (expected START-END, ...)" *)
| InvalidRangeOrder (site : order_site)
    (* "Invalid exclude range: ... (start must be <= end)",
       "--from must be <= --to" *)
| RequestBlocked          (* "Request blocked. Try again later." *)
| AgeRestricted           (* "Video is age-restricted or unavailable." *)
| VideoUnavailable        (* "Video is unavailable." *)
| VideoUnplayable (reason : jsstring) (* "Video unplayable: " + reason *)
| CaptionsDisabled        (* "Transcripts are disabled for this video." *)
| TimestampsRequired      (* "Time range options ... require --timestamps." *)
| ConflictingSelection    (* "Cannot use --from/--to with --only." *)
| UsageError              (* the usage line *)
| FetchError (message : jsstring). (* any failure of the network stages *)

Inductive result (A : Type) :=
| Ok (a : A)
| Err (e : error).
Arguments Ok {A} a.
Arguments Err {A} e.

Definition bind {A B} (r : result A) (k : A -> result B) : result B :=
  match r with
  | Ok a => k a
  | Err e => Err e
  end.

Notation "x <- r ;; k" := (bind r (fun x => k))
  (at level 61, r at next level, right associativity).

(* ------------------------------------------------------------------ *)
(** ** Data model *)

Record TranscriptSnippet := mkSnippet {
  text : jsstring;
  start : number;
  duration : number
}.

Record ParseResult := mkOpts {
  video : option jsstring;
  timestamps : bool;
  from : option number;
  to : option number;
  only : option (list number);
  exclude : option (list (number * number))
}.

(** [x !== undefined] *)
Definition defined {A} (x : option A) : bool :=
  match x with Some _ => true | None => false end.

(** [xs !== undefined && xs.length > 0] *)
Definition nonEmpty {A} (x : option (list A)) : bool :=
  match x with Some (_ :: _) => true | _ => false end.

(** [x ?? d] *)
Definition orElse {A} (x : option A) (d : A) : A :=
  match x with Some v => v | None => d end.

(* ------------------------------------------------------------------ *)
(** ** Window filter *)

(** The body of the exclude callback: the [for] loop leaves with [false]
    at the first range that contains the start. *)
Fixpoint notExcluded (ranges : list (number * number)) (s : TranscriptSnippet)
  : bool :=
  match ranges with
  | [] => true
  | (lo, hi) :: rest =>
      if num_ge (start s) lo && num_le (start s) hi then false
      else notExcluded rest s
  end.

Definition filterSnippets (snippets : list TranscriptSnippet)
    (opts : ParseResult) : result (list TranscriptSnippet) :=
  let hasRange := defined (from opts) || defined (to opts) in
  let hasOnly := nonEmpty (only opts) in
  filtered <-
    (if hasOnly then
       let onlySet := orElse (only opts) [] in
       Ok (filter (fun s => Set_has onlySet (Math_round (start s))) snippets)
     else if hasRange then
       let fromSec := orElse (from opts) (ofZ 0) in
       let toSec := orElse (to opts) PosInf in
       if num_gt fromSec toSec then Err (InvalidRangeOrder FromToOrder)
       else Ok (filter (fun s => num_ge (start s) fromSec
                                 && num_le (start s) toSec) snippets)
     else Ok snippets) ;;
  if nonEmpty (exclude opts) then
    Ok (filter (notExcluded (orElse (exclude opts) [])) filtered)
  else Ok filtered.

(* ------------------------------------------------------------------ *)
(** ** Time parser *)

Definition isDigit (c : char16) : bool := ((48 <=? c) && (c <=? 57))%N.

Definition digitVal (c : char16) : Z := Z.of_N c - 48.

(** Value of the longest prefix of decimal digits, continuing from [acc]. *)
Fixpoint digitsPrefix (acc : Z) (s : jsstring) : Z :=
  match s with
  | c :: s' => if isDigit c then digitsPrefix (acc * 10 + digitVal c) s' else acc
  | [] => acc
  end.

(** [parseInt(s, 10)]; [None] stands for NaN.  Leading blanks are skipped,
    one sign is accepted, and everything after the digits is ignored.
    The value is the exact integer of the digits.  The runtime returns
    the nearest number of its floating-point type, which is this integer
    when it is below 2^53 in absolute value; the statements about the
    value itself carry that bound. *)
Definition parseInt10 (s : jsstring) : option Z :=
  let s1 := trimStart s in
  let '(neg, s2) :=
    match s1 with
    | 45%N :: r => (true, r)
    | 43%N :: r => (false, r)
    | _ => (false, s1)
    end in
  match s2 with
  | c :: _ =>
      if isDigit c then
        Some (if neg : bool then - digitsPrefix 0 s2 else digitsPrefix 0 s2)
      else None
  | [] => None
  end.

(** [parseTimeString]; its sums and products are the exact ones, which
    the runtime's are while they stay below 2^53. *)
Definition parseTimeString (s : jsstring) : result Z :=
  let trimmed := trim s in
  match trimmed with
  | [] => Err (InvalidTimeFormat AnyForm)
  | _ :: _ =>
      match split 58%N trimmed with
      | [p0; p1] =>
          match parseInt10 p0, parseInt10 p1 with
          | Some m, Some sec =>
              if (m <? 0) || (sec <? 0) || (sec >? 59)
              then Err (InvalidTimeFormat FormMMSS)
              else Ok (m * 60 + sec)
          | _, _ => Err (InvalidTimeFormat FormMMSS)
          end
      | [p0; p1; p2] =>
          match parseInt10 p0, parseInt10 p1, parseInt10 p2 with
          | Some h, Some m, Some sec =>
              if (h <? 0) || (m <? 0) || (m >? 59) || (sec <? 0) || (sec >? 59)
              then Err (InvalidTimeFormat FormHHMMSS)
              else Ok (h * 3600 + m * 60 + sec)
          | _, _, _ => Err (InvalidTimeFormat FormHHMMSS)
          end
      | _ => Err (InvalidTimeFormat AnyForm)
      end
  end.

Definition parseRangeString (s : jsstring) : result (Z * Z) :=
  match indexOf 45%N s with
  | None => Err InvalidRangeFormat
  | Some idx =>
      if (idx =? 0)%nat || (idx =? length s - 1)%nat then Err InvalidRangeFormat
      else
        lo <- parseTimeString (firstn idx s) ;;
        hi <- parseTimeString (skipn (idx + 1) s) ;;
        if lo >? hi then Err (InvalidRangeOrder ExcludeOrder)
        else Ok (lo, hi)
  end.

(* ------------------------------------------------------------------ *)
(** ** Timestamp formatter *)

(** Decimal digits of a non-negative integer, most significant first. *)
Fixpoint digitsOf (fuel : nat) (n : Z) (acc : jsstring) : jsstring :=
  let acc' := Z.to_N (48 + n mod 10) :: acc in
  match fuel with
  | O => acc'
  | S f => if n / 10 =? 0 then acc' else digitsOf f (n / 10) acc'
  end.

(** [String(z)] for an integer (positional notation, as the runtime prints
    integers below 10^21). *)
Definition String_int (z : Z) : jsstring :=
  if z <? 0 then 45%N :: digitsOf (Z.to_nat (Z.log2 (- z))) (- z) []
  else digitsOf (Z.to_nat (Z.log2 z)) z [].

(** [String(x)] for a number that is NaN, infinite or integral. *)
Definition String_num (x : number) : jsstring :=
  match x with
  | NaN => lit "NaN"
  | PosInf => lit "Infinity"
  | NegInf => lit "-Infinity"
  | Fin q => String_int (Qfloor q)
  end.

Definition Math_floor (x : number) : number :=
  match x with
  | Fin q => ofZ (Qfloor q)
  | _ => x
  end.

(** [x / d] for a positive integer constant [d].  The quotient is kept
    exact; on whole seconds below 2^53 its floor is the one the runtime
    computes. *)
Definition num_div (x : number) (d : Z) : number :=
  match x with
  | Fin q => Fin (q / inject_Z d)
  | _ => x
  end.

Definition Qtrunc (q : Q) : Z :=
  if Qle_bool 0 q then Qfloor q else Qceiling q.

(** [x % d] for a positive integer constant [d]: the remainder takes the
    sign of the dividend; it is NaN when [x] is not finite. *)
Definition num_rem (x : number) (d : Z) : number :=
  match x with
  | Fin q => Fin (q - inject_Z d * inject_Z (Qtrunc (q / inject_Z d)))
  | _ => NaN
  end.

Definition formatTimestamp (seconds : number) : jsstring :=
  let h := Math_floor (num_div seconds 3600) in
  let m := Math_floor (num_div (num_rem seconds 3600) 60) in
  let s := Math_floor (num_rem seconds 60) in
  if num_gt h (ofZ 0) then
    padStart2 (String_num h) ++ lit ":" ++ padStart2 (String_num m)
      ++ lit ":" ++ padStart2 (String_num s)
  else
    padStart2 (String_num m) ++ lit ":" ++ padStart2 (String_num s).

Definition formatTranscript (snippets : list TranscriptSnippet)
    (withTimestamps : bool) : jsstring :=
  if withTimestamps then
    join [10%N]
      (map (fun s => lit "[" ++ formatTimestamp (start s) ++ lit "] " ++ text s)
           snippets)
  else join [10%N] (map text snippets).

(* ------------------------------------------------------------------ *)
(** ** Entity decoder *)

(** [s.replace(/pat/g, rep)] for a literal, non-empty pattern.  [skip]
    counts the code units of a match that are still to be consumed. *)
Fixpoint replaceLit (pat rep : jsstring) (skip : nat) (s : jsstring)
  : jsstring :=
  match s with
  | [] => []
  | c :: s' =>
      match skip with
      | S k => replaceLit pat rep k s'
      | O =>
          if startsWith pat s then rep ++ replaceLit pat rep (length pat - 1) s'
          else c :: replaceLit pat rep 0 s'
      end
  end.

Definition replaceAll (pat rep s : jsstring) : jsstring :=
  replaceLit pat rep 0 s.

(** Longest prefix of [s] whose units satisfy [p], and the rest. *)
Fixpoint span (p : char16 -> bool) (s : jsstring) : jsstring * jsstring :=
  match s with
  | c :: s' =>
      if p c then let '(a, b) := span p s' in (c :: a, b) else ([], s)
  | [] => ([], [])
  end.

Definition isHexDigit (c : char16) : bool :=
  (isDigit c || (65 <=? c) && (c <=? 70) || (97 <=? c) && (c <=? 102))%N.

Definition hexVal (c : char16) : Z :=
  if isDigit c then Z.of_N c - 48
  else if (c <=? 70)%N then Z.of_N c - 55
  else Z.of_N c - 87.

(** A numeric character reference at the head of [s]: the opening
    literal, one or more digits of the class, then ';'.  Returns the
    digits and the length of the match. *)
Definition matchEntity (open : jsstring) (digit : char16 -> bool)
    (s : jsstring) : option (jsstring * nat) :=
  if startsWith open s then
    let '(code, rest) := span digit (skipn (length open) s) in
    match code, rest with
    | _ :: _, 59%N :: _ => Some (code, (length open + length code + 1)%nat)
    | _, _ => None
    end
  else None.

(** [String.fromCharCode(n)]: the code unit [n mod 2^16]. *)
Definition fromCharCode (n : Z) : jsstring := [Z.to_N (n mod 65536)].

(** [s.replace(/open(digit+);/g, (_, code) => String.fromCharCode(value code))] *)
Fixpoint replaceEntity (open : jsstring) (digit : char16 -> bool)
    (value : jsstring -> Z) (skip : nat) (s : jsstring) : jsstring :=
  match s with
  | [] => []
  | c :: s' =>
      match skip with
      | S k => replaceEntity open digit value k s'
      | O =>
          match matchEntity open digit s with
          | Some (code, len) =>
              fromCharCode (value code)
                ++ replaceEntity open digit value (len - 1) s'
          | None => c :: replaceEntity open digit value 0 s'
          end
      end
  end.

(** [parseInt(code, 10)] and [parseInt(code, 16)] on the digits of a
    reference: the exact integer, which the runtime's number is when it
    is below 2^53. *)
Definition decValue (code : jsstring) : Z := digitsPrefix 0 code.

Definition hexValue (code : jsstring) : Z :=
  fold_left (fun acc c => acc * 16 + hexVal c) code 0.

Definition unescapeHtml (t : jsstring) : jsstring :=
  let t := replaceAll (lit "&amp;") (lit "&") t in
  let t := replaceAll (lit "&lt;") (lit "<") t in
  let t := replaceAll (lit "&gt;") (lit ">") t in
  let t := replaceAll (lit "&quot;") [34%N] t in
  let t := replaceAll (lit "&#39;") (lit "'") t in
  let t := replaceAll (lit "&apos;") (lit "'") t in
  let t := replaceAll (lit "&#x27;") (lit "'") t in
  let t := replaceAll (lit "&#x2F;") (lit "/") t in
  let t := replaceEntity (lit "&#") isDigit decValue 0 t in
  replaceEntity (lit "&#x") isHexDigit hexValue 0 t.

(* ------------------------------------------------------------------ *)
(** ** Player response and caption tracks *)

Record CaptionTrack := mkTrack {
  baseUrl : jsstring;
  languageCode : jsstring;
  kind : option jsstring;
  name : option (option (list (option jsstring)))
}.

Record PlayabilityStatus := mkPlayability {
  status : option jsstring;
  reason : option jsstring
}.

Record TracklistRenderer := mkRenderer {
  captionTracks : option (list CaptionTrack)
}.

Record Captions := mkCaptions {
  playerCaptionsTracklistRenderer : option TracklistRenderer
}.

Record InnertubePlayerResponse := mkResponse {
  playabilityStatus : option PlayabilityStatus;
  captions : option Captions
}.

(** [x?.f] *)
Definition chain {A B} (x : option A) (f : A -> option B) : option B :=
  match x with Some a => f a | None => None end.

(** Truthiness of an optional string: defined and not empty. *)
Definition truthy (x : option jsstring) : bool :=
  match x with Some (_ :: _) => true | _ => false end.

Definition getCaptionTracks (data : InnertubePlayerResponse)
    (videoId : jsstring) : result (list CaptionTrack) :=
  let st := chain (playabilityStatus data) status in
  _ <- (if truthy st && negb (str_eqb (orElse st []) (lit "OK")) then
          let why := orElse (chain (playabilityStatus data) reason)
                            (orElse st []) in
          if str_eqb (orElse st []) (lit "LOGIN_REQUIRED")
             && includes why (lit "bot")
          then Err RequestBlocked
          else if includes why (lit "inappropriate") then Err AgeRestricted
          else if includes why (lit "unavailable") then Err VideoUnavailable
          else Err (VideoUnplayable why)
        else Ok tt) ;;
  let tracks :=
    chain (chain (captions data) playerCaptionsTracklistRenderer)
          captionTracks in
  if nonEmpty tracks then Ok (orElse tracks []) else Err CaptionsDisabled.

(* ------------------------------------------------------------------ *)
(** ** Timed-text scanner *)

Definition dq : jsstring := [34%N].

(** Case folding of the [i] flag.  Only ASCII letters matter here: every
    unit of the pattern is ASCII, and folding never maps a unit above 127
    to one below 128. *)
Definition canonicalize (c : char16) : char16 :=
  if ((97 <=? c) && (c <=? 122))%N then (c - 32)%N else c.

Fixpoint startsWithCI (p s : jsstring) : bool :=
  match p, s with
  | [], _ => true
  | x :: p', y :: s' =>
      N.eqb (canonicalize x) (canonicalize y) && startsWithCI p' s'
  | _ :: _, [] => false
  end.

(** Consume the literal [p] (ignoring case) at the head of [s]. *)
Definition dropLit (p s : jsstring) : option jsstring :=
  if startsWithCI p s then Some (skipn (length p) s) else None.

Definition notUnit (x c : char16) : bool := negb (N.eqb c x).

(** One attempt, at the head of [s], of the pattern of [parseTranscriptXml]
    (flag [i]): the literal [<text start=] and a quote, a non-empty run
    without quote (group 1), a quote, the literal [ dur=] and a quote, a
    run without quote (group 2), a quote, a run without [>], the unit [>],
    a run without [<] (group 3) and the literal [</text>].  Every run is
    followed by the unit it excludes, so the greedy run is the only
    candidate and no backtracking is needed.  Returns the three groups
    and the length of the match. *)
Definition matchText (s : jsstring)
  : option (jsstring * jsstring * jsstring * nat) :=
  match dropLit (lit "<text start=" ++ dq) s with
  | None => None
  | Some r1 =>
      let '(m1, r2) := span (notUnit 34%N) r1 in
      match m1, dropLit (dq ++ lit " dur=" ++ dq) r2 with
      | _ :: _, Some r3 =>
          let '(m2, r4) := span (notUnit 34%N) r3 in
          match dropLit dq r4 with
          | None => None
          | Some r5 =>
              let '(_, r6) := span (notUnit 62%N) r5 in
              match dropLit (lit ">") r6 with
              | None => None
              | Some r7 =>
                  let '(m3, r8) := span (notUnit 60%N) r7 in
                  match dropLit (lit "</text>") r8 with
                  | None => None
                  | Some r9 => Some (m1, m2, m3, (length s - length r9)%nat)
                  end
              end
          end
      | _, _ => None
      end
  end.

(** [s.replace(/<[^>]*>/g, "")] *)
Fixpoint stripTags (skip : nat) (s : jsstring) : jsstring :=
  match s with
  | [] => []
  | c :: s' =>
      match skip with
      | S k => stripTags k s'
      | O =>
          if N.eqb c 60%N then
            match indexOf 62%N s' with
            | Some i => stripTags (S i) s'
            | None => c :: stripTags 0 s'
            end
          else c :: stripTags 0 s'
      end
  end.

(** The [while ((m = re.exec(xml)) !== null)] loop.  [parseFloat] is the
    runtime's decimal-to-double conversion and is left abstract. *)
Fixpoint scanText (parseFloat : jsstring -> number) (skip : nat)
    (s : jsstring) : list TranscriptSnippet :=
  match s with
  | [] => []
  | _ :: s' =>
      match skip with
      | S k => scanText parseFloat k s'
      | O =>
          match matchText s with
          | Some (m1, m2, rawText, len) =>
              let start_ := parseFloat m1 in
              let duration_ :=
                parseFloat (match m2 with [] => lit "0" | _ :: _ => m2 end) in
              let text_ := trim (stripTags 0 (unescapeHtml rawText)) in
              match text_ with
              | [] => scanText parseFloat (len - 1) s'
              | _ :: _ =>
                  mkSnippet text_ start_ duration_
                    :: scanText parseFloat (len - 1) s'
              end
          | None => scanText parseFloat 0 s'
          end
      end
  end.

Definition parseTranscriptXml (parseFloat : jsstring -> number)
    (xml : jsstring) : list TranscriptSnippet :=
  scanText parseFloat 0 xml.

(* ------------------------------------------------------------------ *)
(** ** Command-line driver *)

Inductive outcome :=
| Printed (transcript : jsstring)   (* [console.log(transcript)] *)
| Exit1 (e : error).                (* [console.error(...); process.exit(1)] *)

(** [main], from the point where [parseArgs] has returned [opts].
    [fetchSnippets] stands for [extractVideoId] followed by
    [fetchTranscriptSnippets], whose result depends on the network. *)
Definition main
    (fetchSnippets : jsstring -> result (list TranscriptSnippet))
    (opts : ParseResult) : outcome :=
  let hasRangeOpt :=
    defined (from opts) || defined (to opts) || nonEmpty (only opts)
    || nonEmpty (exclude opts) in
  if hasRangeOpt && negb (timestamps opts) then Exit1 TimestampsRequired
  else if (defined (from opts) || defined (to opts)) && nonEmpty (only opts)
  then Exit1 ConflictingSelection
  else if negb (truthy (video opts)) then Exit1 UsageError
  else
    match
      (snippets <- fetchSnippets (orElse (video opts) []) ;;
       if hasRangeOpt then filterSnippets snippets opts else Ok snippets)
    with
    | Ok snippets => Printed (formatTranscript snippets (timestamps opts))
    | Err e => Exit1 e
    end.

(* ------------------------------------------------------------------ *)
(** ** Video identifier *)

(** The class [[a-zA-Z0-9_-]]. *)
Definition isIdChar (c : char16) : bool :=
  ((97 <=? c) && (c <=? 122) || (65 <=? c) && (c <=? 90)
   || (48 <=? c) && (c <=? 57) || (c =? 95) || (c =? 45))%N.

(** The group [([a-zA-Z0-9_-]{11})] at the head of [s]. *)
Definition takeId (s : jsstring) : option jsstring :=
  let id := firstn 11 s in
  if (length id =? 11)%nat && forallb isIdChar id then Some id else None.

(** The alternatives of the first pattern of [extractVideoId]. *)
Definition idMarkers : list jsstring :=
  [ lit "youtube.com/watch?v="; lit "youtu.be/"; lit "youtube.com/embed/";
    lit "youtube.com/v/" ].

(** The alternation followed by the group, tried at the head of [s]:
    the alternatives in their order, going on to the next one when the
    group does not follow. *)
Fixpoint matchMarkers (markers : list jsstring) (s : jsstring)
  : option jsstring :=
  match markers with
  | [] => None
  | m :: ms =>
      if startsWith m s then
        match takeId (skipn (length m) s) with
        | Some id => Some id
        | None => matchMarkers ms s
        end
      else matchMarkers ms s
  end.

(** [s.match(pattern)] for the first, unanchored pattern: the leftmost
    position where it matches. *)
Fixpoint searchId (s : jsstring) : option jsstring :=
  match matchMarkers idMarkers s with
  | Some id => Some id
  | None => match s with [] => None | _ :: s' => searchId s' end
  end.

Definition extractVideoId (urlOrId : jsstring) : result jsstring :=
  match searchId urlOrId with
  | Some id => Ok id
  | None =>
      if (length urlOrId =? 11)%nat && forallb isIdChar urlOrId
      then Ok urlOrId
      else Err (FetchError (lit "Could not extract video ID from: " ++ urlOrId))
  end.

(* ------------------------------------------------------------------ *)
(** ** API key *)

Definition keyMarker : jsstring := dq ++ lit "INNERTUBE_API_KEY" ++ dq ++ lit ":".

Definition recaptchaMarker : jsstring :=
  lit "class=" ++ dq ++ lit "g-recaptcha" ++ dq.

(** One attempt of the key pattern at the head of [s]: the marker, blanks,
    a quote, a non-empty run of identifier units (the group), a quote. *)
Definition matchKey (s : jsstring) : option jsstring :=
  if startsWith keyMarker s then
    match trimStart (skipn (length keyMarker) s) with
    | 34%N :: r =>
        let '(key, rest) := span isIdChar r in
        match key, rest with
        | _ :: _, 34%N :: _ => Some key
        | _, _ => None
        end
    | _ => None
    end
  else None.

Fixpoint searchKey (s : jsstring) : option jsstring :=
  match matchKey s with
  | Some k => Some k
  | None => match s with [] => None | _ :: s' => searchKey s' end
  end.

Definition extractInnertubeApiKey (html videoId : jsstring) : result jsstring :=
  match searchKey html with
  | Some k => Ok k
  | None =>
      if includes html recaptchaMarker then
        Err (FetchError (lit "Request blocked (IP/rate limit). Try again later."))
      else
        Err (FetchError
               (lit "Could not extract Innertube API key for video " ++ videoId))
  end.

(* ------------------------------------------------------------------ *)
(** ** Track selection *)

(** [t.kind === "asr"] *)
Definition isAsr (t : CaptionTrack) : bool :=
  match kind t with
  | Some k => str_eqb k (lit "asr")
  | None => false
  end.

Definition hasLanguage (lang : jsstring) (t : CaptionTrack) : bool :=
  str_eqb (languageCode t) lang.

(** The [for (const lang of languages)] loop. *)
Fixpoint findByLanguages (manual generated : list CaptionTrack)
    (languages : list jsstring) : option CaptionTrack :=
  match languages with
  | [] => None
  | lang :: rest =>
      match find (hasLanguage lang) manual with
      | Some t => Some t
      | None =>
          match find (hasLanguage lang) generated with
          | Some t => Some t
          | None => findByLanguages manual generated rest
          end
      end
  end.

(** [languages] is optional and defaults to English; the result is
    [undefined] only when [tracks] is empty. *)
Definition findBestTrack (tracks : list CaptionTrack)
    (languages : option (list jsstring)) : option CaptionTrack :=
  let manual := filter (fun t => negb (isAsr t)) tracks in
  let generated := filter isAsr tracks in
  match findByLanguages manual generated (orElse languages [lit "en"]) with
  | Some t => Some t
  | None => hd_error tracks
  end.

(* ------------------------------------------------------------------ *)
(** ** Vocabulary of the statements *)

(** The start lies in the closed interval [[lo, hi]]. *)
Definition inWindow (lo hi : number) (s : TranscriptSnippet) : bool :=
  num_le lo (start s) && num_le (start s) hi.

(** The start lies in at least one of the ranges. *)
Definition inAnyRange (ranges : list (number * number))
    (s : TranscriptSnippet) : bool :=
  existsb (fun r => inWindow (fst r) (snd r) s) ranges.

(** The rounded start is one of the requested times. *)
Definition roundedStartIn (times : list number) (s : TranscriptSnippet)
  : bool :=
  Set_has times (Math_round (start s)).

(** [z] is the integer nearest to [q], halves going up. *)
Definition nearestHalfUp (q : Q) (z : Z) : Prop :=
  (inject_Z z - (1 # 2) <= q /\ q < inject_Z z + (1 # 2))%Q.

Definition setExclude (opts : ParseResult)
    (ex : option (list (number * number))) : ParseResult :=
  mkOpts (video opts) (timestamps opts) (from opts) (to opts) (only opts) ex.

(** The three snippets of the worked scenarios: starts 58.2, 60.0, 61.4. *)
Definition snipA := mkSnippet (lit "a") (Fin (582 # 10)) (Fin 1).
Definition snipB := mkSnippet (lit "b") (Fin 60) (Fin 1).
Definition snipC := mkSnippet (lit "c") (Fin (614 # 10)) (Fin 1).
Definition scenario := [snipA; snipB; snipC].

(** A timed-text element as the scanner recognises it: the [start]
    attribute, the [dur] attribute right after it, any further
    attributes, and the inner text. *)
Record element := mkElement {
  el_start : jsstring;
  el_dur : jsstring;
  el_attrs : jsstring;
  el_text : jsstring
}.

Definition render (e : element) : jsstring :=
  lit "<text start=" ++ dq ++ el_start e ++ dq ++ lit " dur=" ++ dq
    ++ el_dur e ++ dq ++ el_attrs e ++ lit ">" ++ el_text e ++ lit "</text>".

(** The attribute values hold no quote, the [start] value is not empty,
    the further attributes hold no [>] and the inner text holds no [<]. *)
Definition wellFormed (e : element) : bool :=
  negb (length (el_start e) =? 0)%nat
  && forallb (notUnit 34%N) (el_start e)
  && forallb (notUnit 34%N) (el_dur e)
  && forallb (notUnit 62%N) (el_attrs e)
  && forallb (notUnit 60%N) (el_text e).

(** Entity-unescaping, tag-stripping and trimming of an inner text. *)
Definition normalizeText (t : jsstring) : jsstring :=
  trim (stripTags 0 (unescapeHtml t)).

(** The snippet an element stands for: none when its normalized text is
    empty. *)
Definition snippetOf (parseFloat : jsstring -> number) (e : element)
  : list TranscriptSnippet :=
  match normalizeText (el_text e) with
  | [] => []
  | t =>
      [mkSnippet t (parseFloat (el_start e))
         (parseFloat (match el_dur e with [] => lit "0" | d => d end))]
  end.

(** Text between elements: it holds no [<te], in either case. *)
Fixpoint quiet (g : jsstring) : bool :=
  match g with
  | [] => true
  | _ :: g' => negb (startsWithCI (lit "<te") g) && quiet g'
  end.

(** A payload: elements, each preceded by quiet text, then quiet text. *)
Definition renderPayload (items : list (jsstring * element))
    (tail : jsstring) : jsstring :=
  fold_right (fun ge rest => fst ge ++ render (snd ge) ++ rest) tail items.

(** [parseFloat] on unsigned literals [digits] or [digits.digits], with
    the exact decimal value (the runtime rounds it to the nearest double).
    It instantiates the abstract conversion in the examples. *)
Definition parseFloatExact (s : jsstring) : number :=
  let '(ip, r) := span isDigit s in
  match ip, r with
  | [], _ => NaN
  | _ :: _, 46%N :: f =>
      let '(fp, _) := span isDigit f in
      Fin (inject_Z (decValue (ip ++ fp)) / inject_Z (10 ^ Z.of_nat (length fp)))
  | _ :: _, _ => ofZ (decValue ip)
  end.

(** The two decimal digits of [n], for [0 <= n < 100]. *)
Definition twoDigits (n : Z) : jsstring :=
  [Z.to_N (48 + n / 10); Z.to_N (48 + n mod 10)].

(** Following the words of the specification of [parseExcludeRange]: the
    position of the first '-' that is neither at position 0 nor at the
    final position.  [i] is the position of the head of [s]. *)
Fixpoint interiorDash (i : nat) (s : jsstring) : option nat :=
  match s with
  | [] => None
  | c :: s' =>
      if N.eqb c 45%N && negb (i =? 0)%nat && negb (length s' =? 0)%nat
      then Some i
      else interiorDash (S i) s'
  end.

(** [parseExcludeRange] as the specification words it. *)
Definition parseExcludeRange_spec (s : jsstring) : result (Z * Z) :=
  match interiorDash 0 s with
  | None => Err InvalidRangeFormat
  | Some idx =>
      lo <- parseTimeString (firstn idx s) ;;
      hi <- parseTimeString (skipn (idx + 1) s) ;;
      if lo >? hi then Err (InvalidRangeOrder ExcludeOrder)
      else Ok (lo, hi)
  end.

Definition sampleTrack : CaptionTrack :=
  mkTrack (lit "https://example.invalid/tt?v=x&fmt=srv3") (lit "en") None None.

(** A response whose status is the empty string, with a reason that
    mentions automated traffic, and one English track. *)
Definition emptyStatusResponse : InnertubePlayerResponse :=
  mkResponse
    (Some (mkPlayability (Some [])
             (Some (lit "Sign in to confirm you are not a bot"))))
    (Some (mkCaptions (Some (mkRenderer (Some [sampleTrack]))))).

(** A login wall raised against automated traffic. *)
Definition blockedResponse : InnertubePlayerResponse :=
  mkResponse
    (Some (mkPlayability (Some (lit "LOGIN_REQUIRED"))
             (Some (lit "Sign in to confirm you are not a bot"))))
    None.

(** A playable video with one track. *)
Definition okResponse : InnertubePlayerResponse :=
  mkResponse (Some (mkPlayability (Some (lit "OK")) None))
    (Some (mkCaptions (Some (mkRenderer (Some [sampleTrack]))))).

(** A payload as the platform serves it: a prologue, three elements (the
    second with an empty [dur], the third with blank text) and an
    epilogue. *)
Definition samplePayload : list (jsstring * element) :=
  [ (lit "<?xml version=1.0 ?><transcript>",
     mkElement (lit "0.5") (lit "2") [] (lit "Tom &amp; Jerry"));
    ([10%N],
     mkElement (lit "3") [] (lit " x=y") (lit "second"));
    ([],
     mkElement (lit "7") (lit "1") [] (lit "  ")) ].

(** An element that carries no [dur] attribute. *)
Definition noDurXml : jsstring :=
  lit "<text start=" ++ dq ++ lit "1.5" ++ dq ++ lit ">hello</text>".

(** An element whose inner text holds literal nested markup. *)
Definition nestedXml : jsstring :=
  lit "<text start=" ++ dq ++ lit "1" ++ dq ++ lit " dur=" ++ dq ++ lit "2"
    ++ dq ++ lit ">a <b>c</b></text>".

(** The unit is none of [&], [<], [>]. *)
Definition plainUnit (c : char16) : bool :=
  notUnit 38%N c && notUnit 60%N c && notUnit 62%N c.

(** The entities decoded by the passes that follow the ampersand pass,
    written without their ampersand, each with its decoded text. *)
Definition laterEntities : list (jsstring * jsstring) :=
  [ (lit "lt;", lit "<"); (lit "gt;", lit ">"); (lit "quot;", dq);
    (lit "#39;", lit "'"); (lit "apos;", lit "'"); (lit "#x27;", lit "'");
    (lit "#x2F;", lit "/"); (lit "#65;", lit "A"); (lit "#x41;", lit "A") ].

(** The finite value [q] lies between the bounds, both ends included; an
    infinite bound on its own side is no constraint. *)
Definition within (lo hi : number) (q : Q) : Prop :=
  match lo with Fin a => (a <= q)%Q | NegInf => True | _ => False end
  /\ match hi with Fin b => (q <= b)%Q | PosInf => True | _ => False end.


(* ------------------------------------------------------------------ *)
(** ** Command-line arguments *)

Definition FLAGS : list jsstring :=
  [ lit "--timestamps"; lit "-t"; lit "--from"; lit "--to"; lit "--only";
    lit "--exclude" ].

(** [FLAGS.has(a)] *)
Definition isFlag (a : jsstring) : bool := existsb (str_eqb a) FLAGS.

Inductive argsError :=
| MissingFrom            (* "--from requires a time value (e.g. 00:01:00)" *)
| MissingTo              (* "--to requires a time value (e.g. 00:05:00)" *)
| BadValue (e : error).  (* thrown by [parseTimeString] or [parseRangeString] *)

Inductive parsed (A : Type) :=
| Parsed (a : A)
| Rejected (e : argsError).
Arguments Parsed {A} a.
Arguments Rejected {A} e.

(** The inner loop of [--only]: times are collected up to the next flag
    or the end; returns them with the arguments left. *)
Fixpoint takeTimes (args : list jsstring) (acc : list number)
  : parsed (list number * list jsstring) :=
  match args with
  | [] => Parsed (acc, [])
  | a :: rest =>
      if isFlag a then Parsed (acc, args)
      else match parseTimeString a with
           | Ok t => takeTimes rest (acc ++ [ofZ t])
           | Err e => Rejected (BadValue e)
           end
  end.

(** The inner loop of [--exclude]. *)
Fixpoint takeRanges (args : list jsstring) (acc : list (number * number))
  : parsed (list (number * number) * list jsstring) :=
  match args with
  | [] => Parsed (acc, [])
  | a :: rest =>
      if isFlag a then Parsed (acc, args)
      else match parseRangeString a with
           | Ok (lo, hi) => takeRanges rest (acc ++ [(ofZ lo, ofZ hi)])
           | Err e => Rejected (BadValue e)
           end
  end.

Definition setTimestamps (r : ParseResult) : ParseResult :=
  mkOpts (video r) true (from r) (to r) (only r) (exclude r).
Definition setFrom (r : ParseResult) (t : number) : ParseResult :=
  mkOpts (video r) (timestamps r) (Some t) (to r) (only r) (exclude r).
Definition setTo (r : ParseResult) (t : number) : ParseResult :=
  mkOpts (video r) (timestamps r) (from r) (Some t) (only r) (exclude r).
Definition setOnly (r : ParseResult) (ts : list number) : ParseResult :=
  mkOpts (video r) (timestamps r) (from r) (to r) (Some ts) (exclude r).
Definition setVideo (r : ParseResult) (v : jsstring) : ParseResult :=
  mkOpts (Some v) (timestamps r) (from r) (to r) (only r) (exclude r).

(** The outer [while (i < args.length)] loop, on the arguments from
    position [i] on.  Every round consumes at least one argument, so a
    fuel of [length args] is never exhausted. *)
Fixpoint parseArgsLoop (fuel : nat) (args : list jsstring) (r : ParseResult)
  : parsed ParseResult :=
  match fuel, args with
  | O, _ | _, [] => Parsed r
  | S fuel', arg :: rest =>
      if str_eqb arg (lit "--timestamps") || str_eqb arg (lit "-t") then
        parseArgsLoop fuel' rest (setTimestamps r)
      else if str_eqb arg (lit "--from") then
        match rest with
        | [] => Rejected MissingFrom
        | v :: rest' =>
            match parseTimeString v with
            | Ok t => parseArgsLoop fuel' rest' (setFrom r (ofZ t))
            | Err e => Rejected (BadValue e)
            end
        end
      else if str_eqb arg (lit "--to") then
        match rest with
        | [] => Rejected MissingTo
        | v :: rest' =>
            match parseTimeString v with
            | Ok t => parseArgsLoop fuel' rest' (setTo r (ofZ t))
            | Err e => Rejected (BadValue e)
            end
        end
      else if str_eqb arg (lit "--only") then
        match takeTimes rest [] with
        | Parsed (ts, rest') => parseArgsLoop fuel' rest' (setOnly r ts)
        | Rejected e => Rejected e
        end
      else if str_eqb arg (lit "--exclude") then
        match takeRanges rest [] with
        | Parsed (rs, rest') =>
            parseArgsLoop fuel' rest' (setExclude r (Some rs))
        | Rejected e => Rejected e
        end
      else if negb (startsWith (lit "-") arg) then
        parseArgsLoop fuel' rest (setVideo r arg)
      else parseArgsLoop fuel' rest r
  end.

(** [parseArgs], on [process.argv.slice(2)]. *)
Definition parseArgs (args : list jsstring) : parsed ParseResult :=
  parseArgsLoop (length args) args (mkOpts None false None None None None).

(** What the process does. *)
Inductive run :=
| ArgsRejected (e : argsError)   (* the first [catch] of [main] *)
| Ran (o : outcome).

(** [main] from its first line, with the network stages as a parameter. *)
Definition program
    (fetchSnippets : jsstring -> result (list TranscriptSnippet))
    (args : list jsstring) : run :=
  match parseArgs args with
  | Rejected e => ArgsRejected e
  | Parsed opts => Ran (main fetchSnippets opts)
  end.

(* ------------------------------------------------------------------ *)
(** ** The earlier revision of the script ([src/unnamed/part_000])

    It has no time-window options; its other functions are the ones
    above, unchanged.  [UsageError] stands for the usage line of either
    revision; the two lines differ in the options they list. *)

Module Part000.

Definition parseArgs (args : list jsstring) : option jsstring * bool :=
  let timestamps :=
    existsb (str_eqb (lit "--timestamps")) args
    || existsb (str_eqb (lit "-t")) args in
  let video := find (fun a => negb (startsWith (lit "-") a)) args in
  (video, timestamps).

Definition main
    (fetchSnippets : jsstring -> result (list TranscriptSnippet))
    (args : list jsstring) : outcome :=
  let '(video, timestamps) := parseArgs args in
  if negb (truthy video) then Exit1 UsageError
  else
    match fetchSnippets (orElse video []) with
    | Ok snippets => Printed (formatTranscript snippets timestamps)
    | Err e => Exit1 e
    end.

End Part000.

(* ------------------------------------------------------------------ *)
(** ** Vocabulary of the further statements *)

(** An occurrence of [p] starts inside [pre], whatever text follows
    [pre ++ p]. *)
Definition startsInside (p pre : jsstring) : bool :=
  includes (pre ++ removelast p) p.

(** A German manual track, an English generated one and an English
    manual one, in this order. *)
Definition trackDe : CaptionTrack := mkTrack (lit "u/de") (lit "de") None None.
Definition trackEnAsr : CaptionTrack :=
  mkTrack (lit "u/en-asr") (lit "en") (Some (lit "asr")) None.
Definition trackEn : CaptionTrack := mkTrack (lit "u/en") (lit "en") None None.
Definition sampleTracks : list CaptionTrack := [trackDe; trackEnAsr; trackEn].

(** A watch page fragment that carries a key. *)
Definition samplePage : jsstring :=
  lit "<script>ytcfg.set({" ++ keyMarker ++ lit " " ++ dq ++ lit "AIza-Sy_9"
    ++ dq ++ lit ",})</script>".


(** A whole, non-negative number of seconds. *)
Definition wholeSeconds (t : number) : Prop := exists z, t = ofZ z /\ 0 <= z.

(** A closed interval of whole, non-negative seconds. *)
Definition wholeRange (p : number * number) : Prop :=
  exists lo hi, p = (ofZ lo, ofZ hi) /\ 0 <= lo <= hi.

(** Every time of the request is whole and non-negative, and every
    exclude range is ordered. *)
Definition validRequest (r : ParseResult) : Prop :=
  (forall t, from r = Some t -> wholeSeconds t)
  /\ (forall t, to r = Some t -> wholeSeconds t)
  /\ (forall ts, only r = Some ts -> Forall wholeSeconds ts)
  /\ (forall rs, exclude r = Some rs -> Forall wholeRange rs).

(** The argument is none of the four time-window flags. *)
Definition plainArg (a : jsstring) : bool :=
  negb (str_eqb a (lit "--from") || str_eqb a (lit "--to")
        || str_eqb a (lit "--only") || str_eqb a (lit "--exclude")).

(** [!a.startsWith("-")] *)
Definition positional (a : jsstring) : bool := negb (startsWith (lit "-") a).

(** The request left by arguments free of time-window flags, starting
    from [r]: the last positional argument is the video. *)
Definition afterPlain (pre : list jsstring) (r : ParseResult) : ParseResult :=
  mkOpts
    (match find positional (rev pre) with Some v => Some v | None => video r end)
    (timestamps r
     || existsb (str_eqb (lit "--timestamps")) pre
     || existsb (str_eqb (lit "-t")) pre)
    (from r) (to r) (only r) (exclude r).

Definition noOptions : ParseResult := mkOpts None false None None None None.


(** One round of the outer loop of [parseArgs] on an argument that is
    none of the four time-window flags. *)
Definition plainStep (a : jsstring) (r : ParseResult) : ParseResult :=
  if str_eqb a (lit "--timestamps") || str_eqb a (lit "-t") then setTimestamps r
  else if positional a then setVideo r a
  else r.


Definition notFlag (a : jsstring) : bool := negb (isFlag a).

(** [t] is the time that the argument [x] denotes. *)
Definition timeOf (x : jsstring) (t : number) : Prop :=
  exists z, parseTimeString x = Ok z /\ t = ofZ z.

(** [l'] is [l] with some elements removed, the others in their order. *)
Inductive subsequence {A : Type} : list A -> list A -> Prop :=
| sub_nil : subsequence [] []
| sub_skip x l' l : subsequence l' l -> subsequence l' (x :: l)
| sub_keep x l' l : subsequence l' l -> subsequence (x :: l') (x :: l).


(** No [<] of the text is followed, anywhere later, by a [>]. *)
Fixpoint noTagLeft (s : jsstring) : bool :=
  match s with
  | [] => true
  | c :: r =>
      (if N.eqb c 60%N then forallb (notUnit 62%N) r else true) && noTagLeft r
  end.

(** The line printed for a snippet. *)
Definition lineOf (withTimestamps : bool) (s : TranscriptSnippet) : jsstring :=
  if withTimestamps then
    lit "[" ++ formatTimestamp (start s) ++ lit "] " ++ text s
  else text s.


(** The arguments are at their end or at a flag. *)
Definition atFlag (rest : list jsstring) : bool :=
  match rest with [] => true | f :: _ => isFlag f end.

(** The request [r] with the times [ts] as its [only] list, unless it
    holds an [only] list already. *)
Definition keepOnly (ts : list number) (r : ParseResult) : ParseResult :=
  match only r with Some _ => r | None => setOnly r ts end.


(* ================================================================== *)
(** * Properties *)

(** ** Numbers *)

Lemma num_le_Fin (a b : Q) : num_le (Fin a) (Fin b) = true <-> (a <= b)%Q.
Proof. simpl. apply Qle_bool_iff. Qed.

Lemma num_le_PosInf (x : number) : x <> NaN -> num_le x PosInf = true.
Proof. destruct x; simpl; congruence. Qed.

Lemma num_le_not_gt (a b : number) : num_le a b = true -> num_gt a b = false.
Proof.
  unfold num_gt.
  destruct a as [ | | |x], b as [ | | |y]; simpl; try congruence.
  intros H. now rewrite H.
Qed.

Lemma num_gt_not_le (a b : number) : num_gt a b = true -> num_le a b = false.
Proof.
  intros H. destruct (num_le a b) eqn:E; [|reflexivity].
  apply num_le_not_gt in E. congruence.
Qed.

Lemma Qfloor_unique (x : Q) (z : Z) :
  (inject_Z z <= x)%Q -> (x < inject_Z z + 1)%Q -> Qfloor x = z.
Proof.
  intros Hlo Hhi.
  pose proof (Qfloor_le x) as Hf.
  pose proof (Qlt_floor x) as Hc.
  rewrite inject_Z_plus in Hc.
  assert (H1 : (inject_Z z < inject_Z (Qfloor x) + inject_Z 1)%Q)
    by (eapply Qle_lt_trans; eauto).
  assert (H2 : (inject_Z (Qfloor x) < inject_Z z + inject_Z 1)%Q)
    by (eapply Qle_lt_trans; eauto).
  rewrite <- inject_Z_plus in H1, H2.
  rewrite <- Zlt_Qlt in H1, H2.
  apply Z.le_antisymm; apply Z.lt_succ_r; assumption.
Qed.

(** [Math.round] returns the nearest integer, halves going up. *)
Lemma Math_round_nearest (q : Q) (z : Z) :
  nearestHalfUp q z <-> Qfloor (q + (1 # 2)) = z.
Proof.
  unfold nearestHalfUp. split.
  - intros [Hlo Hhi]. apply Qfloor_unique.
    + generalize dependent (inject_Z z). intros; lra.
    + generalize dependent (inject_Z z). intros; lra.
  - intros <-.
    pose proof (Qfloor_le (q + (1 # 2))) as Hf.
    pose proof (Qlt_floor (q + (1 # 2))) as Hc.
    rewrite inject_Z_plus in Hc. change (inject_Z 1) with 1%Q in Hc.
    generalize dependent (inject_Z (Qfloor (q + (1 # 2)))).
    intros; split; lra.
Qed.

(** ** Window filter *)

Lemma notExcluded_inAnyRange ranges s :
  notExcluded ranges s = negb (inAnyRange ranges s).
Proof.
  induction ranges as [|[lo hi] rest IH]; simpl; [reflexivity|].
  unfold inWindow at 1, num_ge. simpl.
  destruct (num_le lo (start s) && num_le (start s) hi); simpl; auto.
Qed.

Lemma filter_notExcluded ranges l :
  filter (notExcluded ranges) l = filter (fun s => negb (inAnyRange ranges s)) l.
Proof. apply filter_ext. intros s. apply notExcluded_inAnyRange. Qed.

Lemma inAnyRange_perm ranges ranges' s :
  Permutation ranges ranges' -> inAnyRange ranges s = inAnyRange ranges' s.
Proof.
  unfold inAnyRange.
  induction 1 as [ | r l l' _ IH | r1 r2 l | l l' l'' _ IH1 _ IH2 ]; simpl.
  - reflexivity.
  - now rewrite IH.
  - rewrite !orb_assoc. f_equal. apply orb_comm.
  - congruence.
Qed.

Lemma length_filter_negb {A} (p : A -> bool) (l : list A) :
  length (filter (fun x => negb (p x)) l)
  = (length l - length (filter p l))%nat.
Proof.
  induction l as [|x l IH]; [reflexivity|].
  pose proof (filter_length_le p l).
  cbn [filter]. destruct (p x); cbn [negb length]; lia.
Qed.

(** The exclude pass, whatever the selection was. *)
Lemma exclude_after_selection snippets opts :
  filterSnippets snippets opts
  = (selected <- filterSnippets snippets (setExclude opts None) ;;
     Ok (filter (fun s => negb (inAnyRange (orElse (exclude opts) []) s))
                selected)).
Proof.
  unfold filterSnippets. simpl.
  set (sel := if nonEmpty (only opts) then _ else _).
  destruct sel as [l|e]; simpl; [|reflexivity].
  destruct (exclude opts) as [[|r rs]|]; simpl.
  - f_equal. induction l; simpl; congruence.
  - f_equal. apply (filter_notExcluded (r :: rs)).
  - f_equal. induction l; simpl; congruence.
Qed.

Lemma filterSnippets_no_exclude snippets opts :
  nonEmpty (exclude opts) = false ->
  filterSnippets snippets opts = filterSnippets snippets (setExclude opts None).
Proof.
  intros H. unfold filterSnippets. simpl. rewrite H.
  now destruct (if nonEmpty (only opts) then _ else _).
Qed.

Lemma inWindow_within lo hi s q :
  start s = Fin q -> (inWindow lo hi s = true <-> within lo hi q).
Proof.
  intros Hs. unfold inWindow, within. rewrite Hs, andb_true_iff.
  destruct lo, hi; simpl; rewrite ?Qle_bool_iff;
    intuition (try discriminate; auto).
Qed.

Lemma inAnyRange_exists ranges s :
  inAnyRange ranges s = true
  <-> exists r, In r ranges /\ inWindow (fst r) (snd r) s = true.
Proof. unfold inAnyRange. apply existsb_exists. Qed.

(** C1, amended: for a request whose [only] list is non-empty and which
    carries no exclude ranges, [filterSnippets] returns exactly the
    snippets, in their original order, whose start rounded to the nearest
    integer (halves going up) is one of the requested times. *)
Theorem filterSnippets_only snippets opts times :
  only opts = Some times ->
  times <> [] ->
  nonEmpty (exclude opts) = false ->
  filterSnippets snippets opts = Ok (filter (roundedStartIn times) snippets)
  /\ (forall s q, start s = Fin q ->
        (roundedStartIn times s = true <->
         exists z, nearestHalfUp q z
                   /\ exists t, In t times /\ sameValueZero (ofZ z) t = true)).
Proof.
  intros Honly Hne Hex. split.
  - rewrite (filterSnippets_no_exclude _ _ Hex).
    unfold filterSnippets. simpl. rewrite Honly.
    destruct times as [|t ts]; [congruence|]. reflexivity.
  - intros s q Hs. unfold roundedStartIn, Set_has. rewrite Hs.
    cbn [Math_round]. rewrite existsb_exists. split.
    + intros (t & Hin & Ht). exists (Qfloor (q + (1 # 2))). split.
      * now apply Math_round_nearest.
      * now exists t.
    + intros (z & Hz & t & Hin & Ht). apply Math_round_nearest in Hz.
      rewrite Hz. now exists t.
Qed.

Lemma filterSnippets_only_witness :
  filterSnippets scenario
    (mkOpts None true None None (Some [ofZ 60]) None) = Ok [snipB].
Proof.
  destruct (filterSnippets_only scenario
              (mkOpts None true None None (Some [ofZ 60]) None)
              [ofZ 60] eq_refl ltac:(discriminate) eq_refl) as [H _].
  rewrite H. reflexivity.
Defined.

(** C1 as stated fails when exclude ranges are present: the request
    only = {60}, exclude = [60, 60] returns nothing, although the snippet
    starting at 60.0 rounds to a requested time. *)
Lemma filterSnippets_only_exclude_counterexample :
  let opts := mkOpts None true None None (Some [ofZ 60])
                     (Some [(ofZ 60, ofZ 60)]) in
  filterSnippets scenario opts = Ok []
  /\ filter (roundedStartIn [ofZ 60]) scenario = [snipB].
Proof. split; reflexivity. Qed.

(** C2: with [only] absent or empty, a bound given, no exclude ranges and
    lower <= upper, [filterSnippets] returns exactly the snippets, in
    their original order, whose unrounded start lies between the bounds,
    both ends included; the lower bound defaults to 0 and the upper one
    to +infinity. *)
Theorem filterSnippets_range snippets opts :
  nonEmpty (only opts) = false ->
  defined (from opts) || defined (to opts) = true ->
  nonEmpty (exclude opts) = false ->
  num_le (orElse (from opts) (ofZ 0)) (orElse (to opts) PosInf) = true ->
  let lo := orElse (from opts) (ofZ 0) in
  let hi := orElse (to opts) PosInf in
  filterSnippets snippets opts = Ok (filter (inWindow lo hi) snippets)
  /\ (forall s q, start s = Fin q ->
        (inWindow lo hi s = true <-> within lo hi q)).
Proof.
  intros Honly Hrange Hex Hle lo hi. split.
  - rewrite (filterSnippets_no_exclude _ _ Hex).
    unfold filterSnippets. simpl. rewrite Honly, Hrange.
    rewrite (num_le_not_gt _ _ Hle). reflexivity.
  - intros s q. apply inWindow_within.
Qed.

Lemma filterSnippets_range_witness :
  filterSnippets scenario
    (mkOpts None true (Some (ofZ 60)) (Some (ofZ 61)) None None)
  = Ok [snipB].
Proof.
  rewrite (proj1 (filterSnippets_range scenario
             (mkOpts None true (Some (ofZ 60)) (Some (ofZ 61)) None None)
             eq_refl eq_refl eq_refl eq_refl)).
  reflexivity.
Defined.

(** C3: the exclude pass runs after the only/range selection and drops
    exactly the snippets whose unrounded start lies in the closed interval
    of at least one range; survivors keep their order; permuting the
    exclude list changes nothing; with excludes alone, the length of the
    result is the length of the input minus the number of snippets whose
    start lies in some range. *)
Theorem filterSnippets_exclude snippets opts :
  let ranges := orElse (exclude opts) [] in
  filterSnippets snippets opts
  = (selected <- filterSnippets snippets (setExclude opts None) ;;
     Ok (filter (fun s => negb (inAnyRange ranges s)) selected))
  /\ (forall ranges', Permutation ranges ranges' ->
        filterSnippets snippets (setExclude opts (Some ranges'))
        = filterSnippets snippets opts)
  /\ (from opts = None -> to opts = None -> nonEmpty (only opts) = false ->
        filterSnippets snippets opts
        = Ok (filter (fun s => negb (inAnyRange ranges s)) snippets)
        /\ length (filter (fun s => negb (inAnyRange ranges s)) snippets)
           = (length snippets - length (filter (inAnyRange ranges) snippets))%nat)
  /\ (forall s, inAnyRange ranges s = true
        <-> exists r, In r ranges /\ inWindow (fst r) (snd r) s = true).
Proof.
  intros ranges. split; [apply exclude_after_selection|].
  split; [|split; [|intros s; apply inAnyRange_exists]].
  - intros ranges' Hperm.
    rewrite (exclude_after_selection snippets opts).
    rewrite (exclude_after_selection snippets (setExclude opts _)).
    change (setExclude (setExclude opts (Some ranges')) None)
      with (setExclude opts None).
    change (orElse (exclude (setExclude opts (Some ranges'))) [])
      with ranges'.
    fold ranges.
    destruct (filterSnippets snippets (setExclude opts None)) as [l|e];
      simpl; [|reflexivity].
    f_equal. apply filter_ext. intros s.
    now rewrite (inAnyRange_perm _ _ s Hperm).
  - intros Hfrom Hto Honly. split.
    + rewrite exclude_after_selection. fold ranges.
      unfold filterSnippets at 1. simpl.
      rewrite Hfrom, Hto, Honly. reflexivity.
    + apply (length_filter_negb (inAnyRange ranges)).
Qed.

Lemma filterSnippets_exclude_witness :
  filterSnippets scenario
    (mkOpts None true None None None (Some [(ofZ 58, ofZ 59)]))
  = Ok [snipB; snipC].
Proof.
  destruct (filterSnippets_exclude scenario
              (mkOpts None true None None None (Some [(ofZ 58, ofZ 59)])))
    as (_ & _ & H & _).
  destruct (H eq_refl eq_refl eq_refl) as [Hout _].
  rewrite Hout. reflexivity.
Defined.

(** C8, amended: with both bounds present, from > to and [only] absent or
    empty, [filterSnippets] fails with the range-order error; with the
    timestamps flag set, [main] rejects a non-empty [only] combined with a
    bound as a conflicting selection; without the flag, [main] rejects a
    request that holds a bound as lacking the flag, before any other
    test; and in either situation [main] ends with an error, whatever the
    flags and the network return, so no transcript is printed. *)
Theorem selection_rejected fetch snippets opts :
  (forall f t, from opts = Some f -> to opts = Some t ->
     num_gt f t = true -> nonEmpty (only opts) = false ->
     filterSnippets snippets opts = Err (InvalidRangeOrder FromToOrder))
  /\ (defined (from opts) || defined (to opts) = true ->
      nonEmpty (only opts) = true -> timestamps opts = true ->
      main fetch opts = Exit1 ConflictingSelection)
  /\ (defined (from opts) || defined (to opts) = true ->
      timestamps opts = false ->
      main fetch opts = Exit1 TimestampsRequired)
  /\ ((exists f t, from opts = Some f /\ to opts = Some t
                   /\ num_gt f t = true)
      \/ (defined (from opts) || defined (to opts) = true
          /\ nonEmpty (only opts) = true) ->
      exists e, main fetch opts = Exit1 e).
Proof.
  split; [|split; [|split]].
  - intros f t Hf Ht Hgt Honly.
    unfold filterSnippets. rewrite Honly, Hf, Ht. simpl. now rewrite Hgt.
  - intros Hrange Honly Hts. unfold main.
    rewrite Hrange, Honly, Hts. reflexivity.
  - intros Hrange Hts. unfold main.
    rewrite Hrange, Hts. reflexivity.
  - intros Hcase. unfold main.
    assert (Hdef : defined (from opts) || defined (to opts) = true).
    { destruct Hcase as [(f & t & Hf & _)|[H _]]; [now rewrite Hf|exact H]. }
    rewrite Hdef. cbn [orb andb].
    destruct (timestamps opts); cbn [negb]; [|now eexists].
    destruct (nonEmpty (only opts)) eqn:Honly; [now eexists|].
    destruct (negb (truthy (video opts))); [now eexists|].
    destruct Hcase as [(f & t & Hf & Ht & Hgt)|[_ H]]; [|discriminate].
    destruct (fetch _) as [l|e]; simpl; [|now eexists].
    unfold filterSnippets. rewrite Honly, Hf, Ht. simpl. rewrite Hgt.
    simpl. now eexists.
Qed.

Lemma selection_rejected_witness :
  filterSnippets scenario
    (mkOpts (Some (lit "v")) true (Some (ofZ 100)) (Some (ofZ 50)) None None)
  = Err (InvalidRangeOrder FromToOrder)
  /\ main (fun _ => Ok scenario)
       (mkOpts (Some (lit "v")) true (Some (ofZ 100)) None (Some [ofZ 60]) None)
     = Exit1 ConflictingSelection
  /\ main (fun _ => Ok scenario)
       (mkOpts (Some (lit "v")) false (Some (ofZ 100)) None (Some [ofZ 60])
               None)
     = Exit1 TimestampsRequired.
Proof.
  split; [|split].
  - exact (proj1 (selection_rejected (fun _ => Ok scenario) scenario
             (mkOpts (Some (lit "v")) true (Some (ofZ 100)) (Some (ofZ 50))
                     None None))
             (ofZ 100) (ofZ 50) eq_refl eq_refl eq_refl eq_refl).
  - exact (proj1 (proj2 (selection_rejected (fun _ => Ok scenario) scenario
             (mkOpts (Some (lit "v")) true (Some (ofZ 100)) None
                     (Some [ofZ 60]) None)))
             eq_refl eq_refl eq_refl).
  - exact (proj1 (proj2 (proj2 (selection_rejected (fun _ => Ok scenario)
             scenario
             (mkOpts (Some (lit "v")) false (Some (ofZ 100)) None
                     (Some [ofZ 60]) None))))
             eq_refl eq_refl).
Defined.

(** C8 as stated fails: a request with from > to and a non-empty [only]
    makes [filterSnippets] return filtered output instead of the
    range-order error, and [main] reports a conflicting selection for it;
    without the timestamps flag both kinds of request are reported as
    missing that flag. *)
Lemma selection_rejected_counterexample :
  let both := mkOpts (Some (lit "v")) true (Some (ofZ 100)) (Some (ofZ 50))
                     (Some [ofZ 60]) None in
  let plain := mkOpts (Some (lit "v")) false (Some (ofZ 100)) (Some (ofZ 50))
                      None None in
  let mixed := mkOpts (Some (lit "v")) false (Some (ofZ 100)) None
                      (Some [ofZ 60]) None in
  num_gt (ofZ 100) (ofZ 50) = true
  /\ filterSnippets scenario both = Ok [snipB]
  /\ main (fun _ => Ok scenario) both = Exit1 ConflictingSelection
  /\ main (fun _ => Ok scenario) plain = Exit1 TimestampsRequired
  /\ main (fun _ => Ok scenario) mixed = Exit1 TimestampsRequired.
Proof. repeat split; reflexivity. Qed.

(** ** Strings *)

Lemma str_eqb_eq (a b : jsstring) : str_eqb a b = true <-> a = b.
Proof.
  revert b. induction a as [|x a IH]; intros [|y b]; simpl;
    try (split; [discriminate|congruence]); [tauto|].
  rewrite andb_true_iff, N.eqb_eq, IH. split.
  - intros [-> ->]. reflexivity.
  - intros [= -> ->]. auto.
Qed.

Lemma str_eqb_neq (a b : jsstring) : a <> b -> str_eqb a b = false.
Proof.
  intros H. destruct (str_eqb a b) eqn:E; [|reflexivity].
  apply str_eqb_eq in E. contradiction.
Qed.

Lemma startsWith_prefix (p s : jsstring) :
  startsWith p s = true <-> exists b, s = p ++ b.
Proof.
  revert s. induction p as [|x p IH]; intros s; simpl.
  - split; [intros _; now exists s|reflexivity].
  - destruct s as [|y s].
    + split; [discriminate|intros [b H]; discriminate].
    + rewrite andb_true_iff, N.eqb_eq, IH. split.
      * intros [-> [b ->]]. now exists b.
      * intros [b [= -> ->]]. split; [reflexivity|now exists b].
Qed.

(** [s.includes(p)] holds exactly when [p] occurs somewhere in [s]. *)
Lemma includes_infix (s p : jsstring) :
  includes s p = true <-> exists a b, s = a ++ p ++ b.
Proof.
  induction s as [|c s IH].
  - simpl. rewrite orb_false_r, startsWith_prefix. split.
    + intros [b H]. now exists [], b.
    + intros (a & b & H). destruct a; [now exists b|discriminate].
  - cbn [includes]. rewrite orb_true_iff, startsWith_prefix, IH. split.
    + intros [[b H]|(a & b & H)].
      * now exists [], b.
      * exists (c :: a), b. now rewrite H.
    + intros (a & b & H). destruct a as [|c' a].
      * left. now exists b.
      * right. injection H as _ H. now exists a, b.
Qed.

(** ** Caption tracks *)

(** C5, amended: [getCaptionTracks] proceeds when the status is absent,
    empty or OK; a non-empty status other than OK fails, in this order of
    precedence, as a blocked request when the status is LOGIN_REQUIRED and
    the reason holds "bot", as age-restricted when the reason holds
    "inappropriate", as unavailable when it holds "unavailable", and
    otherwise as unplayable with the reason text (the status itself when
    no reason is given); when it proceeds, a missing or empty track list
    is reported as disabled captions and any other list is returned
    unchanged. *)
Theorem getCaptionTracks_spec data videoId :
  let st := chain (playabilityStatus data) status in
  let why := orElse (chain (playabilityStatus data) reason) (orElse st []) in
  let tracks :=
    chain (chain (captions data) playerCaptionsTracklistRenderer)
          captionTracks in
  let blocked :=
    str_eqb (orElse st []) (lit "LOGIN_REQUIRED") && includes why (lit "bot") in
  ((st = None \/ st = Some [] \/ st = Some (lit "OK")) ->
     (nonEmpty tracks = false ->
      getCaptionTracks data videoId = Err CaptionsDisabled)
     /\ (forall t ts, tracks = Some (t :: ts) ->
         getCaptionTracks data videoId = Ok (t :: ts)))
  /\ (forall s, st = Some s -> s <> [] -> s <> lit "OK" ->
     (blocked = true -> getCaptionTracks data videoId = Err RequestBlocked)
     /\ (blocked = false -> includes why (lit "inappropriate") = true ->
         getCaptionTracks data videoId = Err AgeRestricted)
     /\ (blocked = false -> includes why (lit "inappropriate") = false ->
         includes why (lit "unavailable") = true ->
         getCaptionTracks data videoId = Err VideoUnavailable)
     /\ (blocked = false -> includes why (lit "inappropriate") = false ->
         includes why (lit "unavailable") = false ->
         getCaptionTracks data videoId = Err (VideoUnplayable why))).
Proof.
  intros st why tracks blocked. split.
  - intros Hst.
    assert (Hgo : truthy st && negb (str_eqb (orElse st []) (lit "OK")) = false).
    { destruct Hst as [->|[->| ->]]; reflexivity. }
    split.
    + intros Hnone. unfold getCaptionTracks. fold st. rewrite Hgo.
      simpl. fold tracks. now rewrite Hnone.
    + intros t ts Htracks. unfold getCaptionTracks. fold st. rewrite Hgo.
      simpl. fold tracks. now rewrite Htracks.
  - intros s Hs Hne Hok.
    assert (Hstop : truthy st && negb (str_eqb (orElse st []) (lit "OK")) = true).
    { rewrite Hs. destruct s as [|c s]; [congruence|]. simpl truthy.
      cbn [orElse andb]. now rewrite (str_eqb_neq _ _ Hok). }
    unfold getCaptionTracks. fold st. rewrite Hstop. fold why. fold blocked.
    repeat split.
    + intros ->. reflexivity.
    + intros -> ->. reflexivity.
    + intros -> -> ->. reflexivity.
    + intros -> -> ->. reflexivity.
Qed.

Lemma getCaptionTracks_spec_witness :
  getCaptionTracks blockedResponse (lit "v") = Err RequestBlocked
  /\ getCaptionTracks okResponse (lit "v") = Ok [sampleTrack].
Proof.
  split.
  - refine (proj1 (proj2 (getCaptionTracks_spec blockedResponse (lit "v"))
                     (lit "LOGIN_REQUIRED") eq_refl _ _) eq_refl);
      discriminate.
  - exact (proj2 (proj1 (getCaptionTracks_spec okResponse (lit "v"))
                    (or_intror (or_intror eq_refl)))
                 sampleTrack [] eq_refl).
Defined.

(** C5 as stated fails on a status that is present but empty: it is not
    OK, the reason mentions automated traffic, and yet the track list is
    returned. *)
Lemma getCaptionTracks_empty_status_counterexample :
  chain (playabilityStatus emptyStatusResponse) status = Some []
  /\ Some ([] : jsstring) <> Some (lit "OK")
  /\ getCaptionTracks emptyStatusResponse (lit "v") = Ok [sampleTrack].
Proof. repeat split. discriminate. Qed.

(** ** Timed-text scanner *)

Lemma span_app (p : char16 -> bool) (a b : jsstring) :
  forallb p a = true ->
  match b with [] => True | c :: _ => p c = false end ->
  span p (a ++ b) = (a, b).
Proof.
  intros Ha Hb. induction a as [|x a IH]; simpl in *.
  - destruct b as [|c b]; [reflexivity|]. simpl. now rewrite Hb.
  - apply andb_true_iff in Ha as [Hx Ha]. now rewrite Hx, (IH Ha).
Qed.

Lemma startsWithCI_app (p r : jsstring) : startsWithCI p (p ++ r) = true.
Proof. induction p as [|x p IH]; simpl; [reflexivity|]. now rewrite N.eqb_refl. Qed.

Lemma skipn_length_app {A} (a b : list A) : skipn (length a) (a ++ b) = b.
Proof. induction a; simpl; auto. Qed.

Lemma dropLit_app (p r : jsstring) : dropLit p (p ++ r) = Some r.
Proof. unfold dropLit. now rewrite startsWithCI_app, skipn_length_app. Qed.

Lemma wellFormed_parts (e : element) :
  wellFormed e = true ->
  el_start e <> []
  /\ forallb (notUnit 34%N) (el_start e) = true
  /\ forallb (notUnit 34%N) (el_dur e) = true
  /\ forallb (notUnit 62%N) (el_attrs e) = true
  /\ forallb (notUnit 60%N) (el_text e) = true.
Proof.
  unfold wellFormed. rewrite !andb_true_iff.
  intros [[[[H0 H1] H2] H3] H4]. repeat split; auto.
  intros E. rewrite E in H0. discriminate.
Qed.

(** The pattern matches a well-formed element placed at the head of the
    input, with the element's own fields as groups. *)
Lemma matchText_render (e : element) (rest : jsstring) :
  wellFormed e = true ->
  matchText (render e ++ rest)
  = Some (el_start e, el_dur e, el_text e, length (render e)).
Proof.
  intros Hwf. apply wellFormed_parts in Hwf as (Hne & Hs & Hd & Ha & Ht).
  assert (Hr : render e ++ rest
               = (lit "<text start=" ++ dq) ++ el_start e
                 ++ (dq ++ lit " dur=" ++ dq) ++ el_dur e
                 ++ dq ++ el_attrs e
                 ++ lit ">" ++ el_text e
                 ++ lit "</text>" ++ rest).
  { unfold render. repeat rewrite <- app_assoc. reflexivity. }
  assert (Hlen : (length (render e ++ rest) - length rest)%nat
                 = length (render e)).
  { rewrite length_app. lia. }
  unfold matchText. rewrite Hr.
  rewrite dropLit_app.
  rewrite (span_app _ _ _ Hs) by reflexivity.
  destruct (el_start e) as [|c0 st] eqn:Est; [congruence|].
  rewrite dropLit_app.
  rewrite (span_app _ _ _ Hd) by reflexivity.
  rewrite dropLit_app.
  rewrite (span_app _ _ _ Ha) by reflexivity.
  rewrite dropLit_app.
  rewrite (span_app _ _ _ Ht) by reflexivity.
  rewrite dropLit_app.
  rewrite <- Hr, Hlen. reflexivity.
Qed.

Section TimedText.

(** The runtime's conversion of a decimal literal to a number; all that
    is used of it is that it reads "0" as zero. *)
Variable parseFloat : jsstring -> number.
Hypothesis parseFloat_zero : parseFloat (lit "0") = ofZ 0.

Lemma scanText_skip (a s : jsstring) (k : nat) :
  scanText parseFloat (length a + k) (a ++ s) = scanText parseFloat k s.
Proof. induction a as [|x a IH]; simpl; auto. Qed.

(** A well-formed element at the head of the input contributes its
    snippet, and scanning resumes right after it. *)
Lemma scanText_render (e : element) (rest : jsstring) :
  wellFormed e = true ->
  scanText parseFloat 0 (render e ++ rest)
  = snippetOf parseFloat e ++ scanText parseFloat 0 rest.
Proof.
  intros Hwf. pose proof (matchText_render e rest Hwf) as Hm.
  destruct (render e) as [|c r] eqn:Er; [discriminate|].
  change ((c :: r) ++ rest) with (c :: (r ++ rest)) in *.
  cbn [scanText]. rewrite Hm.
  cbn [length]. rewrite Nat.sub_succ, Nat.sub_0_r.
  rewrite <- (Nat.add_0_r (length r)), scanText_skip.
  unfold snippetOf, normalizeText.
  destruct (trim (stripTags 0 (unescapeHtml (el_text e))));
    destruct (el_dur e); reflexivity.
Qed.

Lemma startsWithCI_app_l (p q s : jsstring) :
  startsWithCI (p ++ q) s = true -> startsWithCI p s = true.
Proof.
  revert s. induction p as [|x p IH]; intros s; simpl; [reflexivity|].
  destruct s as [|y s]; [discriminate|].
  rewrite !andb_true_iff. intros [H1 H2]. split; eauto.
Qed.

(** No match starts inside quiet text that is followed by nothing or by
    an opening angle bracket. *)
Lemma matchText_quiet (c : char16) (g rest : jsstring) :
  quiet (c :: g) = true ->
  match rest with [] => True | x :: _ => x = 60%N end ->
  matchText (c :: g ++ rest) = None.
Proof.
  intros Hq Hrest. unfold matchText, dropLit.
  destruct (startsWithCI (lit "<text start=" ++ dq) (c :: g ++ rest)) eqn:E;
    [|reflexivity].
  exfalso. cbn [quiet] in Hq. apply andb_true_iff in Hq as [Hq _].
  apply negb_true_iff in Hq.
  destruct g as [|c1 [|c2 g]].
  - destruct rest as [|x rest]; [simpl in E; now rewrite andb_false_r in E|].
    subst x. simpl in E. now rewrite andb_false_r in E.
  - destruct rest as [|x rest].
    + simpl in E. now rewrite !andb_false_r in E.
    + subst x. simpl in E. now rewrite !andb_false_r in E.
  - apply (startsWithCI_app_l (lit "<te")) in E.
    change (c :: (c1 :: c2 :: g) ++ rest)
      with ((c :: c1 :: [c2]) ++ (g ++ rest)) in E.
    simpl in E, Hq. rewrite !andb_true_r in *. congruence.
Qed.

Lemma scanText_quiet (g rest : jsstring) :
  quiet g = true ->
  match rest with [] => True | x :: _ => x = 60%N end ->
  scanText parseFloat 0 (g ++ rest) = scanText parseFloat 0 rest.
Proof.
  intros Hq Hrest. induction g as [|c g IH]; [reflexivity|].
  change ((c :: g) ++ rest) with (c :: g ++ rest).
  cbn [scanText]. rewrite (matchText_quiet _ _ _ Hq Hrest).
  apply IH. cbn [quiet] in Hq. now apply andb_true_iff in Hq as [_ Hq].
Qed.

Lemma scanText_payload items tail :
  Forall (fun ge => quiet (fst ge) = true /\ wellFormed (snd ge) = true) items ->
  quiet tail = true ->
  scanText parseFloat 0 (renderPayload items tail)
  = flat_map (fun ge => snippetOf parseFloat (snd ge)) items.
Proof.
  intros Hitems Htail. induction Hitems as [|[g e] items [Hg He] _ IH].
  - simpl. rewrite <- (app_nil_r tail).
    now rewrite (scanText_quiet tail [] Htail I).
  - change (renderPayload ((g, e) :: items) tail)
      with (g ++ render e ++ renderPayload items tail).
    cbn [flat_map fst snd] in *.
    rewrite scanText_quiet; [|exact Hg|reflexivity].
    rewrite (scanText_render e _ He). now rewrite IH.
Qed.

(** X22: on a payload made of elements of the recognised shape (a
    non-empty [start] attribute, the [dur] attribute right after it,
    attribute values without quote, inner text without [<]), each
    preceded by text that holds no [<te] in either letter case, and
    followed by such text, [parseTranscriptXml] returns, in payload
    order, one snippet per element whose inner text is non-empty after
    unescaping, tag-stripping and trimming; elements whose normalized
    text is empty are dropped; an element whose [dur] value is empty gets
    duration 0. *)
Theorem parseTranscriptXml_payload
    (items : list (jsstring * element)) (tail : jsstring) :
  Forall (fun ge => quiet (fst ge) = true /\ wellFormed (snd ge) = true) items ->
  quiet tail = true ->
  parseTranscriptXml parseFloat (renderPayload items tail)
  = flat_map (fun ge => snippetOf parseFloat (snd ge)) items
  /\ (forall e,
        (normalizeText (el_text e) = [] -> snippetOf parseFloat e = [])
        /\ (normalizeText (el_text e) <> [] ->
            exists s, snippetOf parseFloat e = [s]
              /\ text s = normalizeText (el_text e)
              /\ start s = parseFloat (el_start e)
              /\ (el_dur e = [] -> duration s = ofZ 0)
              /\ (el_dur e <> [] -> duration s = parseFloat (el_dur e)))).
Proof.
  intros Hitems Htail. split.
  - now apply scanText_payload.
  - intros e. unfold snippetOf. split.
    + now intros ->.
    + intros Hne. destruct (normalizeText (el_text e)) as [|c t]; [congruence|].
      eexists. split; [reflexivity|]. simpl. repeat split.
      * intros ->. exact parseFloat_zero.
      * intros Hd. destruct (el_dur e); congruence.
Qed.

End TimedText.

Lemma parseTranscriptXml_payload_witness :
  parseTranscriptXml parseFloatExact
    (renderPayload samplePayload (lit "</transcript>"))
  = [ mkSnippet (lit "Tom & Jerry") (Fin (5 # 10)) (Fin 2);
      mkSnippet (lit "second") (Fin 3) (Fin 0) ].
Proof.
  refine (eq_trans
            (proj1 (parseTranscriptXml_payload parseFloatExact eq_refl
                      samplePayload (lit "</transcript>") _ eq_refl)) _).
  - repeat constructor.
  - reflexivity.
Defined.

(** C4, the defect: an element without [dur] attribute yields no snippet
    at all, where the claim, the default written in the loop and the
    library that the script emulates give one with duration 0; the same
    element with an empty [dur] value does get that default.  The
    pattern demands the [dur] attribute right after [start].  An element
    with literal nested markup is skipped as well, although its text
    would be non-empty after tag-stripping. *)
Theorem parseTranscriptXml_absent_dur (pf : jsstring -> number) :
  parseTranscriptXml pf noDurXml = []
  /\ parseTranscriptXml pf
       (render (mkElement (lit "1.5") [] [] (lit "hello")))
     = [mkSnippet (lit "hello") (pf (lit "1.5")) (pf (lit "0"))]
  /\ parseTranscriptXml pf nestedXml = []
  /\ normalizeText (lit "a <b>c</b>") = lit "a c".
Proof. repeat split. Qed.

(** ** Entity decoder *)

Lemma replaceLit_skip pat rep (a s : jsstring) (k : nat) :
  replaceLit pat rep (length a + k) (a ++ s) = replaceLit pat rep k s.
Proof. induction a as [|x a IH]; simpl; auto. Qed.

Lemma replaceAll_hit pat rep (s : jsstring) :
  pat <> [] ->
  replaceAll pat rep (pat ++ s) = rep ++ replaceAll pat rep s.
Proof.
  intros Hne. unfold replaceAll.
  destruct pat as [|x p]; [congruence|].
  change ((x :: p) ++ s) with (x :: (p ++ s)). cbn [replaceLit].
  change (x :: p ++ s) with ((x :: p) ++ s).
  replace (startsWith (x :: p) ((x :: p) ++ s)) with true
    by (symmetry; apply startsWith_prefix; now exists s).
  cbn [length]. rewrite Nat.sub_succ, Nat.sub_0_r.
  rewrite <- (Nat.add_0_r (length p)). now rewrite replaceLit_skip.
Qed.

(** Text without ampersand is left alone by every replacement whose
    pattern starts with one. *)
Lemma replaceAll_plain pat rep (t s : jsstring) :
  hd_error pat = Some 38%N ->
  forallb (notUnit 38%N) t = true ->
  replaceAll pat rep (t ++ s) = t ++ replaceAll pat rep s.
Proof.
  intros Hpat Ht. destruct pat as [|x p]; [discriminate|].
  injection Hpat as ->.
  unfold replaceAll. induction t as [|c t IH]; [reflexivity|].
  simpl in Ht. apply andb_true_iff in Ht as [Hc Ht].
  change ((c :: t) ++ s) with (c :: (t ++ s)). cbn [replaceLit startsWith].
  unfold notUnit in Hc. apply negb_true_iff in Hc.
  rewrite N.eqb_sym, Hc. cbn [andb]. now rewrite (IH Ht).
Qed.

Lemma replaceEntity_plain open digit value (t s : jsstring) :
  hd_error open = Some 38%N ->
  forallb (notUnit 38%N) t = true ->
  replaceEntity open digit value 0 (t ++ s)
  = t ++ replaceEntity open digit value 0 s.
Proof.
  intros Hopen Ht. destruct open as [|x p]; [discriminate|].
  injection Hopen as ->.
  induction t as [|c t IH]; [reflexivity|].
  simpl in Ht. apply andb_true_iff in Ht as [Hc Ht].
  change ((c :: t) ++ s) with (c :: (t ++ s)). cbn [replaceEntity].
  unfold matchEntity. cbn [startsWith].
  unfold notUnit in Hc. apply negb_true_iff in Hc.
  rewrite N.eqb_sym, Hc. cbn [andb]. now rewrite (IH Ht).
Qed.

Lemma plain_parts (t : jsstring) :
  forallb plainUnit t = true ->
  forallb (notUnit 38%N) t = true
  /\ forallb (notUnit 60%N) t = true
  /\ forallb (notUnit 62%N) t = true.
Proof.
  induction t as [|c t IH]; simpl; [auto|].
  unfold plainUnit at 1. rewrite !andb_true_iff.
  intros [[[H1 H2] H3] Ht]. destruct (IH Ht) as (I1 & I2 & I3).
  rewrite H1, H2, H3, I1, I2, I3. auto.
Qed.

Lemma indexOf_app (c : char16) (a b : jsstring) :
  forallb (notUnit c) a = true ->
  indexOf c (a ++ c :: b) = Some (length a).
Proof.
  intros Ha. induction a as [|x a IH]; simpl.
  - now rewrite N.eqb_refl.
  - simpl in Ha. apply andb_true_iff in Ha as [Hx Ha].
    unfold notUnit in Hx. apply negb_true_iff in Hx.
    now rewrite Hx, (IH Ha).
Qed.

Lemma indexOf_none (c : char16) (a : jsstring) :
  forallb (notUnit c) a = true <-> indexOf c a = None.
Proof.
  induction a as [|x a IH]; simpl; [tauto|].
  unfold notUnit at 1. destruct (N.eqb x c); simpl.
  - split; discriminate.
  - rewrite IH. destruct (indexOf c a); split; congruence.
Qed.

Lemma stripTags_skip (a s : jsstring) (k : nat) :
  stripTags (length a + k) (a ++ s) = stripTags k s.
Proof. induction a as [|x a IH]; simpl; auto. Qed.

(** A tag without [>] inside is removed whole. *)
Lemma stripTags_tag (t s : jsstring) :
  forallb (notUnit 62%N) t = true ->
  stripTags 0 (60%N :: t ++ 62%N :: s) = stripTags 0 s.
Proof.
  intros Ht. cbn [stripTags]. rewrite N.eqb_refl, (indexOf_app _ _ _ Ht).
  change (S (length t)) with (length (t ++ [62%N]) + 0)%nat at 1
    || (replace (S (length t)) with (length (t ++ [62%N]) + 0)%nat
          by (rewrite length_app; simpl; lia)).
  replace (t ++ 62%N :: s) with ((t ++ [62%N]) ++ s)
    by (now rewrite <- app_assoc).
  apply stripTags_skip.
Qed.

(** C10 as stated fails for the doubly-escaped ampersand: the result of
    the first pass is not scanned again, so one level of escaping
    remains. *)
Lemma unescapeHtml_double_amp_counterexample :
  unescapeHtml (lit "&amp;amp;") = lit "&amp;"
  /\ unescapeHtml (lit "&amp;amp;") <> lit "&".
Proof. split; [reflexivity|discriminate]. Qed.

(** ** Time parser *)

Lemma forallb_rev {A} (f : A -> bool) (l : list A) :
  forallb f (rev l) = forallb f l.
Proof.
  induction l as [|x l IH]; [reflexivity|].
  simpl. rewrite forallb_app, IH. simpl. rewrite andb_true_r. apply andb_comm.
Qed.

Lemma trimStart_blank (ws x : jsstring) :
  forallb isWhiteSpace ws = true -> trimStart (ws ++ x) = trimStart x.
Proof.
  induction ws as [|c ws IH]; simpl; [reflexivity|].
  intros H. apply andb_true_iff in H as [Hc Hws]. now rewrite Hc, IH.
Qed.

Lemma trimStart_noBlank (x : jsstring) :
  forallb (fun c => negb (isWhiteSpace c)) x = true ->
  forall y, trimStart (x ++ y) = match x with [] => trimStart y | _ => x ++ y end.
Proof.
  destruct x as [|c x]; [reflexivity|]. simpl.
  intros H y. apply andb_true_iff in H as [Hc _].
  apply negb_true_iff in Hc. now rewrite Hc.
Qed.

(** Trimming removes the blanks around a core that holds none. *)
Lemma trim_core (ws1 x ws2 : jsstring) :
  forallb isWhiteSpace ws1 = true ->
  forallb isWhiteSpace ws2 = true ->
  forallb (fun c => negb (isWhiteSpace c)) x = true ->
  trim (ws1 ++ x ++ ws2) = x.
Proof.
  intros H1 H2 Hx. unfold trim, trimEnd.
  rewrite (trimStart_blank _ _ H1), (trimStart_noBlank _ Hx).
  destruct x as [|c x].
  - rewrite <- (app_nil_r ws2), (trimStart_blank _ _ H2). reflexivity.
  - rewrite rev_app_distr, trimStart_blank by now rewrite forallb_rev.
    rewrite <- (app_nil_r (rev (c :: x))).
    rewrite trimStart_noBlank by now rewrite forallb_rev.
    destruct (rev (c :: x)) eqn:E.
    + apply (f_equal (@length _)) in E. rewrite length_rev in E. discriminate.
    + rewrite <- E, app_nil_r. apply rev_involutive.
Qed.

Lemma split_app (sep : char16) (a r : jsstring) :
  forallb (notUnit sep) a = true ->
  split sep (a ++ sep :: r) = a :: split sep r.
Proof.
  intros Ha. induction a as [|c a IH]; simpl.
  - now rewrite N.eqb_refl.
  - simpl in Ha. apply andb_true_iff in Ha as [Hc Ha].
    unfold notUnit in Hc. apply negb_true_iff in Hc.
    now rewrite Hc, (IH Ha).
Qed.

Lemma split_single (sep : char16) (a : jsstring) :
  forallb (notUnit sep) a = true -> split sep a = [a].
Proof.
  intros Ha. induction a as [|c a IH]; simpl; [reflexivity|].
  simpl in Ha. apply andb_true_iff in Ha as [Hc Ha].
  unfold notUnit in Hc. apply negb_true_iff in Hc.
  now rewrite Hc, (IH Ha).
Qed.

Lemma isDigit_range (c : char16) :
  isDigit c = true <-> (48 <= c <= 57)%N.
Proof. unfold isDigit. rewrite andb_true_iff, !N.leb_le. tauto. Qed.

Lemma isDigit_enum (c : char16) :
  isDigit c = true ->
  (c = 48 \/ c = 49 \/ c = 50 \/ c = 51 \/ c = 52 \/ c = 53
   \/ c = 54 \/ c = 55 \/ c = 56 \/ c = 57)%N.
Proof. intros H. apply isDigit_range in H. lia. Qed.

Ltac each_digit H :=
  apply isDigit_enum in H;
  repeat (destruct H as [->|H]); try subst.

Lemma isDigit_cases (c : char16) :
  isDigit c = true ->
  isWhiteSpace c = false /\ notUnit 58%N c = true
  /\ (c =? 45)%N = false /\ (c =? 43)%N = false.
Proof. intros H. each_digit H; repeat split. Qed.

Lemma digits_noBlank_noColon (ds : jsstring) :
  forallb isDigit ds = true ->
  forallb (fun c => negb (isWhiteSpace c)) ds = true
  /\ forallb (notUnit 58%N) ds = true.
Proof.
  induction ds as [|c ds IH]; simpl; [auto|].
  intros H. apply andb_true_iff in H as [Hc Hds].
  destruct (isDigit_cases c Hc) as (Hw & Hn & _).
  destruct (IH Hds) as [I1 I2]. now rewrite Hw, Hn, I1, I2.
Qed.

(** [parseInt] of a non-empty string of digits is its decimal value. *)
Lemma parseInt10_digits (ds : jsstring) :
  ds <> [] -> forallb isDigit ds = true -> parseInt10 ds = Some (decValue ds).
Proof.
  intros Hne H. destruct ds as [|c ds]; [congruence|].
  simpl in H. apply andb_true_iff in H as [Hc _].
  unfold parseInt10, decValue. each_digit Hc; reflexivity.
Qed.

Lemma decValue_nonneg_acc (ds : jsstring) (acc : Z) :
  0 <= acc -> 0 <= digitsPrefix acc ds.
Proof.
  revert acc. induction ds as [|c ds IH]; intros acc Hacc; simpl; [assumption|].
  destruct (isDigit c) eqn:E; [|assumption].
  apply IH. apply isDigit_range in E. unfold digitVal. lia.
Qed.

Lemma decValue_nonneg (ds : jsstring) : 0 <= decValue ds.
Proof. apply decValue_nonneg_acc. lia. Qed.

Lemma parseTimeString_digits2 (ws1 ws2 ms ss : jsstring) :
  forallb isWhiteSpace ws1 = true -> forallb isWhiteSpace ws2 = true ->
  ms <> [] -> ss <> [] ->
  forallb isDigit ms = true -> forallb isDigit ss = true ->
  parseTimeString (ws1 ++ (ms ++ 58%N :: ss) ++ ws2)
  = if decValue ss <=? 59 then Ok (decValue ms * 60 + decValue ss)
    else Err (InvalidTimeFormat FormMMSS).
Proof.
  intros H1 H2 Hm Hs Dm Ds.
  destruct (digits_noBlank_noColon _ Dm) as [Bm Cm].
  destruct (digits_noBlank_noColon _ Ds) as [Bs Cs].
  unfold parseTimeString. rewrite trim_core; try assumption.
  2:{ rewrite forallb_app. simpl. now rewrite Bm, Bs. }
  destruct (ms ++ 58%N :: ss) eqn:E; [now destruct ms|]. rewrite <- E.
  rewrite (split_app _ _ _ Cm), (split_single _ _ Cs).
  rewrite (parseInt10_digits _ Hm Dm), (parseInt10_digits _ Hs Ds).
  pose proof (decValue_nonneg ms). pose proof (decValue_nonneg ss).
  destruct (Z.ltb_spec (decValue ms) 0); [lia|].
  destruct (Z.ltb_spec (decValue ss) 0); [lia|].
  rewrite Z.gtb_ltb. simpl.
  destruct (Z.ltb_spec 59 (decValue ss)), (Z.leb_spec (decValue ss) 59);
    try lia; reflexivity.
Qed.

Lemma parseTimeString_digits3 (ws1 ws2 hs ms ss : jsstring) :
  forallb isWhiteSpace ws1 = true -> forallb isWhiteSpace ws2 = true ->
  hs <> [] -> ms <> [] -> ss <> [] ->
  forallb isDigit hs = true -> forallb isDigit ms = true ->
  forallb isDigit ss = true ->
  parseTimeString (ws1 ++ (hs ++ 58%N :: ms ++ 58%N :: ss) ++ ws2)
  = if (decValue ms <=? 59) && (decValue ss <=? 59)
    then Ok (decValue hs * 3600 + decValue ms * 60 + decValue ss)
    else Err (InvalidTimeFormat FormHHMMSS).
Proof.
  intros H1 H2 Hh Hm Hs Dh Dm Ds.
  destruct (digits_noBlank_noColon _ Dh) as [Bh Ch].
  destruct (digits_noBlank_noColon _ Dm) as [Bm Cm].
  destruct (digits_noBlank_noColon _ Ds) as [Bs Cs].
  unfold parseTimeString. rewrite trim_core; try assumption.
  2:{ rewrite forallb_app. simpl. rewrite forallb_app. simpl.
      now rewrite Bh, Bm, Bs. }
  destruct (hs ++ 58%N :: ms ++ 58%N :: ss) eqn:E; [now destruct hs|].
  rewrite <- E.
  rewrite (split_app _ _ _ Ch), (split_app _ _ _ Cm), (split_single _ _ Cs).
  rewrite (parseInt10_digits _ Hh Dh), (parseInt10_digits _ Hm Dm),
    (parseInt10_digits _ Hs Ds).
  pose proof (decValue_nonneg hs). pose proof (decValue_nonneg ms).
  pose proof (decValue_nonneg ss).
  destruct (Z.ltb_spec (decValue hs) 0); [lia|].
  destruct (Z.ltb_spec (decValue ms) 0); [lia|].
  destruct (Z.ltb_spec (decValue ss) 0); [lia|].
  rewrite !Z.gtb_ltb. simpl.
  destruct (Z.ltb_spec 59 (decValue ms)), (Z.leb_spec (decValue ms) 59);
    try lia; simpl; try reflexivity.
  destruct (Z.ltb_spec 59 (decValue ss)), (Z.leb_spec (decValue ss) 59);
    try lia; reflexivity.
Qed.

(** What a successful parse looks like, in terms of the components. *)
Lemma parseTimeString_Ok_inv (s : jsstring) (v : Z) :
  parseTimeString s = Ok v ->
  (exists a b m sec,
      split 58%N (trim s) = [a; b]
      /\ parseInt10 a = Some m /\ parseInt10 b = Some sec
      /\ 0 <= m /\ 0 <= sec <= 59 /\ v = m * 60 + sec)
  \/ (exists a b c h m sec,
      split 58%N (trim s) = [a; b; c]
      /\ parseInt10 a = Some h /\ parseInt10 b = Some m
      /\ parseInt10 c = Some sec
      /\ 0 <= h /\ 0 <= m <= 59 /\ 0 <= sec <= 59
      /\ v = h * 3600 + m * 60 + sec).
Proof.
  unfold parseTimeString. destruct (trim s) as [|c0 t]; [discriminate|].
  destruct (split 58%N (c0 :: t)) as [|a [|b [|c [|d l]]]]; try discriminate.
  - destruct (parseInt10 a) as [m|] eqn:Ea, (parseInt10 b) as [sec|] eqn:Eb;
      try discriminate.
    destruct (Z.ltb_spec m 0), (Z.ltb_spec sec 0); simpl; try discriminate.
    rewrite Z.gtb_ltb. destruct (Z.ltb_spec 59 sec); try discriminate.
    intros [= <-]. left. exists a, b, m, sec. repeat split; auto; lia.
  - destruct (parseInt10 a) as [h|] eqn:Ea, (parseInt10 b) as [m|] eqn:Eb,
      (parseInt10 c) as [sec|] eqn:Ec; try discriminate.
    destruct (Z.ltb_spec h 0), (Z.ltb_spec m 0); simpl; try discriminate.
    rewrite !Z.gtb_ltb.
    destruct (Z.ltb_spec 59 m), (Z.ltb_spec sec 0), (Z.ltb_spec 59 sec);
      simpl; try discriminate.
    intros [= <-]. right. exists a, b, c, h, m, sec.
    repeat split; auto; lia.
Qed.

Lemma parseTimeString_Err_inv (s : jsstring) (e : error) :
  parseTimeString s = Err e -> exists f, e = InvalidTimeFormat f.
Proof.
  unfold parseTimeString. destruct (trim s) as [|c0 t].
  { intros [= <-]. now eexists. }
  destruct (split 58%N (c0 :: t)) as [|a [|b [|c [|d l]]]];
    try (intros [= <-]; now eexists).
  - destruct (parseInt10 a) as [m|], (parseInt10 b) as [sec|];
      try (intros [= <-]; now eexists).
    destruct (_ || _); [intros [= <-]; now eexists|discriminate].
  - destruct (parseInt10 a) as [h|], (parseInt10 b) as [m|],
      (parseInt10 c) as [sec|]; try (intros [= <-]; now eexists).
    destruct (_ || _); [intros [= <-]; now eexists|discriminate].
Qed.

Lemma parseTimeString_Ok_intro2 (s a b : jsstring) (m sec : Z) :
  split 58%N (trim s) = [a; b] ->
  parseInt10 a = Some m -> parseInt10 b = Some sec ->
  0 <= m -> 0 <= sec <= 59 ->
  parseTimeString s = Ok (m * 60 + sec).
Proof.
  intros Hp Ha Hb Hm Hs. unfold parseTimeString.
  destruct (trim s) as [|c0 t]; [discriminate|].
  rewrite Hp, Ha, Hb, Z.gtb_ltb.
  destruct (Z.ltb_spec m 0), (Z.ltb_spec sec 0), (Z.ltb_spec 59 sec);
    try lia; reflexivity.
Qed.

Lemma parseTimeString_Ok_intro3 (s a b c : jsstring) (h m sec : Z) :
  split 58%N (trim s) = [a; b; c] ->
  parseInt10 a = Some h -> parseInt10 b = Some m -> parseInt10 c = Some sec ->
  0 <= h -> 0 <= m <= 59 -> 0 <= sec <= 59 ->
  parseTimeString s = Ok (h * 3600 + m * 60 + sec).
Proof.
  intros Hp Ha Hb Hc Hh Hm Hs. unfold parseTimeString.
  destruct (trim s) as [|c0 t]; [discriminate|].
  rewrite Hp, Ha, Hb, Hc, !Z.gtb_ltb.
  destruct (Z.ltb_spec h 0), (Z.ltb_spec m 0), (Z.ltb_spec 59 m),
    (Z.ltb_spec sec 0), (Z.ltb_spec 59 sec); try lia; reflexivity.
Qed.

Ltac clash :=
  match goal with
  | H1 : ?x = Some _, H2 : ?x = None |- _ => congruence
  | H1 : ?x = Some _, H2 : ?x = Some _ |- _ =>
      rewrite H1 in H2; injection H2; intros; lia
  end.

(** Each of the listed defects makes the parse fail. *)
Lemma parseTimeString_failure (s : jsstring) :
  let parts := split 58%N (trim s) in
  (length parts <> 2%nat /\ length parts <> 3%nat)
  \/ (exists p, In p parts /\ parseInt10 p = None)
  \/ (exists p z, In p parts /\ parseInt10 p = Some z /\ z < 0)
  \/ (exists z, parseInt10 (last parts []) = Some z /\ 59 < z)
  \/ (exists a b c z, parts = [a; b; c] /\ parseInt10 b = Some z /\ 59 < z)
  -> exists f, parseTimeString s = Err (InvalidTimeFormat f).
Proof.
  intros parts Hbad.
  destruct (parseTimeString s) as [v|e] eqn:E.
  2:{ destruct (parseTimeString_Err_inv _ _ E) as [f ->]. now exists f. }
  exfalso. apply parseTimeString_Ok_inv in E. fold parts in E.
  destruct E as [(a & b & m & sec & Hp & Ha & Hb & Hm & Hs & _)
                |(a & b & c & h & m & sec & Hp & Ha & Hb & Hc & Hh & Hm & Hs & _)];
    rewrite Hp in Hbad; simpl in Hbad;
    destruct Hbad as [[H2 H3]|[(p & Hin & Hn)|[(p & z & Hin & Hz & Hneg)
                      |[(z & Hz & Hbig)|(a' & b' & c' & z & He & Hz & Hbig)]]]].
  - congruence.
  - destruct Hin as [<-|[<-|[]]]; clash.
  - destruct Hin as [<-|[<-|[]]]; clash.
  - clash.
  - discriminate He.
  - congruence.
  - destruct Hin as [<-|[<-|[<-|[]]]]; clash.
  - destruct Hin as [<-|[<-|[<-|[]]]]; clash.
  - clash.
  - injection He as <- <- <-. clash.
Qed.

(** C6, amended: after trimming, on two components that are non-empty
    runs of digits [parseTimeString] succeeds exactly when the seconds
    are at most 59, giving minutes*60+seconds (minutes have no upper
    bound in this form), and on three such components exactly when
    minutes and seconds are at most 59, giving
    hours*3600+minutes*60+seconds; the value is the one of the runtime
    when it is below 2^53.  Every failure is an invalid-time error, and
    it occurs for any other component count, a component without leading
    integer, a component whose leading integer is negative, seconds
    above 59, or minutes above 59 in the three-component form. *)
Theorem parseTimeString_spec :
  (forall s e, parseTimeString s = Err e -> exists f, e = InvalidTimeFormat f)
  /\ (forall s,
     let parts := split 58%N (trim s) in
     (length parts <> 2%nat /\ length parts <> 3%nat)
     \/ (exists p, In p parts /\ parseInt10 p = None)
     \/ (exists p z, In p parts /\ parseInt10 p = Some z /\ z < 0)
     \/ (exists z, parseInt10 (last parts []) = Some z /\ 59 < z)
     \/ (exists a b c z, parts = [a; b; c] /\ parseInt10 b = Some z /\ 59 < z)
     -> exists f, parseTimeString s = Err (InvalidTimeFormat f))
  /\ (forall ws1 ws2 ms ss,
     forallb isWhiteSpace ws1 = true -> forallb isWhiteSpace ws2 = true ->
     ms <> [] -> ss <> [] ->
     forallb isDigit ms = true -> forallb isDigit ss = true ->
     (decValue ss <= 59 -> decValue ms * 60 + decValue ss < 2 ^ 53) ->
     parseTimeString (ws1 ++ (ms ++ 58%N :: ss) ++ ws2)
     = if decValue ss <=? 59 then Ok (decValue ms * 60 + decValue ss)
       else Err (InvalidTimeFormat FormMMSS))
  /\ (forall ws1 ws2 hs ms ss,
     forallb isWhiteSpace ws1 = true -> forallb isWhiteSpace ws2 = true ->
     hs <> [] -> ms <> [] -> ss <> [] ->
     forallb isDigit hs = true -> forallb isDigit ms = true ->
     forallb isDigit ss = true ->
     (decValue ms <= 59 -> decValue ss <= 59 ->
      decValue hs * 3600 + decValue ms * 60 + decValue ss < 2 ^ 53) ->
     parseTimeString (ws1 ++ (hs ++ 58%N :: ms ++ 58%N :: ss) ++ ws2)
     = if (decValue ms <=? 59) && (decValue ss <=? 59)
       then Ok (decValue hs * 3600 + decValue ms * 60 + decValue ss)
       else Err (InvalidTimeFormat FormHHMMSS)).
Proof.
  split; [|split; [|split]].
  - apply parseTimeString_Err_inv.
  - apply parseTimeString_failure.
  - intros ws1 ws2 ms ss H1 H2 H3 H4 H5 H6 _.
    now apply parseTimeString_digits2.
  - intros ws1 ws2 hs ms ss H1 H2 H3 H4 H5 H6 H7 H8 _.
    now apply parseTimeString_digits3.
Qed.

Lemma parseTimeString_spec_witness :
  parseTimeString (lit " 52:12 ") = Ok 3132
  /\ parseTimeString (lit "1:25:21") = Ok 5121
  /\ exists f, parseTimeString (lit "1:60") = Err (InvalidTimeFormat f).
Proof.
  destruct parseTimeString_spec as (_ & Hfail & H2 & H3).
  split; [|split].
  - exact (H2 (lit " ") (lit " ") (lit "52") (lit "12") eq_refl eq_refl
              ltac:(discriminate) ltac:(discriminate) eq_refl eq_refl
              ltac:(intros _; reflexivity)).
  - exact (H3 [] [] (lit "1") (lit "25") (lit "21") eq_refl eq_refl
              ltac:(discriminate) ltac:(discriminate) ltac:(discriminate)
              eq_refl eq_refl eq_refl ltac:(intros _ _; reflexivity)).
  - apply (Hfail (lit "1:60")). right. right. right. left.
    exists 60. split; [reflexivity|lia].
Defined.

(** C6 as stated fails: in the two-component form minutes above 59 are
    accepted, as the message of that form announces (seconds 0-59). *)
Lemma parseTimeString_lenient_counterexample :
  split 58%N (trim (lit "90:30")) = [lit "90"; lit "30"]
  /\ parseInt10 (lit "90") = Some 90
  /\ parseTimeString (lit "90:30") = Ok 5430.
Proof. repeat split. Qed.

(** A defect next to it: the components go through the integer reader of
    the runtime, which reads a leading integer and ignores what follows
    it, so that the test for a non-numeric component lets pass a
    component with trailing letters or with blanks around it. *)
Remark parseTimeString_leading_integer_only :
  parseTimeString (lit "1x:30") = Ok 90
  /\ parseTimeString (lit "1 : 30") = Ok 90.
Proof. split; reflexivity. Qed.

(** ** Exclude ranges *)

Lemma firstn_length_app {A} (a b : list A) : firstn (length a) (a ++ b) = a.
Proof. induction a; simpl; congruence. Qed.

Lemma skipn_past_sep {A} (a b : list A) (x : A) :
  skipn (length a + 1) (a ++ x :: b) = b.
Proof. induction a; simpl; auto. Qed.

(** The range parser at a string whose first '-' has a non-empty text on
    both sides. *)
Lemma parseRangeString_split (a b : jsstring) :
  forallb (notUnit 45%N) a = true -> a <> [] -> b <> [] ->
  parseRangeString (a ++ 45%N :: b)
  = (lo <- parseTimeString a ;;
     hi <- parseTimeString b ;;
     if lo >? hi then Err (InvalidRangeOrder ExcludeOrder) else Ok (lo, hi)).
Proof.
  intros Ha Hna Hnb. unfold parseRangeString.
  rewrite (indexOf_app _ _ _ Ha).
  destruct a as [|c a]; [congruence|]. destruct b as [|d b]; [congruence|].
  replace (length (c :: a) =? 0)%nat with false by reflexivity.
  replace (length (c :: a) =? length ((c :: a) ++ 45%N :: d :: b) - 1)%nat
    with false
    by (symmetry; apply Nat.eqb_neq; rewrite length_app; simpl; lia).
  cbn [orb]. now rewrite firstn_length_app, skipn_past_sep.
Qed.

(** C7, amended: [parseRangeString] looks at the first '-' of its input;
    it reports an invalid range format when there is none or when that
    first '-' is at position 0 or at the final position; otherwise it
    parses the text before and after it with [parseTimeString], whose
    failures it passes on, reports an invalid range order when the start
    exceeds the end, and else returns the pair, with start <= end. *)
Theorem parseRangeString_spec :
  (forall s, forallb (notUnit 45%N) s = true ->
     parseRangeString s = Err InvalidRangeFormat)
  /\ (forall s, parseRangeString (45%N :: s) = Err InvalidRangeFormat)
  /\ (forall a, forallb (notUnit 45%N) a = true ->
     parseRangeString (a ++ [45%N]) = Err InvalidRangeFormat)
  /\ (forall a b, forallb (notUnit 45%N) a = true -> a <> [] -> b <> [] ->
     parseRangeString (a ++ 45%N :: b)
     = (lo <- parseTimeString a ;;
        hi <- parseTimeString b ;;
        if lo >? hi then Err (InvalidRangeOrder ExcludeOrder)
        else Ok (lo, hi)))
  /\ (forall s lo hi, parseRangeString s = Ok (lo, hi) -> lo <= hi).
Proof.
  split; [|split; [|split; [|split]]].
  - intros s Hs. unfold parseRangeString.
    apply indexOf_none in Hs. now rewrite Hs.
  - intros s. reflexivity.
  - intros a Ha. unfold parseRangeString. rewrite (indexOf_app _ _ _ Ha).
    replace (length a =? length (a ++ [45%N]) - 1)%nat with true
      by (symmetry; apply Nat.eqb_eq; rewrite length_app; simpl; lia).
    now rewrite orb_true_r.
  - apply parseRangeString_split.
  - intros s lo hi. unfold parseRangeString.
    destruct (indexOf 45%N s) as [idx|]; [|discriminate].
    destruct (_ || _); [discriminate|].
    destruct (parseTimeString (firstn idx s)) as [x|]; [|discriminate].
    destruct (parseTimeString (skipn (idx + 1) s)) as [y|]; [|discriminate].
    simpl. rewrite Z.gtb_ltb. destruct (Z.ltb_spec y x); [discriminate|].
    intros [= <- <-]. assumption.
Qed.

Lemma parseRangeString_spec_witness :
  parseRangeString (lit "1:25:21-1:27:01") = Ok (5121, 5221)
  /\ parseRangeString (lit "2:00-1:00") = Err (InvalidRangeOrder ExcludeOrder)
  /\ parseRangeString (lit "1:00") = Err InvalidRangeFormat
  /\ parseRangeString (lit "1:00-") = Err InvalidRangeFormat.
Proof.
  destruct parseRangeString_spec as (Hnone & _ & Hlast & Hsplit & _).
  split; [|split; [|split]].
  - exact (Hsplit (lit "1:25:21") (lit "1:27:01") eq_refl
             ltac:(discriminate) ltac:(discriminate)).
  - exact (Hsplit (lit "2:00") (lit "1:00") eq_refl
             ltac:(discriminate) ltac:(discriminate)).
  - exact (Hnone (lit "1:00") eq_refl).
  - exact (Hlast (lit "1:00") eq_refl).
Defined.

(** C7 as stated fails on an input that starts with '-': the first '-'
    that is neither at position 0 nor at the end is the one at position
    5, both sides of it parse, and the start does not exceed the end, yet
    the input is rejected as an invalid range format. *)
Lemma parseRangeString_leading_dash_counterexample :
  interiorDash 0 (lit "-0:30-1:00") = Some 5%nat
  /\ parseTimeString (firstn 5 (lit "-0:30-1:00")) = Ok 30
  /\ parseTimeString (skipn 6 (lit "-0:30-1:00")) = Ok 60
  /\ parseExcludeRange_spec (lit "-0:30-1:00") = Ok (30, 60)
  /\ parseRangeString (lit "-0:30-1:00") = Err InvalidRangeFormat
  /\ parseExcludeRange_spec (lit "-1:00-2:00")
     = Err (InvalidTimeFormat FormMMSS)
  /\ parseRangeString (lit "-1:00-2:00") = Err InvalidRangeFormat.
Proof. repeat split. Qed.

(** ** Timestamp formatter *)

Lemma Qtrunc_nonneg (s d : Z) :
  0 <= s -> 0 < d -> Qtrunc (inject_Z s / inject_Z d) = s / d.
Proof.
  intros Hs Hd. unfold Qtrunc.
  replace (Qle_bool 0 (inject_Z s / inject_Z d)) with true.
  - symmetry. apply Zdiv_Qdiv.
  - symmetry. apply Qle_bool_iff.
    destruct d as [|p|p]; try lia.
    unfold Qle, Qdiv, Qmult, Qinv, inject_Z. simpl. lia.
Qed.

(** On a non-negative integer the remainder is the integer remainder. *)
Lemma num_rem_int (s d : Z) :
  0 <= s -> 0 < d ->
  exists r, num_rem (ofZ s) d = Fin r /\ (r == inject_Z (s mod d))%Q.
Proof.
  intros Hs Hd. eexists. split; [reflexivity|].
  rewrite (Qtrunc_nonneg s d Hs Hd).
  rewrite Z.mod_eq by lia.
  unfold Z.sub, Qminus.
  rewrite inject_Z_plus, inject_Z_opp, inject_Z_mult. reflexivity.
Qed.

Lemma num_gt_int (a : Z) : num_gt (ofZ a) (ofZ 0) = (0 <? a).
Proof.
  unfold num_gt, num_lt, ofZ.
  destruct (Z.ltb_spec 0 a) as [H|H].
  - apply negb_true_iff. destruct (Qle_bool (inject_Z a) (inject_Z 0)) eqn:E;
      [|reflexivity].
    apply Qle_bool_iff in E. rewrite <- Zle_Qle in E. lia.
  - apply negb_false_iff. apply Qle_bool_iff. now rewrite <- Zle_Qle.
Qed.

(** The formatter on a whole, non-negative number of seconds. *)
Lemma formatTimestamp_int (s : Z) :
  0 <= s ->
  formatTimestamp (ofZ s)
  = if 0 <? s / 3600 then
      padStart2 (String_int (s / 3600)) ++ lit ":"
        ++ padStart2 (String_int ((s mod 3600) / 60)) ++ lit ":"
        ++ padStart2 (String_int (s mod 60))
    else
      padStart2 (String_int ((s mod 3600) / 60)) ++ lit ":"
        ++ padStart2 (String_int (s mod 60)).
Proof.
  intros Hs. unfold formatTimestamp.
  destruct (num_rem_int s 3600 Hs ltac:(lia)) as (r1 & -> & E1).
  destruct (num_rem_int s 60 Hs ltac:(lia)) as (r2 & -> & E2).
  change (Math_floor (num_div (ofZ s) 3600))
    with (ofZ (Qfloor (inject_Z s / inject_Z 3600))).
  rewrite <- Zdiv_Qdiv, num_gt_int.
  cbn [num_div Math_floor]. unfold ofZ, String_num.
  rewrite !Qfloor_Z.
  assert (F1 : Qfloor (r1 / inject_Z 60) = (s mod 3600) / 60)
    by (rewrite E1; symmetry; apply Zdiv_Qdiv).
  assert (F2 : Qfloor r2 = s mod 60) by (rewrite E2; apply Qfloor_Z).
  now rewrite F1, F2.
Qed.

Lemma below_100 (P : Z -> bool) :
  forallb (fun k => P (Z.of_nat k)) (seq 0 100) = true ->
  forall n, 0 <= n < 100 -> P n = true.
Proof.
  intros H n Hn. rewrite forallb_forall in H.
  specialize (H (Z.to_nat n)). rewrite Z2Nat.id in H by lia.
  apply H. apply in_seq. lia.
Qed.

(** Below 100 the padded decimal print is the two-digit rendering, which
    consists of digits and reads back as the number. *)
Lemma twoDigits_facts (n : Z) :
  0 <= n < 100 ->
  padStart2 (String_int n) = twoDigits n
  /\ forallb isDigit (twoDigits n) = true
  /\ decValue (twoDigits n) = n.
Proof.
  intros Hn.
  pose proof (below_100
    (fun n => str_eqb (padStart2 (String_int n)) (twoDigits n)
              && forallb isDigit (twoDigits n)
              && (decValue (twoDigits n) =? n))
    ltac:(vm_compute; reflexivity) n Hn) as H.
  cbv beta in H. rewrite !andb_true_iff in H. destruct H as [[H1 H2] H3].
  apply str_eqb_eq in H1. apply Z.eqb_eq in H3. auto.
Qed.

(** C9: for a whole number of seconds below 24 hours, [formatTimestamp]
    prints MM:SS when the hour component is 0 and HH:MM:SS otherwise,
    every component with two digits, and [parseTimeString] reads the
    result back as the same number. *)
Theorem formatTimestamp_roundtrip (s : Z) :
  0 <= s < 86400 ->
  let h := s / 3600 in
  let m := (s mod 3600) / 60 in
  let sec := s mod 60 in
  formatTimestamp (ofZ s)
  = (if h =? 0 then twoDigits m ++ lit ":" ++ twoDigits sec
     else twoDigits h ++ lit ":" ++ twoDigits m ++ lit ":" ++ twoDigits sec)
  /\ parseTimeString (formatTimestamp (ofZ s)) = Ok s.
Proof.
  intros Hs h m sec.
  assert (Hh : 0 <= h < 100) by (subst h; Z.div_mod_to_equations; lia).
  assert (Hm : 0 <= m < 60) by (subst m; Z.div_mod_to_equations; lia).
  assert (Hsec : 0 <= sec < 60) by (subst sec; Z.div_mod_to_equations; lia).
  destruct (twoDigits_facts h Hh) as (Ph & Dh & Vh).
  destruct (twoDigits_facts m ltac:(lia)) as (Pm & Dm & Vm).
  destruct (twoDigits_facts sec ltac:(lia)) as (Ps & Ds & Vs).
  assert (Hfmt : formatTimestamp (ofZ s)
                 = if h =? 0 then twoDigits m ++ lit ":" ++ twoDigits sec
                   else twoDigits h ++ lit ":" ++ twoDigits m ++ lit ":"
                          ++ twoDigits sec).
  { rewrite formatTimestamp_int by lia. fold h m sec.
    rewrite Ph, Pm, Ps.
    destruct (Z.ltb_spec 0 h), (Z.eqb_spec h 0); try lia; reflexivity. }
  split; [exact Hfmt|]. rewrite Hfmt.
  destruct (Z.eqb_spec h 0) as [Hz|Hnz].
  - replace (twoDigits m ++ lit ":" ++ twoDigits sec)
      with ([] ++ (twoDigits m ++ 58%N :: twoDigits sec) ++ [])
      by (now rewrite app_nil_r).
    rewrite parseTimeString_digits2
      by (reflexivity || discriminate || assumption).
    rewrite Vm, Vs. destruct (Z.leb_spec sec 59); [|lia]. f_equal.
    subst h m sec. Z.div_mod_to_equations. lia.
  - replace (twoDigits h ++ lit ":" ++ twoDigits m ++ lit ":" ++ twoDigits sec)
      with ([] ++ (twoDigits h ++ 58%N :: twoDigits m ++ 58%N :: twoDigits sec)
               ++ [])
      by (now rewrite app_nil_r).
    rewrite parseTimeString_digits3
      by (reflexivity || discriminate || assumption).
    rewrite Vh, Vm, Vs.
    destruct (Z.leb_spec m 59), (Z.leb_spec sec 59); try lia. simpl. f_equal.
    subst h m sec. Z.div_mod_to_equations. lia.
Qed.

Lemma formatTimestamp_roundtrip_witness :
  formatTimestamp (ofZ 3661) = lit "01:01:01"
  /\ parseTimeString (lit "01:01:01") = Ok 3661.
Proof.
  destruct (formatTimestamp_roundtrip 3661 ltac:(lia)) as [H1 H2].
  split; [exact H1|]. rewrite H1 in H2. exact H2.
Defined.

(* ================================================================== *)
(** * Further properties *)

(** ** Track selection *)

Lemma findByLanguages_Some manual generated langs t :
  findByLanguages manual generated langs = Some t ->
  exists pre L post,
    langs = pre ++ L :: post
    /\ (forall l, In l pre ->
          find (hasLanguage l) manual = None
          /\ find (hasLanguage l) generated = None)
    /\ (find (hasLanguage L) manual = Some t
        \/ (find (hasLanguage L) manual = None
            /\ find (hasLanguage L) generated = Some t)).
Proof.
  induction langs as [|l langs IH]; simpl; [discriminate|].
  destruct (find (hasLanguage l) manual) as [m|] eqn:Em.
  - intros [= ->]. exists [], l, langs.
    split; [reflexivity|]. split; [intros ? []|now left].
  - destruct (find (hasLanguage l) generated) as [g|] eqn:Eg.
    + intros [= ->]. exists [], l, langs.
      split; [reflexivity|]. split; [intros ? []|now right].
    + intros H. destruct (IH H) as (pre & L & post & -> & Hpre & Hsel).
      exists (l :: pre), L, post.
      split; [reflexivity|]. split; [|exact Hsel].
      intros l0 [<-|Hin]; [now split|now apply Hpre].
Qed.

Lemma findByLanguages_None manual generated langs :
  findByLanguages manual generated langs = None ->
  forall l, In l langs ->
    find (hasLanguage l) manual = None
    /\ find (hasLanguage l) generated = None.
Proof.
  induction langs as [|l0 langs IH]; simpl; [intros _ ? []|].
  destruct (find (hasLanguage l0) manual) eqn:Em; [discriminate|].
  destruct (find (hasLanguage l0) generated) eqn:Eg; [discriminate|].
  intros H l [<-|Hin]; auto.
Qed.

(** No track of either kind carries the language. *)
Lemma no_track_with_language tracks l :
  find (hasLanguage l) (filter (fun t => negb (isAsr t)) tracks) = None ->
  find (hasLanguage l) (filter isAsr tracks) = None ->
  forall u, In u tracks -> languageCode u <> l.
Proof.
  intros Hm Hg u Hu E.
  assert (Hl : hasLanguage l u = true) by (now apply str_eqb_eq).
  destruct (isAsr u) eqn:Ea.
  - assert (Hin : In u (filter isAsr tracks)) by (apply filter_In; auto).
    now rewrite (find_none _ _ Hg u Hin) in Hl.
  - assert (Hin : In u (filter (fun t => negb (isAsr t)) tracks))
      by (apply filter_In; now rewrite Ea).
    now rewrite (find_none _ _ Hm u Hin) in Hl.
Qed.

(** [find] on a filtered list returns the first element, in the order of
    the unfiltered list, that passes both tests. *)
Lemma find_filter_first {A} (f g : A -> bool) (l : list A) (t : A) :
  find f (filter g l) = Some t ->
  exists a b, l = a ++ t :: b
    /\ g t = true /\ f t = true
    /\ forall u, In u a -> g u && f u = false.
Proof.
  induction l as [|x l IH]; simpl; [discriminate|].
  destruct (g x) eqn:Eg.
  - simpl. destruct (f x) eqn:Ef.
    + intros [= ->]. exists [], l.
      split; [reflexivity|]. split; [assumption|].
      split; [assumption|intros ? []].
    + intros H. destruct (IH H) as (a & b & -> & Hg & Hf & Ha).
      exists (x :: a), b.
      split; [reflexivity|]. split; [assumption|]. split; [assumption|].
      intros u [<-|Hu]; [now rewrite Eg, Ef|now apply Ha].
  - intros H. destruct (IH H) as (a & b & -> & Hg & Hf & Ha).
    exists (x :: a), b.
    split; [reflexivity|]. split; [assumption|]. split; [assumption|].
    intros u [<-|Hu]; [now rewrite Eg|now apply Ha].
Qed.

(** X1: the selection never fails on a non-empty list and never invents a
    track. *)
Theorem findBestTrack_member tracks languages :
  (findBestTrack tracks languages = None <-> tracks = [])
  /\ (forall t, findBestTrack tracks languages = Some t -> In t tracks).
Proof.
  unfold findBestTrack. split.
  - split.
    + destruct (findByLanguages _ _ _); [discriminate|].
      destruct tracks; [reflexivity|discriminate].
    + intros ->. simpl.
      now induction (orElse languages [lit "en"]).
  - intros t.
    destruct (findByLanguages _ _ _) as [u|] eqn:E.
    + intros [= ->].
      apply findByLanguages_Some in E as (pre & L & post & _ & _ & Hsel).
      destruct Hsel as [H|[_ H]]; apply find_some in H as [H _];
        apply filter_In in H; tauto.
    + destruct tracks as [|x tracks]; [discriminate|].
      intros [= ->]. now left.
Qed.

(** X2: the selected track carries the first preferred language for which
    any track exists; among the tracks of that language a manual one is
    taken if there is one, and the earliest of its kind in the list.  When
    no track carries a preferred language, the first track is taken. *)
Theorem findBestTrack_priority tracks languages t :
  findBestTrack tracks languages = Some t ->
  let langs := orElse languages [lit "en"] in
  (exists pre L post a b,
      langs = pre ++ L :: post
      /\ (forall l u, In l pre -> In u tracks -> languageCode u <> l)
      /\ languageCode t = L
      /\ (isAsr t = true ->
          forall u, In u tracks -> languageCode u = L -> isAsr u = true)
      /\ tracks = a ++ t :: b
      /\ (forall u, In u a ->
          ~ (languageCode u = L /\ isAsr u = isAsr t)))
  \/ ((forall l u, In l langs -> In u tracks -> languageCode u <> l)
      /\ hd_error tracks = Some t).
Proof.
  intros H. unfold findBestTrack in H. cbv zeta.
  destruct (findByLanguages _ _ _) as [u|] eqn:E.
  - injection H as ->. left.
    apply findByLanguages_Some in E as (pre & L & post & Hl & Hpre & Hsel).
    assert (Hnone : forall l u, In l pre -> In u tracks -> languageCode u <> l).
    { intros l u Hin. destruct (Hpre l Hin) as [Hm Hg].
      now apply no_track_with_language. }
    destruct Hsel as [Hm|[Hm Hg]].
    + apply find_filter_first in Hm as (a & b & Ht & Hk & Hlang & Ha).
      apply negb_true_iff in Hk. apply str_eqb_eq in Hlang.
      exists pre, L, post, a, b.
      split; [assumption|]. split; [assumption|]. split; [assumption|].
      split; [congruence|]. split; [assumption|].
      intros u Hu [Hul Huk]. specialize (Ha u Hu).
      rewrite Huk, Hk in Ha. simpl in Ha.
      unfold hasLanguage in Ha. apply str_eqb_eq in Hul. congruence.
    + apply find_filter_first in Hg as (a & b & Ht & Hk & Hlang & Ha).
      apply str_eqb_eq in Hlang.
      exists pre, L, post, a, b.
      split; [assumption|]. split; [assumption|]. split; [assumption|].
      split; [|split; [assumption|]].
      * intros _ u Hu Hul. destruct (isAsr u) eqn:Eu; [reflexivity|].
        exfalso.
        assert (Hin : In u (filter (fun t => negb (isAsr t)) tracks))
          by (apply filter_In; now rewrite Eu).
        pose proof (find_none _ _ Hm u Hin) as Hf.
        unfold hasLanguage in Hf. apply str_eqb_eq in Hul. congruence.
      * intros u Hu [Hul Huk]. specialize (Ha u Hu).
        rewrite Huk, Hk in Ha. simpl in Ha.
        unfold hasLanguage in Ha. apply str_eqb_eq in Hul. congruence.
  - right. split; [|exact H].
    intros l u Hin. destruct (findByLanguages_None _ _ _ E l Hin) as [Hm Hg].
    now apply no_track_with_language.
Qed.

(** ** Video identifier *)

Lemma firstn_exact_app {A} (a b : list A) (n : nat) :
  length a = n -> firstn n (a ++ b) = a.
Proof. intros <-. apply firstn_length_app. Qed.

Lemma takeId_app (id rest : jsstring) :
  length id = 11%nat -> forallb isIdChar id = true ->
  takeId (id ++ rest) = Some id.
Proof.
  intros Hl Hc. unfold takeId.
  now rewrite (firstn_exact_app _ _ _ Hl), Hl, Hc.
Qed.

Lemma takeId_Some (s v : jsstring) :
  takeId s = Some v ->
  length v = 11%nat /\ forallb isIdChar v = true /\ s = v ++ skipn 11 s.
Proof.
  unfold takeId. pose proof (firstn_skipn 11 s) as Hs.
  remember (firstn 11 s) as f eqn:Ef. clear Ef.
  destruct (length f =? 11)%nat eqn:El; [|discriminate].
  destruct (forallb isIdChar f) eqn:Ec; [|discriminate].
  intros [= <-]. apply Nat.eqb_eq in El. auto.
Qed.

(** Every alternative holds a unit outside the identifier class. *)
Lemma marker_not_id (m : jsstring) :
  In m idMarkers -> forallb isIdChar m = false /\ forallb (notUnit 47%N) m = false.
Proof.
  intros H. repeat (destruct H as [<-|H]; [split; reflexivity|]). destruct H.
Qed.

Lemma matchMarkers_Some (markers : list jsstring) (s v : jsstring) :
  matchMarkers markers s = Some v ->
  exists m, In m markers /\ startsWith m s = true
            /\ takeId (skipn (length m) s) = Some v.
Proof.
  induction markers as [|m ms IH]; simpl; [discriminate|].
  destruct (startsWith m s) eqn:Es.
  - destruct (takeId (skipn (length m) s)) as [id|] eqn:Et.
    + intros [= ->]. exists m. auto.
    + intros H. destruct (IH H) as (m' & Hin & H1 & H2). exists m'. auto.
  - intros H. destruct (IH H) as (m' & Hin & H1 & H2). exists m'. auto.
Qed.

(** A successful search found an alternative followed by the identifier
    somewhere in the input. *)
Lemma searchId_Some (s v : jsstring) :
  searchId s = Some v ->
  exists a m r, s = a ++ m ++ v ++ r /\ In m idMarkers
                /\ length v = 11%nat /\ forallb isIdChar v = true.
Proof.
  induction s as [|c s IH].
  - simpl. discriminate.
  - cbn [searchId].
    destruct (matchMarkers idMarkers (c :: s)) as [id|] eqn:Em.
    + intros [= ->]. apply matchMarkers_Some in Em as (m & Hin & Hs & Ht).
      apply startsWith_prefix in Hs as [b Hb].
      rewrite Hb, skipn_length_app in Ht.
      apply takeId_Some in Ht as (Hl & Hc & Hr).
      exists [], m, (skipn 11 b). simpl. rewrite Hb, Hr at 1. auto.
    + intros H. destruct (IH H) as (a & m & r & -> & Hrest).
      exists (c :: a), m, r. auto.
Qed.

Lemma matchMarkers_none_without (x : char16) (s : jsstring) :
  forallb (notUnit x) s = true ->
  (forall m, In m idMarkers -> forallb (notUnit x) m = false) ->
  matchMarkers idMarkers s = None.
Proof.
  intros Hs Hm.
  destruct (matchMarkers idMarkers s) as [v|] eqn:E; [|reflexivity].
  apply matchMarkers_Some in E as (m & Hin & Hst & _).
  apply startsWith_prefix in Hst as [b ->].
  rewrite forallb_app, (Hm m Hin) in Hs. discriminate.
Qed.

Lemma searchId_none_without (x : char16) (s : jsstring) :
  forallb (notUnit x) s = true ->
  (forall m, In m idMarkers -> forallb (notUnit x) m = false) ->
  searchId s = None.
Proof.
  intros Hs Hm. induction s as [|c s IH].
  - reflexivity.
  - cbn [searchId]. rewrite (matchMarkers_none_without x _ Hs Hm).
    apply IH. simpl in Hs. now apply andb_true_iff in Hs as [_ Hs].
Qed.

(** Text without the letter y cannot start an alternative. *)
Lemma searchId_skip (pre s : jsstring) :
  forallb (notUnit 121%N) pre = true -> searchId (pre ++ s) = searchId s.
Proof.
  intros Hpre. induction pre as [|c pre IH]; [reflexivity|].
  simpl in Hpre. apply andb_true_iff in Hpre as [Hc Hpre].
  change ((c :: pre) ++ s) with (c :: (pre ++ s)). cbn [searchId].
  replace (matchMarkers idMarkers (c :: pre ++ s)) with (@None (list N)).
  - now apply IH.
  - unfold notUnit in Hc. apply negb_true_iff in Hc.
    cbn -[N.eqb takeId]. rewrite (N.eqb_sym 121 c), Hc. reflexivity.
Qed.

Lemma matchMarkers_hit (m id rest : jsstring) :
  In m idMarkers -> length id = 11%nat -> forallb isIdChar id = true ->
  matchMarkers idMarkers (m ++ id ++ rest) = Some id.
Proof.
  intros Hin Hl Hc. pose proof (takeId_app id rest Hl Hc) as Ht.
  repeat (destruct Hin as [<-|Hin];
          [cbn -[takeId firstn]; cbn -[takeId firstn] in Ht;
           now rewrite Ht|]).
  destruct Hin.
Qed.

(** X3: A reference without slash is accepted exactly when it is an
    identifier: eleven units of the identifier class, returned as they
    are. *)
Theorem extractVideoId_raw (s : jsstring) :
  forallb (notUnit 47%N) s = true ->
  extractVideoId s
  = if (length s =? 11)%nat && forallb isIdChar s then Ok s
    else Err (FetchError (lit "Could not extract video ID from: " ++ s)).
Proof.
  intros Hs. unfold extractVideoId.
  rewrite (searchId_none_without 47%N s Hs); [reflexivity|].
  intros m Hm. now apply marker_not_id.
Qed.

Lemma extractVideoId_raw_witness :
  extractVideoId (lit "dQw4w9WgXcQ") = Ok (lit "dQw4w9WgXcQ")
  /\ exists msg, extractVideoId (lit "dQw4w9WgXc") = Err (FetchError msg).
Proof.
  split.
  - exact (extractVideoId_raw (lit "dQw4w9WgXcQ") eq_refl).
  - eexists. exact (extractVideoId_raw (lit "dQw4w9WgXc") eq_refl).
Defined.

(** X4: the identifier is found after any of the four known URL shapes,
    whatever follows it, when the text before holds no letter y. *)
Theorem extractVideoId_url (pre m id rest : jsstring) :
  forallb (notUnit 121%N) pre = true ->
  In m idMarkers ->
  length id = 11%nat -> forallb isIdChar id = true ->
  extractVideoId (pre ++ m ++ id ++ rest) = Ok id.
Proof.
  intros Hpre Hin Hl Hc. unfold extractVideoId.
  rewrite (searchId_skip _ _ Hpre).
  destruct m as [|c m]; [now apply marker_not_id in Hin as [H _]|].
  change ((c :: m) ++ id ++ rest) with (c :: (m ++ id ++ rest)).
  cbn [searchId].
  change (c :: m ++ id ++ rest) with ((c :: m) ++ id ++ rest).
  now rewrite (matchMarkers_hit _ _ _ Hin Hl Hc).
Qed.

Lemma extractVideoId_url_witness :
  extractVideoId (lit "https://www.youtube.com/watch?v=dQw4w9WgXcQ&t=42s")
  = Ok (lit "dQw4w9WgXcQ").
Proof.
  exact (extractVideoId_url (lit "https://www.") (lit "youtube.com/watch?v=")
           (lit "dQw4w9WgXcQ") (lit "&t=42s") eq_refl
           (or_introl eq_refl) eq_refl eq_refl).
Defined.

(** X5: whatever is returned has eleven units of the identifier class and
    occurs in the input. *)
Theorem extractVideoId_sound (s v : jsstring) :
  extractVideoId s = Ok v ->
  length v = 11%nat /\ forallb isIdChar v = true /\ includes s v = true.
Proof.
  unfold extractVideoId. destruct (searchId s) as [id|] eqn:E.
  - intros [= ->]. apply searchId_Some in E as (a & m & r & -> & _ & Hl & Hc).
    repeat split; auto. apply includes_infix.
    exists (a ++ m), r. now rewrite <- app_assoc.
  - destruct ((length s =? 11)%nat && forallb isIdChar s) eqn:Ew;
      [|discriminate].
    intros [= ->]. apply andb_true_iff in Ew as [Hl Hc].
    apply Nat.eqb_eq in Hl. repeat split; auto.
    apply includes_infix. exists [], []. now rewrite app_nil_r.
Qed.

Lemma extractVideoId_sound_witness :
  length (lit "dQw4w9WgXcQ") = 11%nat
  /\ includes (lit "https://youtu.be/dQw4w9WgXcQ") (lit "dQw4w9WgXcQ") = true.
Proof.
  destruct (extractVideoId_sound (lit "https://youtu.be/dQw4w9WgXcQ")
              (lit "dQw4w9WgXcQ") eq_refl) as (H1 & _ & H3).
  split; assumption.
Defined.

Lemma findBestTrack_priority_witness :
  findBestTrack sampleTracks None = Some trackEn
  /\ In trackEn sampleTracks.
Proof.
  split; [reflexivity|].
  destruct (findBestTrack_priority sampleTracks None trackEn eq_refl)
    as [(pre & L & post & a & b & _ & _ & _ & _ & Ht & _)|[_ Hhd]].
  - rewrite Ht. apply in_or_app. right. now left.
  - discriminate Hhd.
Defined.

(** ** API key *)

Lemma startsWith_app_long (p y z : jsstring) :
  (length p <= length y)%nat -> startsWith p (y ++ z) = startsWith p y.
Proof.
  revert y. induction p as [|a p IH]; intros [|c y]; simpl; intros H;
    try reflexivity; try lia.
  rewrite IH by lia. reflexivity.
Qed.

Lemma includes_false (s p : jsstring) :
  includes s p = false ->
  forall a b, s = a ++ b -> startsWith p b = false.
Proof.
  intros H a b ->. destruct (startsWith p b) eqn:E; [|reflexivity].
  apply startsWith_prefix in E as [r ->].
  assert (Hin : includes (a ++ p ++ r) p = true)
    by (apply includes_infix; now exists a, r).
  congruence.
Qed.

(** When no occurrence of [p] starts inside [pre], none starts at its
    head, and none starts inside its tail. *)
Lemma startsInside_cons (p : jsstring) (c : char16) (pre tail : jsstring) :
  p <> [] ->
  startsInside p (c :: pre) = false ->
  startsWith p ((c :: pre) ++ p ++ tail) = false
  /\ startsInside p pre = false.
Proof.
  intros Hp H. unfold startsInside in *.
  change ((c :: pre) ++ removelast p) with (c :: (pre ++ removelast p)) in H.
  cbn [includes] in H. apply orb_false_iff in H as [Hhead Hrest].
  split; [|exact Hrest].
  rewrite (app_removelast_last 0%N Hp) at 2.
  rewrite <- app_assoc, app_assoc.
  rewrite startsWith_app_long; [exact Hhead|].
  rewrite length_app. simpl.
  assert (length p = S (length (removelast p))).
  { rewrite (app_removelast_last 0%N Hp) at 1. rewrite length_app. simpl. lia. }
  lia.
Qed.

Lemma span_spec (p : char16 -> bool) (s a b : jsstring) :
  span p s = (a, b) ->
  s = a ++ b /\ forallb p a = true
  /\ match b with [] => True | c :: _ => p c = false end.
Proof.
  revert a b. induction s as [|c s IH]; simpl; intros a b.
  - intros [= <- <-]. auto.
  - destruct (p c) eqn:Ep.
    + destruct (span p s) as [a' b'] eqn:Es. intros [= <- <-].
      destruct (IH a' b' eq_refl) as (-> & Ha & Hb).
      simpl. rewrite Ep. auto.
    + intros [= <- <-]. simpl. auto.
Qed.

Lemma trimStart_spec (s : jsstring) :
  exists ws, s = ws ++ trimStart s /\ forallb isWhiteSpace ws = true.
Proof.
  induction s as [|c s (ws & Hs & Hws)]; simpl.
  - now exists [].
  - destruct (isWhiteSpace c) eqn:E.
    + exists (c :: ws). simpl. rewrite E, Hws. split; [congruence|reflexivity].
    + now exists [].
Qed.

Lemma matchKey_hit (ws key post : jsstring) :
  forallb isWhiteSpace ws = true ->
  key <> [] -> forallb isIdChar key = true ->
  matchKey (keyMarker ++ ws ++ dq ++ key ++ dq ++ post) = Some key.
Proof.
  intros Hws Hne Hkey. unfold matchKey.
  replace (startsWith keyMarker (keyMarker ++ ws ++ dq ++ key ++ dq ++ post))
    with true by (symmetry; apply startsWith_prefix; now eexists).
  rewrite skipn_length_app, (trimStart_blank _ _ Hws).
  change (dq ++ key ++ dq ++ post) with (34%N :: key ++ 34%N :: post).
  cbn [trimStart]. change (isWhiteSpace 34%N) with false. cbn iota.
  rewrite (span_app _ _ _ Hkey) by reflexivity.
  destruct key; [congruence|reflexivity].
Qed.

Lemma head_quote {B} (l : jsstring) (f : jsstring -> B) (d : B) :
  match l with 34%N :: r => f r | _ => d end
  = match l with
    | [] => d
    | q :: r => if N.eqb q 34 then f r else d
    end.
Proof.
  destruct l as [|q r]; [reflexivity|].
  destruct (N.eqb_spec q 34) as [->|H]; [reflexivity|].
  destruct q as [|p]; [reflexivity|].
  do 6 (destruct p as [p|p|]; try reflexivity). congruence.
Qed.

Lemma matchKey_Some (s k : jsstring) :
  matchKey s = Some k ->
  k <> [] /\ forallb isIdChar k = true
  /\ exists ws r, s = keyMarker ++ ws ++ dq ++ k ++ dq ++ r
                  /\ forallb isWhiteSpace ws = true.
Proof.
  unfold matchKey. destruct (startsWith keyMarker s) eqn:Es; [|discriminate].
  apply startsWith_prefix in Es as [b ->]. rewrite skipn_length_app.
  destruct (trimStart_spec b) as (ws & Hb & Hws).
  rewrite head_quote.
  destruct (trimStart b) as [|q r] eqn:Et; [discriminate|].
  destruct (N.eqb_spec q 34%N) as [->|Hq]; [|discriminate].
  destruct (span isIdChar r) as [key rest] eqn:Esp.
  apply span_spec in Esp as (-> & Hkey & _).
  destruct key as [|k0 key]; [discriminate|].
  rewrite head_quote.
  destruct rest as [|q' rest]; [discriminate|].
  destruct (N.eqb_spec q' 34%N) as [->|Hq']; [|discriminate].
  intros [= <-]. split; [discriminate|]. split; [exact Hkey|].
  exists ws, rest. split; [|exact Hws]. now rewrite Hb at 1.
Qed.

Lemma searchKey_Some (s k : jsstring) :
  searchKey s = Some k -> exists a b, s = a ++ b /\ matchKey b = Some k.
Proof.
  induction s as [|c s IH].
  - simpl. discriminate.
  - cbn [searchKey]. destruct (matchKey (c :: s)) as [k'|] eqn:E.
    + intros [= ->]. now exists [], (c :: s).
    + intros H. destruct (IH H) as (a & b & -> & Hb). now exists (c :: a), b.
Qed.

Lemma matchKey_needs_marker (s : jsstring) :
  startsWith keyMarker s = false -> matchKey s = None.
Proof. intros H. unfold matchKey. now rewrite H. Qed.

Lemma searchKey_absent (a b : jsstring) :
  includes (a ++ b) keyMarker = false -> searchKey b = None.
Proof.
  revert a. induction b as [|c b IH]; intros a H.
  - reflexivity.
  - cbn [searchKey].
    rewrite matchKey_needs_marker by (now apply (includes_false _ _ H a)).
    apply (IH (a ++ [c])). now rewrite <- app_assoc.
Qed.

(** X6: the key that follows the first occurrence of the marker is returned,
    whatever comes after it, a bot-check marker included. *)
Theorem extractInnertubeApiKey_first (pre ws key post videoId : jsstring) :
  startsInside keyMarker pre = false ->
  forallb isWhiteSpace ws = true ->
  key <> [] -> forallb isIdChar key = true ->
  extractInnertubeApiKey (pre ++ keyMarker ++ ws ++ dq ++ key ++ dq ++ post)
    videoId
  = Ok key.
Proof.
  intros Hpre Hws Hne Hkey. unfold extractInnertubeApiKey.
  replace (searchKey (pre ++ keyMarker ++ ws ++ dq ++ key ++ dq ++ post))
    with (Some key); [reflexivity|].
  symmetry. induction pre as [|c pre IH].
  - change ([] ++ keyMarker ++ ws ++ dq ++ key ++ dq ++ post)
      with (34%N :: (lit "INNERTUBE_API_KEY" ++ dq ++ lit ":")
                      ++ ws ++ dq ++ key ++ dq ++ post).
    cbn [searchKey].
    change (34%N :: (lit "INNERTUBE_API_KEY" ++ dq ++ lit ":")
                      ++ ws ++ dq ++ key ++ dq ++ post)
      with (keyMarker ++ ws ++ dq ++ key ++ dq ++ post).
    now rewrite (matchKey_hit ws key post Hws Hne Hkey).
  - destruct (startsInside_cons keyMarker c pre
                (ws ++ dq ++ key ++ dq ++ post) ltac:(discriminate) Hpre)
      as [Hhead Hrest].
    change ((c :: pre) ++ keyMarker ++ ws ++ dq ++ key ++ dq ++ post)
      with (c :: (pre ++ keyMarker ++ ws ++ dq ++ key ++ dq ++ post)) in *.
    cbn [searchKey]. rewrite (matchKey_needs_marker _ Hhead).
    now apply IH.
Qed.

Lemma extractInnertubeApiKey_first_witness :
  extractInnertubeApiKey (samplePage ++ recaptchaMarker) (lit "dQw4w9WgXcQ")
  = Ok (lit "AIza-Sy_9").
Proof.
  exact (extractInnertubeApiKey_first (lit "<script>ytcfg.set({") (lit " ")
           (lit "AIza-Sy_9") (lit ",})</script>" ++ recaptchaMarker)
           (lit "dQw4w9WgXcQ") eq_refl eq_refl ltac:(discriminate) eq_refl).
Defined.

(** X7: A page without the marker is reported as blocked when it shows the
    bot-check marker, and as lacking the key otherwise. *)
Theorem extractInnertubeApiKey_absent (html videoId : jsstring) :
  includes html keyMarker = false ->
  extractInnertubeApiKey html videoId
  = if includes html recaptchaMarker then
      Err (FetchError (lit "Request blocked (IP/rate limit). Try again later."))
    else
      Err (FetchError
             (lit "Could not extract Innertube API key for video " ++ videoId)).
Proof.
  intros H. unfold extractInnertubeApiKey.
  now rewrite (searchKey_absent [] html H).
Qed.

Lemma extractInnertubeApiKey_absent_witness :
  extractInnertubeApiKey (lit "<div " ++ recaptchaMarker ++ lit "></div>")
    (lit "dQw4w9WgXcQ")
  = Err (FetchError (lit "Request blocked (IP/rate limit). Try again later.")).
Proof.
  exact (extractInnertubeApiKey_absent
           (lit "<div " ++ recaptchaMarker ++ lit "></div>")
           (lit "dQw4w9WgXcQ") eq_refl).
Defined.

(** X8: A returned key is never empty, consists of identifier units, and
    stands in the page between quotes, after the marker. *)
Theorem extractInnertubeApiKey_sound (html videoId k : jsstring) :
  extractInnertubeApiKey html videoId = Ok k ->
  k <> [] /\ forallb isIdChar k = true
  /\ exists a ws r,
       html = a ++ keyMarker ++ ws ++ dq ++ k ++ dq ++ r
       /\ forallb isWhiteSpace ws = true.
Proof.
  unfold extractInnertubeApiKey.
  destruct (searchKey html) as [k'|] eqn:E.
  - intros [= ->]. apply searchKey_Some in E as (a & b & -> & Hb).
    apply matchKey_Some in Hb as (Hne & Hid & ws & r & -> & Hws).
    split; [exact Hne|]. split; [exact Hid|]. now exists a, ws, r.
  - destruct (includes html recaptchaMarker); discriminate.
Qed.

Lemma extractInnertubeApiKey_sound_witness :
  lit "AIza-Sy_9" <> [] /\ forallb isIdChar (lit "AIza-Sy_9") = true.
Proof.
  destruct (extractInnertubeApiKey_sound samplePage (lit "v")
              (lit "AIza-Sy_9") eq_refl) as (H1 & H2 & _).
  split; assumption.
Defined.

(** ** Command-line arguments *)

Lemma parseTimeString_nonneg (s : jsstring) (v : Z) :
  parseTimeString s = Ok v -> 0 <= v.
Proof.
  intros H. apply parseTimeString_Ok_inv in H.
  destruct H as [(a & b & m & sec & _ & _ & _ & Hm & Hs & ->)
                |(a & b & c & h & m & sec & _ & _ & _ & _ & Hh & Hm & Hs & ->)];
    lia.
Qed.

Lemma parseRangeString_Ok_inv (s : jsstring) (lo hi : Z) :
  parseRangeString s = Ok (lo, hi) -> 0 <= lo <= hi.
Proof.
  unfold parseRangeString.
  destruct (indexOf 45%N s) as [idx|]; [|discriminate].
  destruct (_ || _); [discriminate|].
  destruct (parseTimeString (firstn idx s)) as [x|] eqn:Ex; [|discriminate].
  destruct (parseTimeString (skipn (idx + 1) s)) as [y|]; [|discriminate].
  simpl. rewrite Z.gtb_ltb. destruct (Z.ltb_spec y x); [discriminate|].
  intros [= <- <-]. apply parseTimeString_nonneg in Ex. lia.
Qed.

Lemma takeTimes_valid (args : list jsstring) :
  forall acc ts rest,
    Forall wholeSeconds acc ->
    takeTimes args acc = Parsed (ts, rest) -> Forall wholeSeconds ts.
Proof.
  induction args as [|a args IH]; intros acc ts rest Hacc; simpl.
  - now intros [= <- <-].
  - destruct (isFlag a); [now intros [= <- <-]|].
    destruct (parseTimeString a) as [t|] eqn:Et; [|discriminate].
    apply IH. apply Forall_app. split; [assumption|].
    constructor; [|constructor]. exists t. split; [reflexivity|].
    now apply parseTimeString_nonneg in Et.
Qed.

Lemma takeRanges_valid (args : list jsstring) :
  forall acc rs rest,
    Forall wholeRange acc ->
    takeRanges args acc = Parsed (rs, rest) -> Forall wholeRange rs.
Proof.
  induction args as [|a args IH]; intros acc rs rest Hacc; simpl.
  - now intros [= <- <-].
  - destruct (isFlag a); [now intros [= <- <-]|].
    destruct (parseRangeString a) as [[lo hi]|] eqn:Er; [|discriminate].
    apply IH. apply Forall_app. split; [assumption|].
    constructor; [|constructor]. exists lo, hi. split; [reflexivity|].
    now apply parseRangeString_Ok_inv in Er.
Qed.

Lemma parseArgsLoop_valid (fuel : nat) :
  forall args r r',
    validRequest r -> parseArgsLoop fuel args r = Parsed r' -> validRequest r'.
Proof.
  induction fuel as [|fuel IH]; intros args r r' Hr.
  - simpl. now intros [= <-].
  - destruct args as [|arg rest]; [simpl; now intros [= <-]|].
    destruct Hr as (Hf & Ht & Ho & He). cbn [parseArgsLoop].
    destruct (_ || _); [apply IH; now repeat split|].
    destruct (str_eqb arg (lit "--from")).
    { destruct rest as [|v rest']; [discriminate|].
      destruct (parseTimeString v) as [t|] eqn:Ev; [|discriminate].
      apply IH. repeat split; auto. simpl. intros ? [= <-].
      exists t. split; [reflexivity|]. now apply parseTimeString_nonneg in Ev. }
    destruct (str_eqb arg (lit "--to")).
    { destruct rest as [|v rest']; [discriminate|].
      destruct (parseTimeString v) as [t|] eqn:Ev; [|discriminate].
      apply IH. repeat split; auto. simpl. intros ? [= <-].
      exists t. split; [reflexivity|]. now apply parseTimeString_nonneg in Ev. }
    destruct (str_eqb arg (lit "--only")).
    { destruct (takeTimes rest []) as [[ts rest']|] eqn:Et; [|discriminate].
      apply IH. repeat split; auto. simpl. intros ? [= <-].
      now apply (takeTimes_valid rest [] ts rest'). }
    destruct (str_eqb arg (lit "--exclude")).
    { destruct (takeRanges rest []) as [[rs rest']|] eqn:Et; [|discriminate].
      apply IH. repeat split; auto. simpl. intros ? [= <-].
      now apply (takeRanges_valid rest [] rs rest'). }
    destruct (negb _); apply IH; now repeat split.
Qed.

(** X9: for arguments of at most 15 characters each, where every number
    read and every product and sum formed from them stays below 2^53 and
    is exact in the runtime, every request that [parseArgs] accepts holds
    whole, non-negative times only, and exclude ranges with
    start <= end. *)
Theorem parseArgs_valid (args : list jsstring) (r : ParseResult) :
  Forall (fun a => (length a <= 15)%nat) args ->
  parseArgs args = Parsed r -> validRequest r.
Proof.
  intros _. apply parseArgsLoop_valid. repeat split; discriminate.
Qed.

Lemma parseArgs_valid_witness :
  validRequest
    (mkOpts (Some (lit "v")) true (Some (ofZ 3132)) None None
       (Some [(ofZ 5121, ofZ 5221)])).
Proof.
  refine (parseArgs_valid
            [lit "v"; lit "-t"; lit "--from"; lit "52:12"; lit "--exclude";
             lit "1:25:21-1:27:01"] _ _ eq_refl).
  repeat constructor.
Defined.

Lemma str_eqb_sym (a b : jsstring) : str_eqb a b = str_eqb b a.
Proof.
  destruct (str_eqb a b) eqn:E.
  - apply str_eqb_eq in E as ->. symmetry. now apply str_eqb_eq.
  - destruct (str_eqb b a) eqn:E'; [|reflexivity].
    apply str_eqb_eq in E' as ->.
    assert (str_eqb a a = true) by (now apply str_eqb_eq). congruence.
Qed.

Lemma find_app {A} (f : A -> bool) (l l' : list A) :
  find f (l ++ l') = match find f l with Some x => Some x | None => find f l' end.
Proof. induction l as [|x l IH]; simpl; [reflexivity|]. now destruct (f x). Qed.

Lemma afterPlain_nil (r : ParseResult) : afterPlain [] r = r.
Proof. destruct r. unfold afterPlain. simpl. now rewrite !orb_false_r. Qed.

Lemma afterPlain_cons (a : jsstring) (pre : list jsstring) (r : ParseResult) :
  afterPlain (a :: pre) r = afterPlain pre (plainStep a r).
Proof.
  unfold afterPlain, plainStep. cbn [rev existsb]. rewrite find_app.
  rewrite (str_eqb_sym (lit "--timestamps") a), (str_eqb_sym (lit "-t") a).
  destruct (str_eqb a (lit "--timestamps")) eqn:E1.
  { apply str_eqb_eq in E1 as ->. cbn.
    destruct (find positional (rev pre)); now rewrite !orb_true_r. }
  destruct (str_eqb a (lit "-t")) eqn:E2.
  { apply str_eqb_eq in E2 as ->. cbn.
    destruct (find positional (rev pre)); now rewrite !orb_true_r. }
  cbn [orb find]. destruct (positional a); cbn;
    destruct (find positional (rev pre)); reflexivity.
Qed.

Lemma parseArgsLoop_plainStep (fuel : nat) (a : jsstring)
    (rest : list jsstring) (r : ParseResult) :
  plainArg a = true ->
  parseArgsLoop (S fuel) (a :: rest) r = parseArgsLoop fuel rest (plainStep a r).
Proof.
  unfold plainArg, plainStep, positional. intros H.
  apply negb_true_iff in H. rewrite !orb_false_iff in H.
  destruct H as [[[H1 H2] H3] H4]. cbn [parseArgsLoop].
  rewrite H1, H2, H3, H4.
  destruct (_ || _); [reflexivity|]. now destruct (negb _).
Qed.

(** Arguments free of time-window flags are consumed one per round. *)
Lemma parseArgsLoop_plain (pre : list jsstring) :
  forall k rest r,
    forallb plainArg pre = true ->
    parseArgsLoop (length pre + k) (pre ++ rest) r
    = parseArgsLoop k rest (afterPlain pre r).
Proof.
  induction pre as [|a pre IH]; intros k rest r H.
  - now rewrite afterPlain_nil.
  - simpl in H. apply andb_true_iff in H as [Ha Hpre].
    change (length (a :: pre) + k)%nat with (S (length pre + k)).
    change ((a :: pre) ++ rest) with (a :: (pre ++ rest)).
    rewrite (parseArgsLoop_plainStep _ _ _ _ Ha), (IH _ _ _ Hpre).
    now rewrite afterPlain_cons.
Qed.

Lemma parseArgsLoop_done (fuel : nat) (r : ParseResult) :
  parseArgsLoop fuel [] r = Parsed r.
Proof. now destruct fuel. Qed.

Lemma parseArgs_plain (args : list jsstring) :
  forallb plainArg args = true ->
  parseArgs args = Parsed (afterPlain args noOptions).
Proof.
  intros H. unfold parseArgs.
  rewrite <- (app_nil_r args) at 2. rewrite <- (Nat.add_0_r (length args)).
  rewrite (parseArgsLoop_plain args 0 [] _ H). apply parseArgsLoop_done.
Qed.

Lemma existsb_rev {A} (f : A -> bool) (l : list A) :
  existsb f (rev l) = existsb f l.
Proof.
  induction l as [|x l IH]; [reflexivity|].
  simpl. rewrite existsb_app, IH. simpl. rewrite orb_false_r. apply orb_comm.
Qed.

Lemma find_hd_filter {A} (f : A -> bool) (l : list A) :
  find f l = hd_error (filter f l).
Proof. induction l as [|x l IH]; simpl; [reflexivity|]. now destruct (f x). Qed.

Lemma filter_rev_eq {A} (f : A -> bool) (l : list A) :
  filter f (rev l) = rev (filter f l).
Proof.
  induction l as [|x l IH]; [reflexivity|].
  simpl. rewrite filter_app, IH. simpl. destruct (f x); simpl;
    [reflexivity|now rewrite app_nil_r].
Qed.

(** [main] on a request without any time-window option. *)
Lemma main_plain fetch (opts : ParseResult) :
  from opts = None -> to opts = None ->
  nonEmpty (only opts) = false -> nonEmpty (exclude opts) = false ->
  main fetch opts
  = if negb (truthy (video opts)) then Exit1 UsageError
    else match fetch (orElse (video opts) []) with
         | Ok snippets => Printed (formatTranscript snippets (timestamps opts))
         | Err e => Exit1 e
         end.
Proof.
  intros Hf Ht Ho He. unfold main. rewrite Hf, Ht, Ho, He. cbn [defined orb andb].
  destruct (negb (truthy (video opts))); [reflexivity|].
  now destruct (fetch _).
Qed.

(** X10: without time-window flags the later revision behaves like the earlier
    one run on the arguments in reverse order: the flags are read alike,
    but the video is the last positional argument where it used to be the
    first.  With at most one positional argument the two agree.  (The
    outcome records that the usage line is printed, not its wording.) *)
Theorem program_extends_earlier_revision fetch (args : list jsstring) :
  forallb plainArg args = true ->
  program fetch args = Ran (Part000.main fetch (rev args))
  /\ ((length (filter positional args) <= 1)%nat ->
      program fetch args = Ran (Part000.main fetch args)).
Proof.
  intros H.
  assert (Hrev : program fetch args = Ran (Part000.main fetch (rev args))).
  { unfold program. rewrite (parseArgs_plain _ H).
    rewrite main_plain by reflexivity.
    unfold Part000.main, Part000.parseArgs. rewrite !existsb_rev.
    change (fun a => negb (startsWith (lit "-") a)) with positional.
    unfold afterPlain, noOptions. cbn [video timestamps orb].
    destruct (find positional (rev args)) as [v|]; reflexivity. }
  split; [exact Hrev|]. intros Hone. rewrite Hrev. f_equal.
  unfold Part000.main, Part000.parseArgs. rewrite !existsb_rev.
  change (fun a => negb (startsWith (lit "-") a)) with positional.
  rewrite !find_hd_filter, filter_rev_eq.
  destruct (filter positional args) as [|x [|y l]]; simpl in *;
    [reflexivity|reflexivity|lia].
Qed.

Lemma program_extends_earlier_revision_witness :
  program (fun _ => Ok scenario) [lit "-t"; lit "dQw4w9WgXcQ"]
  = Ran (Part000.main (fun _ => Ok scenario) [lit "-t"; lit "dQw4w9WgXcQ"]).
Proof.
  exact (proj2 (program_extends_earlier_revision (fun _ => Ok scenario)
                  [lit "-t"; lit "dQw4w9WgXcQ"] eq_refl)
               ltac:(simpl; lia)).
Defined.

Lemma takeTimes_nonflags (xs : list jsstring) :
  forall acc,
    forallb notFlag xs = true ->
    match takeTimes xs acc with
    | Parsed (ts, rest) =>
        rest = [] /\ exists new, ts = acc ++ new /\ Forall2 timeOf xs new
    | Rejected e =>
        exists x e', In x xs /\ parseTimeString x = Err e' /\ e = BadValue e'
    end.
Proof.
  induction xs as [|x xs IH]; intros acc H; simpl.
  - split; [reflexivity|]. exists []. now rewrite app_nil_r.
  - simpl in H. apply andb_true_iff in H as [Hx Hxs].
    unfold notFlag in Hx. apply negb_true_iff in Hx. rewrite Hx.
    destruct (parseTimeString x) as [t|e] eqn:Et.
    + specialize (IH (acc ++ [ofZ t]) Hxs).
      destruct (takeTimes xs (acc ++ [ofZ t])) as [[ts rest]|e].
      * destruct IH as (-> & new & -> & Hnew). split; [reflexivity|].
        exists (ofZ t :: new). rewrite <- app_assoc. split; [reflexivity|].
        constructor; [now exists t|assumption].
      * destruct IH as (y & e' & Hin & Hy & ->). exists y, e'. simpl. auto.
    + exists x, e. simpl. auto.
Qed.

Lemma parseArgs_after_plain (pre tail : list jsstring) :
  forallb plainArg pre = true ->
  parseArgs (pre ++ tail)
  = parseArgsLoop (length tail) tail (afterPlain pre noOptions).
Proof.
  intros H. unfold parseArgs. rewrite length_app.
  apply (parseArgsLoop_plain pre _ tail _ H).
Qed.

Lemma takeTimes_length (args : list jsstring) :
  forall acc ts rest,
    takeTimes args acc = Parsed (ts, rest) -> (length rest <= length args)%nat.
Proof.
  induction args as [|a args IH]; intros acc ts rest; simpl.
  - intros [= _ <-]. reflexivity.
  - destruct (isFlag a); [intros [= _ <-]; reflexivity|].
    destruct (parseTimeString a); [|discriminate].
    intros H. apply IH in H. lia.
Qed.

Lemma takeRanges_length (args : list jsstring) :
  forall acc rs rest,
    takeRanges args acc = Parsed (rs, rest) -> (length rest <= length args)%nat.
Proof.
  induction args as [|a args IH]; intros acc rs rest; simpl.
  - intros [= _ <-]. reflexivity.
  - destruct (isFlag a); [intros [= _ <-]; reflexivity|].
    destruct (parseRangeString a) as [[lo hi]|]; [|discriminate].
    intros H. apply IH in H. lia.
Qed.

(** Any fuel that covers the arguments gives the same result. *)
Lemma parseArgsLoop_fuel (f1 : nat) :
  forall args r f2,
    (length args <= f1)%nat -> (length args <= f2)%nat ->
    parseArgsLoop f1 args r = parseArgsLoop f2 args r.
Proof.
  induction f1 as [|f1 IH]; intros args r f2 H1 H2.
  - destruct args; [|simpl in H1; lia]. now destruct f2.
  - destruct args as [|arg rest]; [now destruct f2|].
    destruct f2 as [|f2]; [simpl in H2; lia|].
    simpl in H1, H2. cbn [parseArgsLoop].
    destruct (_ || _); [apply IH; lia|].
    destruct (str_eqb arg (lit "--from")).
    { destruct rest as [|v rest']; [reflexivity|].
      destruct (parseTimeString v); [|reflexivity].
      simpl in H1, H2. apply IH; lia. }
    destruct (str_eqb arg (lit "--to")).
    { destruct rest as [|v rest']; [reflexivity|].
      destruct (parseTimeString v); [|reflexivity].
      simpl in H1, H2. apply IH; lia. }
    destruct (str_eqb arg (lit "--only")).
    { destruct (takeTimes rest []) as [[ts rest']|] eqn:Et; [|reflexivity].
      apply takeTimes_length in Et. apply IH; lia. }
    destruct (str_eqb arg (lit "--exclude")).
    { destruct (takeRanges rest []) as [[rs rest']|] eqn:Et; [|reflexivity].
      apply takeRanges_length in Et. apply IH; lia. }
    destruct (negb _); apply IH; lia.
Qed.

(** Once set, the [only] list stays set. *)
Lemma parseArgsLoop_only_stays (fuel : nat) :
  forall args r b,
    defined (only r) = true ->
    parseArgsLoop fuel args r = Parsed b -> defined (only b) = true.
Proof.
  induction fuel as [|fuel IH]; intros args r b Hr.
  - simpl. now intros [= <-].
  - destruct args as [|arg rest]; [simpl; now intros [= <-]|].
    cbn [parseArgsLoop].
    destruct (_ || _); [now apply IH|].
    destruct (str_eqb arg (lit "--from")).
    { destruct rest as [|v rest']; [discriminate|].
      destruct (parseTimeString v); [now apply IH|discriminate]. }
    destruct (str_eqb arg (lit "--to")).
    { destruct rest as [|v rest']; [discriminate|].
      destruct (parseTimeString v); [now apply IH|discriminate]. }
    destruct (str_eqb arg (lit "--only")).
    { destruct (takeTimes rest []) as [[ts rest']|]; [|discriminate].
      now apply IH. }
    destruct (str_eqb arg (lit "--exclude")).
    { destruct (takeRanges rest []) as [[rs rest']|]; [|discriminate].
      now apply IH. }
    destruct (negb _); now apply IH.
Qed.

(** The loop started with an [only] list ends as the loop started
    without one, except that the list is still there when no later
    [--only] replaces it. *)
Lemma parseArgsLoop_only_frame (fuel : nat) :
  forall args r ts,
    only r = None ->
    parseArgsLoop fuel args (setOnly r ts)
    = match parseArgsLoop fuel args r with
      | Parsed b => Parsed (keepOnly ts b)
      | Rejected e => Rejected e
      end.
Proof.
  assert (Hbase : forall r ts, only r = None -> setOnly r ts = keepOnly ts r).
  { intros r ts H. unfold keepOnly. now rewrite H. }
  induction fuel as [|fuel IH]; intros args r ts Hr.
  - simpl. now rewrite Hbase.
  - destruct args as [|arg rest]; [simpl; now rewrite Hbase|].
    cbn [parseArgsLoop].
    destruct (_ || _); [now apply (IH rest (setTimestamps r))|].
    destruct (str_eqb arg (lit "--from")).
    { destruct rest as [|v rest']; [reflexivity|].
      destruct (parseTimeString v) as [t|]; [|reflexivity].
      now apply (IH rest' (setFrom r (ofZ t))). }
    destruct (str_eqb arg (lit "--to")).
    { destruct rest as [|v rest']; [reflexivity|].
      destruct (parseTimeString v) as [t|]; [|reflexivity].
      now apply (IH rest' (setTo r (ofZ t))). }
    destruct (str_eqb arg (lit "--only")).
    { destruct (takeTimes rest []) as [[ts' rest']|]; [|reflexivity].
      change (setOnly (setOnly r ts) ts') with (setOnly r ts').
      destruct (parseArgsLoop fuel rest' (setOnly r ts')) as [b|e] eqn:E;
        [|reflexivity].
      apply parseArgsLoop_only_stays in E; [|reflexivity].
      unfold keepOnly. now destruct (only b). }
    destruct (str_eqb arg (lit "--exclude")).
    { destruct (takeRanges rest []) as [[rs rest']|]; [|reflexivity].
      now apply (IH rest' (setExclude r (Some rs))). }
    destruct (negb _); [now apply (IH rest (setVideo r arg))|now apply IH].
Qed.

(** The inner loop of [--only] stops at the first flag. *)
Lemma takeTimes_app_flag (xs rest : list jsstring) :
  forall acc,
    forallb notFlag xs = true -> atFlag rest = true ->
    takeTimes (xs ++ rest) acc
    = match takeTimes xs acc with
      | Parsed (ts, _) => Parsed (ts, rest)
      | Rejected e => Rejected e
      end.
Proof.
  induction xs as [|x xs IH]; intros acc Hxs Hrest.
  - destruct rest as [|f rest]; [reflexivity|].
    simpl in *. now rewrite Hrest.
  - simpl in Hxs. apply andb_true_iff in Hxs as [Hx Hxs].
    unfold notFlag in Hx. apply negb_true_iff in Hx.
    simpl. rewrite Hx. destruct (parseTimeString x); [now apply IH|reflexivity].
Qed.

Lemma timeOf_functional (xs : list jsstring) :
  forall ts ts', Forall2 timeOf xs ts -> Forall2 timeOf xs ts' -> ts = ts'.
Proof.
  induction xs as [|x xs IH]; intros ts ts' H H'.
  - inversion H. inversion H'. reflexivity.
  - inversion H as [|? t ? l (z & Hz & ->) Hl]; subst.
    inversion H' as [|? t' ? l' (z' & Hz' & ->) Hl']; subst.
    rewrite Hz in Hz'. injection Hz' as <-. f_equal. now apply IH.
Qed.

(** X11: after [--only], every argument up to the next flag, or to the
    end, is read as a time.  When they all are times, the request is the
    one of the command line without [--only] and these arguments, with
    the times as its [only] list unless a later [--only] replaces them:
    so none of these arguments is taken as the video.  When one of them
    is not a time the call is rejected, and an accepted call has read
    every one of them as a time. *)
Theorem parseArgs_only_swallows (pre xs rest : list jsstring) :
  forallb plainArg pre = true ->
  forallb notFlag xs = true ->
  atFlag rest = true ->
  (forall ts, Forall2 timeOf xs ts ->
     parseArgs (pre ++ lit "--only" :: xs ++ rest)
     = match parseArgs (pre ++ rest) with
       | Parsed r => Parsed (keepOnly ts r)
       | Rejected e => Rejected e
       end)
  /\ (forall x e, In x xs -> parseTimeString x = Err e ->
      exists e',
        parseArgs (pre ++ lit "--only" :: xs ++ rest) = Rejected (BadValue e'))
  /\ (forall r, parseArgs (pre ++ lit "--only" :: xs ++ rest) = Parsed r ->
      exists ts, Forall2 timeOf xs ts).
Proof.
  intros Hpre Hxs Hrest. rewrite !(parseArgs_after_plain _ _ Hpre).
  set (r0 := afterPlain pre noOptions).
  change (parseArgsLoop (length (lit "--only" :: xs ++ rest))
            (lit "--only" :: xs ++ rest) r0)
    with (match takeTimes (xs ++ rest) [] with
          | Parsed (ts, rest') =>
              parseArgsLoop (length (xs ++ rest)) rest' (setOnly r0 ts)
          | Rejected e => Rejected e
          end).
  rewrite (takeTimes_app_flag xs rest [] Hxs Hrest).
  pose proof (takeTimes_nonflags xs [] Hxs) as Ht.
  destruct (takeTimes xs []) as [[ts0 rest0]|e0].
  - destruct Ht as (_ & new & -> & Hnew). cbn [app].
    assert (Hno : forall x e, In x xs -> parseTimeString x = Err e -> False).
    { clear - Hnew. intros x e Hin Hx.
      induction Hnew as [|y t ys ts' (z & Hy & _) _ IH]; [destruct Hin|].
      destruct Hin as [<-|Hin]; [congruence|auto]. }
    split; [|split].
    + intros ts Hts. rewrite (timeOf_functional _ _ _ Hts Hnew).
      rewrite (parseArgsLoop_fuel _ rest _ (length rest))
        by (rewrite ?length_app; lia).
      now apply parseArgsLoop_only_frame.
    + intros x e Hin Hx. destruct (Hno x e Hin Hx).
    + intros _ _. now exists new.
  - destruct Ht as (y & e' & Hin & Hy & ->). split; [|split].
    + intros ts Hts. exfalso. clear - Hts Hin Hy.
      induction Hts as [|x t xs ts (z & Hx & _) _ IH]; [destruct Hin|].
      destruct Hin as [<-|Hin]; [congruence|auto].
    + intros x e _ _. now exists e'.
    + discriminate.
Qed.

Lemma parseArgs_only_swallows_witness :
  parseArgs [lit "v"; lit "-t"; lit "--only"; lit "00:05:00"; lit "00:22:52";
             lit "--exclude"; lit "1:25:21-1:27:01"]
  = Parsed (mkOpts (Some (lit "v")) true None None
              (Some [ofZ 300; ofZ 1372]) (Some [(ofZ 5121, ofZ 5221)]))
  /\ exists e,
       parseArgs [lit "-t"; lit "--only"; lit "00:05:00"; lit "dQw4w9WgXcQ"]
       = Rejected (BadValue e).
Proof.
  split.
  - refine (eq_trans
              (proj1 (parseArgs_only_swallows [lit "v"; lit "-t"]
                        [lit "00:05:00"; lit "00:22:52"]
                        [lit "--exclude"; lit "1:25:21-1:27:01"]
                        eq_refl eq_refl eq_refl)
                 [ofZ 300; ofZ 1372] _) eq_refl).
    repeat constructor; eexists; split; reflexivity.
  - exact (proj1 (proj2 (parseArgs_only_swallows [lit "-t"]
                  [lit "00:05:00"; lit "dQw4w9WgXcQ"] [] eq_refl eq_refl
                  eq_refl))
           (lit "dQw4w9WgXcQ") (InvalidTimeFormat AnyForm)
           (or_intror (or_introl eq_refl)) eq_refl).
Defined.

(** X12: [--from] always takes the next argument as its value, a flag
    included, and is rejected when it is the last argument; a trailing
    [--only] or [--exclude] without values leaves the run as it is
    without it. *)
Theorem parseArgs_flag_values fetch (pre : list jsstring) :
  forallb plainArg pre = true ->
  parseArgs (pre ++ [lit "--from"]) = Rejected MissingFrom
  /\ parseArgs (pre ++ [lit "--to"]) = Rejected MissingTo
  /\ (forall v rest e, parseTimeString v = Err e ->
      parseArgs (pre ++ lit "--from" :: v :: rest) = Rejected (BadValue e))
  /\ program fetch (pre ++ [lit "--only"]) = program fetch pre
  /\ program fetch (pre ++ [lit "--exclude"]) = program fetch pre.
Proof.
  intros Hpre. rewrite !(parseArgs_after_plain _ _ Hpre).
  split; [reflexivity|]. split; [reflexivity|]. split.
  - intros v rest e Hv. rewrite (parseArgs_after_plain _ _ Hpre).
    cbn -[parseTimeString]. now rewrite Hv.
  - unfold program. rewrite !(parseArgs_after_plain _ _ Hpre).
    rewrite (parseArgs_plain _ Hpre). split; reflexivity.
Qed.

Lemma parseArgs_flag_values_witness :
  parseArgs [lit "dQw4w9WgXcQ"; lit "-t"; lit "--from"] = Rejected MissingFrom
  /\ program (fun _ => Ok scenario) [lit "dQw4w9WgXcQ"; lit "--only"]
     = program (fun _ => Ok scenario) [lit "dQw4w9WgXcQ"].
Proof.
  destruct (parseArgs_flag_values (fun _ => Ok scenario)
              [lit "dQw4w9WgXcQ"; lit "-t"] eq_refl) as (H1 & _).
  destruct (parseArgs_flag_values (fun _ => Ok scenario)
              [lit "dQw4w9WgXcQ"] eq_refl) as (_ & _ & _ & H4 & _).
  split; assumption.
Defined.

(** ** Window filter, further *)

Lemma filter_subsequence {A} (f : A -> bool) (l : list A) :
  subsequence (filter f l) l.
Proof.
  induction l as [|x l IH]; simpl; [constructor|].
  destruct (f x); now constructor.
Qed.

Lemma subsequence_trans {A} (a b c : list A) :
  subsequence a b -> subsequence b c -> subsequence a c.
Proof.
  intros Hab Hbc. revert a Hab.
  induction Hbc as [|x b c _ IH|x b c _ IH]; intros a Hab.
  - assumption.
  - constructor. now apply IH.
  - inversion Hab; subst; constructor; now apply IH.
Qed.

Lemma subsequence_refl {A} (l : list A) : subsequence l l.
Proof. induction l; now constructor. Qed.

Lemma filter_filter {A} (f g : A -> bool) (l : list A) :
  filter f (filter g l) = filter (fun x => g x && f x) l.
Proof.
  induction l as [|x l IH]; simpl; [reflexivity|].
  destruct (g x); simpl; [destruct (f x)|]; now rewrite IH.
Qed.

Lemma filter_all {A} (l : list A) : filter (fun _ => true) l = l.
Proof. induction l as [|x l IH]; simpl; [reflexivity|]. now rewrite IH. Qed.

(** The shape of every successful result: two filters, one after the
    other, each testing a snippet on its own. *)
Lemma filterSnippets_Ok_shape snippets opts out :
  filterSnippets snippets opts = Ok out ->
  exists sel ex : TranscriptSnippet -> bool,
    out = filter ex (filter sel snippets)
    /\ forall l, filterSnippets l opts = Ok (filter ex (filter sel l)).
Proof.
  unfold filterSnippets.
  set (excl := fun l : list TranscriptSnippet =>
                 if nonEmpty (exclude opts)
                 then Ok (filter (notExcluded (orElse (exclude opts) [])) l)
                 else Ok l).
  assert (Hex : exists ex : TranscriptSnippet -> bool,
                  forall l, excl l = Ok (filter ex l)).
  { unfold excl. destruct (nonEmpty (exclude opts)).
    - now eexists.
    - exists (fun _ => true). intros l. now rewrite filter_all. }
  destruct Hex as [ex Hex].
  destruct (nonEmpty (only opts)).
  - simpl. fold (excl (filter (fun s => Set_has (orElse (only opts) [])
                                           (Math_round (start s))) snippets)).
    rewrite Hex. intros [= <-]. eexists _, ex. split; [reflexivity|].
    intros l. simpl. apply Hex.
  - destruct (defined (from opts) || defined (to opts)).
    + destruct (num_gt _ _); [discriminate|]. simpl.
      match goal with
      | |- context [filter ?f snippets] => fold (excl (filter f snippets))
      end.
      rewrite Hex. intros [= <-]. eexists _, ex. split; [reflexivity|].
      intros l. simpl. apply Hex.
    + simpl. fold (excl snippets). rewrite Hex. intros [= <-].
      exists (fun _ => true), ex. split.
      * now rewrite filter_all.
      * intros l. simpl. fold (excl l). now rewrite Hex, filter_all.
Qed.

(** X13: filtering only removes snippets and keeps the others in their
    order; filtering the result again with the same request changes
    nothing; and a transcript can be filtered piece by piece. *)
Theorem filterSnippets_stable snippets opts out :
  filterSnippets snippets opts = Ok out ->
  subsequence out snippets
  /\ filterSnippets out opts = Ok out
  /\ (forall a b, snippets = a ++ b ->
      exists fa fb, filterSnippets a opts = Ok fa
                    /\ filterSnippets b opts = Ok fb /\ out = fa ++ fb).
Proof.
  intros H. apply filterSnippets_Ok_shape in H as (sel & ex & -> & Hall).
  split; [|split].
  - eapply subsequence_trans; apply filter_subsequence.
  - rewrite Hall. f_equal. rewrite !filter_filter.
    apply filter_ext. intros s. destruct (sel s), (ex s); reflexivity.
  - intros a b ->. exists (filter ex (filter sel a)), (filter ex (filter sel b)).
    rewrite !Hall, !filter_app. auto.
Qed.

Lemma filterSnippets_stable_witness :
  subsequence [snipB] scenario
  /\ filterSnippets [snipB]
       (mkOpts None true (Some (ofZ 60)) (Some (ofZ 61)) None None)
     = Ok [snipB].
Proof.
  destruct (filterSnippets_stable scenario
              (mkOpts None true (Some (ofZ 60)) (Some (ofZ 61)) None None)
              [snipB] eq_refl) as (H1 & H2 & _).
  split; assumption.
Defined.

(** ** Driver *)

(** X14: whatever [main] prints is the formatting of a part of the fetched
    transcript, in its order; a part restricted by a time-window option
    is always printed with timestamps; and without such an option the
    whole transcript is printed. *)
Theorem main_prints_subsequence fetch opts transcript :
  main fetch opts = Printed transcript ->
  exists v fetched shown,
    video opts = Some v /\ v <> []
    /\ fetch v = Ok fetched
    /\ subsequence shown fetched
    /\ transcript = formatTranscript shown (timestamps opts)
    /\ (shown <> fetched -> timestamps opts = true)
    /\ (from opts = None -> to opts = None -> nonEmpty (only opts) = false ->
        nonEmpty (exclude opts) = false -> shown = fetched).
Proof.
  unfold main.
  set (ranged := defined (from opts) || defined (to opts)
                 || nonEmpty (only opts) || nonEmpty (exclude opts)).
  destruct (ranged && negb (timestamps opts)) eqn:Ets; [discriminate|].
  destruct (_ && nonEmpty (only opts)); [discriminate|].
  destruct (video opts) as [[|c v]|]; try discriminate. cbn [truthy negb orElse].
  destruct (fetch (c :: v)) as [fetched|e] eqn:Ef; [|discriminate].
  cbn [bind]. destruct ranged eqn:Er.
  - destruct (filterSnippets fetched opts) as [shown|e] eqn:Es; [|discriminate].
    intros [= <-]. exists (c :: v), fetched, shown.
    split; [reflexivity|]. split; [discriminate|]. split; [exact Ef|].
    apply filterSnippets_Ok_shape in Es as (sel & ex & -> & _).
    split; [eapply subsequence_trans; apply filter_subsequence|].
    split; [reflexivity|]. split.
    + intros _. simpl in Ets. now apply negb_false_iff in Ets.
    + intros Hf Ht Ho He. subst ranged. now rewrite Hf, Ht, Ho, He in Er.
  - intros [= <-]. exists (c :: v), fetched, fetched.
    split; [reflexivity|]. split; [discriminate|]. split; [exact Ef|].
    split; [apply subsequence_refl|]. split; [reflexivity|].
    split; [congruence|auto].
Qed.

Lemma main_prints_subsequence_witness :
  exists shown,
    subsequence shown scenario
    /\ lit "[01:00] b" = formatTranscript shown true.
Proof.
  destruct (main_prints_subsequence (fun _ => Ok scenario)
              (mkOpts (Some (lit "v")) true None None (Some [ofZ 60]) None)
              (lit "[01:00] b") eq_refl)
    as (v & fetched & shown & _ & _ & Hf & Hsub & Ht & _).
  injection Hf as <-. exists shown. split; assumption.
Defined.

(** ** Timestamps, further *)

Lemma digitChar_spec (n : Z) :
  isDigit (Z.to_N (48 + n mod 10)) = true
  /\ digitVal (Z.to_N (48 + n mod 10)) = n mod 10.
Proof.
  pose proof (Z.mod_pos_bound n 10 ltac:(lia)) as H.
  split.
  - apply isDigit_range. lia.
  - unfold digitVal. lia.
Qed.

(** The digits printed for [n] read back as [n]. *)
Lemma digitsOf_spec (fuel : nat) :
  forall n acc,
    0 <= n < 10 ^ (Z.of_nat fuel + 1) ->
    exists ds,
      digitsOf fuel n acc = ds ++ acc
      /\ ds <> [] /\ forallb isDigit ds = true
      /\ forall rest, digitsPrefix 0 (ds ++ rest) = digitsPrefix n rest.
Proof.
  assert (Hone : forall n acc, 0 <= n < 10 ->
            exists ds, Z.to_N (48 + n mod 10) :: acc = ds ++ acc
              /\ ds <> [] /\ forallb isDigit ds = true
              /\ forall rest, digitsPrefix 0 (ds ++ rest) = digitsPrefix n rest).
  { intros n acc Hn. destruct (digitChar_spec n) as [Hd Hv].
    exists [Z.to_N (48 + n mod 10)]. split; [reflexivity|].
    split; [discriminate|]. split; [cbn [forallb]; now rewrite Hd|].
    intros rest. cbn [app digitsPrefix].
    rewrite Hd, Hv, Z.mod_small by lia. reflexivity. }
  induction fuel as [|fuel IH]; intros n acc Hn.
  - apply Hone. change (10 ^ (Z.of_nat 0 + 1)) with 10 in Hn. exact Hn.
  - cbn [digitsOf]. destruct (Z.eqb_spec (n / 10) 0) as [Hz|Hnz].
    + apply Hone. Z.div_mod_to_equations. lia.
    + destruct (IH (n / 10) (Z.to_N (48 + n mod 10) :: acc)) as (ds & -> & Hne & Hd & Hval).
      { replace (Z.of_nat (S fuel) + 1) with (Z.succ (Z.of_nat fuel + 1)) in Hn by lia.
        rewrite Z.pow_succ_r in Hn by lia. Z.div_mod_to_equations. lia. }
      destruct (digitChar_spec n) as [Hc Hv].
      exists (ds ++ [Z.to_N (48 + n mod 10)]).
      split; [now rewrite <- app_assoc|].
      split; [now destruct ds|].
      split; [rewrite forallb_app, Hd; cbn [forallb andb]; now rewrite Hc|].
      intros rest. rewrite <- app_assoc, Hval. cbn [app digitsPrefix].
      rewrite Hc, Hv. f_equal. Z.div_mod_to_equations. lia.
Qed.

Lemma String_int_spec (n : Z) :
  0 <= n ->
  String_int n <> [] /\ forallb isDigit (String_int n) = true
  /\ decValue (String_int n) = n.
Proof.
  intros Hn. unfold String_int. destruct (Z.ltb_spec n 0); [lia|].
  destruct (digitsOf_spec (Z.to_nat (Z.log2 n)) n []) as (ds & -> & Hne & Hd & Hv).
  - split; [assumption|]. pose proof (Z.log2_nonneg n).
    rewrite Z2Nat.id by assumption.
    destruct (Z.eq_dec n 0) as [->|Hpos]; [simpl; lia|].
    pose proof (Z.log2_spec n ltac:(lia)) as [_ Hlt].
    replace (Z.succ (Z.log2 n)) with (Z.log2 n + 1) in Hlt by lia.
    pose proof (Z.pow_le_mono_l 2 10 (Z.log2 n + 1) ltac:(lia)). lia.
  - rewrite app_nil_r. split; [assumption|]. split; [assumption|].
    unfold decValue. specialize (Hv []). now rewrite app_nil_r in Hv.
Qed.

Lemma padStart2_digits (ds : jsstring) :
  ds <> [] -> forallb isDigit ds = true ->
  padStart2 ds <> [] /\ forallb isDigit (padStart2 ds) = true
  /\ decValue (padStart2 ds) = decValue ds.
Proof.
  intros Hne Hd. destruct ds as [|c [|c' ds]]; [congruence| |auto].
  simpl in Hd. rewrite andb_true_r in Hd.
  split; [discriminate|]. split; [simpl; now rewrite Hd|].
  unfold decValue. simpl. now rewrite Hd.
Qed.

Lemma component_spec (n : Z) :
  0 <= n ->
  padStart2 (String_int n) <> []
  /\ forallb isDigit (padStart2 (String_int n)) = true
  /\ decValue (padStart2 (String_int n)) = n.
Proof.
  intros Hn. destruct (String_int_spec n Hn) as (Hne & Hd & Hv).
  destruct (padStart2_digits _ Hne Hd) as (H1 & H2 & H3).
  rewrite Hv in H3. auto.
Qed.

(** X15: for every whole number of seconds, hours above 99 included, the
    printed timestamp reads back as the same number; it has two
    components below one hour and three from one hour on. *)
Theorem formatTimestamp_reads_back (s : Z) :
  0 <= s < 2 ^ 53 ->
  parseTimeString (formatTimestamp (ofZ s)) = Ok s
  /\ length (split 58%N (formatTimestamp (ofZ s)))
     = if s <? 3600 then 2%nat else 3%nat.
Proof.
  intros [Hs _]. rewrite (formatTimestamp_int s Hs).
  set (h := s / 3600). set (m := (s mod 3600) / 60). set (sec := s mod 60).
  assert (Hh : 0 <= h) by (subst h; Z.div_mod_to_equations; lia).
  assert (Hm : 0 <= m < 60) by (subst m; Z.div_mod_to_equations; lia).
  assert (Hsec : 0 <= sec < 60) by (subst sec; Z.div_mod_to_equations; lia).
  destruct (component_spec h Hh) as (Nh & Dh & Vh).
  destruct (component_spec m ltac:(lia)) as (Nm & Dm & Vm).
  destruct (component_spec sec ltac:(lia)) as (Ns & Ds & Vs).
  destruct (digits_noBlank_noColon _ Dh) as [_ Ch].
  destruct (digits_noBlank_noColon _ Dm) as [_ Cm].
  destruct (digits_noBlank_noColon _ Ds) as [_ Cs].
  set (H := padStart2 (String_int h)) in *.
  set (M := padStart2 (String_int m)) in *.
  set (C := padStart2 (String_int sec)) in *.
  destruct (Z.ltb_spec 0 h) as [Hpos|Hzero].
  - replace (H ++ lit ":" ++ M ++ lit ":" ++ C)
      with ([] ++ (H ++ 58%N :: M ++ 58%N :: C) ++ [])
      by (now rewrite app_nil_r).
    rewrite parseTimeString_digits3 by (reflexivity || assumption).
    rewrite Vh, Vm, Vs. cbn [app]. rewrite app_nil_r.
    rewrite (split_app _ _ _ Ch), (split_app _ _ _ Cm), (split_single _ _ Cs).
    destruct (Z.leb_spec m 59), (Z.leb_spec sec 59); try lia. cbn [andb length].
    destruct (Z.ltb_spec s 3600);
      [subst h; Z.div_mod_to_equations; lia|].
    split; [|reflexivity]. f_equal. subst h m sec. Z.div_mod_to_equations. lia.
  - replace (M ++ lit ":" ++ C) with ([] ++ (M ++ 58%N :: C) ++ [])
      by (now rewrite app_nil_r).
    rewrite parseTimeString_digits2 by (reflexivity || assumption).
    rewrite Vm, Vs. cbn [app]. rewrite app_nil_r.
    rewrite (split_app _ _ _ Cm), (split_single _ _ Cs).
    destruct (Z.leb_spec sec 59); try lia. cbn [length].
    destruct (Z.ltb_spec s 3600);
      [|subst h; Z.div_mod_to_equations; lia].
    split; [|reflexivity]. f_equal. subst h m sec. Z.div_mod_to_equations. lia.
Qed.

Lemma formatTimestamp_reads_back_witness :
  formatTimestamp (ofZ 360000) = lit "100:00:00"
  /\ parseTimeString (formatTimestamp (ofZ 360000)) = Ok 360000.
Proof.
  split; [reflexivity|].
  exact (proj1 (formatTimestamp_reads_back 360000 ltac:(lia))).
Defined.

Lemma Qfloor_bounds (q : Q) :
  (inject_Z (Qfloor q) <= q)%Q /\ (q < inject_Z (Qfloor q + 1))%Q.
Proof. split; [apply Qfloor_le|apply Qlt_floor]. Qed.

Lemma Qfloor_div_int (q : Q) (d : Z) :
  0 < d -> Qfloor (q / inject_Z d) = Qfloor q / d.
Proof.
  intros Hd. destruct (Qfloor_bounds q) as [Hlo Hhi].
  assert (HD : (0 < inject_Z d)%Q)
    by (change 0%Q with (inject_Z 0); rewrite <- Zlt_Qlt; exact Hd).
  set (f := Qfloor q) in *. set (k := f / d).
  assert (Hk : d * k <= f /\ f + 1 <= d * k + d)
    by (subst k; Z.div_mod_to_equations; lia).
  apply Qfloor_unique.
  - apply Qle_shift_div_l; [exact HD|].
    rewrite <- inject_Z_mult. eapply Qle_trans; [|exact Hlo].
    rewrite <- Zle_Qle. lia.
  - apply Qlt_shift_div_r; [exact HD|].
    change 1%Q with (inject_Z 1). rewrite <- inject_Z_plus, <- inject_Z_mult.
    eapply Qlt_le_trans; [exact Hhi|]. rewrite <- Zle_Qle. lia.
Qed.

Lemma Qfloor_sub_int (q : Q) (z : Z) :
  Qfloor (q - inject_Z z) = Qfloor q - z.
Proof.
  destruct (Qfloor_bounds q) as [Hlo Hhi].
  rewrite inject_Z_plus in Hhi. change (inject_Z 1) with 1%Q in Hhi.
  apply Qfloor_unique.
  - unfold Z.sub. rewrite inject_Z_plus, inject_Z_opp.
    generalize dependent (inject_Z (Qfloor q)). generalize (inject_Z z).
    intros; lra.
  - unfold Z.sub. rewrite inject_Z_plus, inject_Z_opp.
    generalize dependent (inject_Z (Qfloor q)). generalize (inject_Z z).
    intros; lra.
Qed.

Lemma Qtrunc_div_nonneg (q : Q) (d : Z) :
  (0 <= q)%Q -> 0 < d -> Qtrunc (q / inject_Z d) = Qfloor q / d.
Proof.
  intros Hq Hd. unfold Qtrunc.
  replace (Qle_bool 0 (q / inject_Z d)) with true.
  - now apply Qfloor_div_int.
  - symmetry. apply Qle_bool_iff. apply Qle_shift_div_l.
    + change 0%Q with (inject_Z 0). now rewrite <- Zlt_Qlt.
    + now rewrite Qmult_0_l.
Qed.

Lemma rem_floor (q : Q) (d : Z) :
  (0 <= q)%Q -> 0 < d ->
  Qfloor (q - inject_Z d * inject_Z (Qtrunc (q / inject_Z d)))
  = Qfloor q mod d.
Proof.
  intros Hq Hd. rewrite (Qtrunc_div_nonneg q d Hq Hd).
  rewrite <- inject_Z_mult, Qfloor_sub_int, Z.mod_eq by lia. reflexivity.
Qed.

(** The three components computed by [formatTimestamp] depend on the
    whole part of the seconds only. *)
Lemma components_of_floor (q : Q) :
  (0 <= q)%Q ->
  Math_floor (num_div (Fin q) 3600) = ofZ (Qfloor q / 3600)
  /\ Math_floor (num_div (num_rem (Fin q) 3600) 60)
     = ofZ ((Qfloor q mod 3600) / 60)
  /\ Math_floor (num_rem (Fin q) 60) = ofZ (Qfloor q mod 60).
Proof.
  intros Hq. cbn [num_div num_rem Math_floor]. unfold ofZ.
  rewrite Qfloor_div_int by lia.
  rewrite (Qfloor_div_int _ 60) by lia.
  rewrite !rem_floor by (assumption || lia). auto.
Qed.

(** X16: fractional seconds are dropped, not rounded: the timestamp of a
    non-negative time is that of its whole part. *)
Theorem formatTimestamp_truncates (q : Q) :
  (0 <= q)%Q -> (q < inject_Z (2 ^ 53))%Q ->
  formatTimestamp (Fin q) = formatTimestamp (ofZ (Qfloor q)).
Proof.
  intros Hq _.
  assert (Hz : (0 <= inject_Z (Qfloor q))%Q).
  { change 0%Q with (inject_Z 0). rewrite <- Zle_Qle.
    apply (Qfloor_resp_le 0 q) in Hq. exact Hq. }
  destruct (components_of_floor q Hq) as (H1 & H2 & H3).
  destruct (components_of_floor (inject_Z (Qfloor q)) Hz) as (I1 & I2 & I3).
  rewrite Qfloor_Z in I1, I2, I3.
  change (ofZ (Qfloor q)) with (Fin (inject_Z (Qfloor q))).
  unfold formatTimestamp.
  now rewrite H1, H2, H3, I1, I2, I3.
Qed.

Lemma formatTimestamp_truncates_witness :
  formatTimestamp (Fin (59999 # 1000)) = lit "00:59".
Proof.
  rewrite (formatTimestamp_truncates (59999 # 1000)); [reflexivity| |];
    unfold Qle, Qlt; simpl; lia.
Defined.

(** ** Formatter *)

Lemma split_join (sep : char16) (parts : list jsstring) :
  parts <> [] ->
  Forall (fun p => forallb (notUnit sep) p = true) parts ->
  split sep (join [sep] parts) = parts.
Proof.
  intros Hne H. induction H as [|p parts Hp Hparts IH]; [congruence|].
  destruct parts as [|q parts].
  - simpl. now apply split_single.
  - change (join [sep] (p :: q :: parts))
      with (p ++ sep :: join [sep] (q :: parts)).
    rewrite (split_app _ _ _ Hp), IH; [reflexivity|discriminate].
Qed.

Lemma digitsOf_no_newline (fuel : nat) :
  forall n acc,
    forallb (notUnit 10%N) acc = true ->
    forallb (notUnit 10%N) (digitsOf fuel n acc) = true.
Proof.
  assert (Hc : forall n, notUnit 10%N (Z.to_N (48 + n mod 10)) = true).
  { intros n. destruct (digitChar_spec n) as [Hd _].
    apply isDigit_range in Hd. unfold notUnit. apply negb_true_iff.
    apply N.eqb_neq. lia. }
  induction fuel as [|fuel IH]; intros n acc Hacc; cbn [digitsOf].
  - cbn [forallb]. now rewrite Hc, Hacc.
  - destruct (n / 10 =? 0).
    + cbn [forallb]. now rewrite Hc, Hacc.
    + apply IH. cbn [forallb]. now rewrite Hc, Hacc.
Qed.

Lemma padStart2_no_newline (s : jsstring) :
  forallb (notUnit 10%N) s = true -> forallb (notUnit 10%N) (padStart2 s) = true.
Proof. destruct s as [|c [|c' s]]; simpl; auto. Qed.

Lemma String_num_no_newline (x : number) :
  forallb (notUnit 10%N) (String_num x) = true.
Proof.
  destruct x as [ | | |q]; try reflexivity.
  unfold String_num, String_int. destruct (_ <? 0).
  - cbn [forallb]. now rewrite digitsOf_no_newline.
  - now apply digitsOf_no_newline.
Qed.

Lemma formatTimestamp_no_newline (x : number) :
  forallb (notUnit 10%N) (formatTimestamp x) = true.
Proof.
  unfold formatTimestamp.
  destruct (num_gt _ _); rewrite !forallb_app;
    rewrite !padStart2_no_newline by apply String_num_no_newline;
    reflexivity.
Qed.

(** X17: each snippet is printed on a line of its own, in order: when no text
    holds a line break, cutting the output at the line breaks gives back
    one line per snippet, with its timestamp in brackets when asked. *)
Theorem formatTranscript_lines (snippets : list TranscriptSnippet)
    (withTimestamps : bool) :
  snippets <> [] ->
  Forall (fun s => forallb (notUnit 10%N) (text s) = true) snippets ->
  split 10%N (formatTranscript snippets withTimestamps)
  = map (lineOf withTimestamps) snippets.
Proof.
  intros Hne Htext.
  assert (Hfmt : formatTranscript snippets withTimestamps
                 = join [10%N] (map (lineOf withTimestamps) snippets)).
  { unfold formatTranscript, lineOf. now destruct withTimestamps. }
  rewrite Hfmt. apply split_join.
  - now destruct snippets.
  - apply Forall_map. eapply Forall_impl; [|exact Htext].
    intros s Hs. unfold lineOf. destruct withTimestamps; [|exact Hs].
    rewrite !forallb_app, formatTimestamp_no_newline, Hs. reflexivity.
Qed.

Lemma formatTranscript_lines_witness :
  split 10%N (formatTranscript scenario true)
  = [lit "[00:58] a"; lit "[01:00] b"; lit "[01:01] c"].
Proof.
  rewrite (formatTranscript_lines scenario true ltac:(discriminate)).
  - reflexivity.
  - repeat constructor.
Defined.

(** ** Text normalization *)

(** X18: text is copied up to its first ampersand; text without ampersand
    comes back unchanged. *)
Theorem unescapeHtml_plain_prefix (t s : jsstring) :
  forallb (notUnit 38%N) t = true ->
  unescapeHtml (t ++ s) = t ++ unescapeHtml s
  /\ unescapeHtml t = t.
Proof.
  intros Ht.
  assert (H : forall s, unescapeHtml (t ++ s) = t ++ unescapeHtml s).
  { intros s'. unfold unescapeHtml.
    repeat rewrite (replaceAll_plain _ _ t) by (reflexivity || assumption).
    repeat rewrite (replaceEntity_plain _ _ _ t) by (reflexivity || assumption).
    reflexivity. }
  split; [apply H|].
  rewrite <- (app_nil_r t) at 1. rewrite H.
  change (unescapeHtml []) with (@nil N). apply app_nil_r.
Qed.

Lemma unescapeHtml_plain_prefix_witness :
  unescapeHtml (lit "Tom <3 " ++ lit "&amp; Jerry") = lit "Tom <3 & Jerry".
Proof.
  rewrite (proj1 (unescapeHtml_plain_prefix (lit "Tom <3 ") (lit "&amp; Jerry")
                    eq_refl)).
  reflexivity.
Defined.

Lemma stripTags_keeps (p : char16 -> bool) (s : jsstring) :
  forall k, forallb p s = true -> forallb p (stripTags k s) = true.
Proof.
  induction s as [|c s IH]; intros k H; [reflexivity|].
  simpl in H. apply andb_true_iff in H as [Hc Hs].
  cbn [stripTags]. destruct k as [|k]; [|now apply IH].
  destruct (N.eqb c 60%N).
  - destruct (indexOf 62%N s); [now apply IH|].
    cbn [forallb]. now rewrite Hc, IH.
  - cbn [forallb]. now rewrite Hc, IH.
Qed.

Lemma stripTags_noTagLeft (s : jsstring) :
  forall k, noTagLeft (stripTags k s) = true.
Proof.
  induction s as [|c s IH]; intros k; [reflexivity|].
  cbn [stripTags]. destruct k as [|k]; [|apply IH].
  destruct (N.eqb c 60%N) eqn:Ec.
  - destruct (indexOf 62%N s) as [i|] eqn:Ei; [apply IH|].
    cbn [noTagLeft]. rewrite Ec, IH, andb_true_r.
    apply stripTags_keeps. now apply indexOf_none.
  - cbn [noTagLeft]. now rewrite Ec, IH.
Qed.

Lemma noTagLeft_split (s a b : jsstring) :
  noTagLeft s = true -> s = a ++ 60%N :: b -> forallb (notUnit 62%N) b = true.
Proof.
  revert s. induction a as [|x a IH]; intros s H ->.
  - simpl in H. now apply andb_true_iff in H as [H _].
  - simpl in H. apply andb_true_iff in H as [_ H]. now apply (IH _ H).
Qed.

Lemma stripTags_plain (s : jsstring) :
  forallb (notUnit 60%N) s = true -> stripTags 0 s = s.
Proof.
  induction s as [|c s IH]; [reflexivity|]. simpl.
  intros H. apply andb_true_iff in H as [Hc Hs].
  unfold notUnit in Hc. apply negb_true_iff in Hc. now rewrite Hc, IH.
Qed.

(** X19: after tag-stripping no tag is left: wherever a [<] remains, no [>]
    follows it.  Text without [<] is not touched. *)
Theorem stripTags_leaves_no_tag (s : jsstring) :
  (forall a b, stripTags 0 s = a ++ 60%N :: b ->
     forallb (notUnit 62%N) b = true)
  /\ (forallb (notUnit 60%N) s = true -> stripTags 0 s = s).
Proof.
  split.
  - intros a b. apply noTagLeft_split, stripTags_noTagLeft.
  - apply stripTags_plain.
Qed.

Lemma stripTags_leaves_no_tag_witness :
  stripTags 0 (lit "x > y, a <i>c</i> < d") = lit "x > y, a c < d"
  /\ forallb (notUnit 62%N) (lit " d") = true.
Proof.
  split; [reflexivity|].
  exact (proj1 (stripTags_leaves_no_tag (lit "x > y, a <i>c</i> < d"))
           (lit "x > y, a c ") (lit " d") eq_refl).
Defined.

(** ** Time arguments, further *)

Lemma trimStart_all_blank (ws : jsstring) :
  forallb isWhiteSpace ws = true -> trimStart ws = [].
Proof.
  intros H. rewrite <- (app_nil_r ws). now rewrite trimStart_blank.
Qed.

Lemma trimStart_app_blank (s ws : jsstring) :
  forallb isWhiteSpace ws = true ->
  trimStart (s ++ ws)
  = match trimStart s with [] => [] | _ => trimStart s ++ ws end.
Proof.
  intros H. induction s as [|c s IH]; simpl.
  - now apply trimStart_all_blank.
  - now destruct (isWhiteSpace c).
Qed.

Lemma trim_blank (ws1 s ws2 : jsstring) :
  forallb isWhiteSpace ws1 = true ->
  forallb isWhiteSpace ws2 = true ->
  trim (ws1 ++ s ++ ws2) = trim s.
Proof.
  intros H1 H2. unfold trim.
  rewrite (trimStart_blank _ _ H1), (trimStart_app_blank _ _ H2).
  destruct (trimStart s) as [|c t]; [reflexivity|].
  unfold trimEnd. rewrite rev_app_distr, trimStart_blank; [reflexivity|].
  now rewrite forallb_rev.
Qed.

(** X20: blanks around a time argument do not matter: the argument is read,
    or rejected, exactly as without them. *)
Theorem parseTimeString_trims (ws1 s ws2 : jsstring) :
  forallb isWhiteSpace ws1 = true ->
  forallb isWhiteSpace ws2 = true ->
  parseTimeString (ws1 ++ s ++ ws2) = parseTimeString s.
Proof.
  intros H1 H2. unfold parseTimeString. now rewrite trim_blank.
Qed.

Lemma parseTimeString_trims_witness :
  parseTimeString (lit "  " ++ lit "1:30" ++ 9%N :: lit " ") = Ok 90.
Proof.
  rewrite (parseTimeString_trims (lit "  ") (lit "1:30") (9%N :: lit " ")
             eq_refl eq_refl).
  reflexivity.
Defined.

(** ** Entity decoder, further *)

Lemma replaceAll_id pat rep (w : jsstring) :
  hd_error pat = Some 38%N ->
  forallb (notUnit 38%N) w = true ->
  replaceAll pat rep w = w.
Proof.
  intros Hp Hw. rewrite <- (app_nil_r w) at 1.
  rewrite (replaceAll_plain _ _ _ _ Hp Hw). apply app_nil_r.
Qed.

Lemma replaceEntity_id open digit value (w : jsstring) :
  hd_error open = Some 38%N ->
  forallb (notUnit 38%N) w = true ->
  replaceEntity open digit value 0 w = w.
Proof.
  intros Hp Hw. rewrite <- (app_nil_r w) at 1.
  rewrite (replaceEntity_plain _ _ _ _ _ Hp Hw). apply app_nil_r.
Qed.

Lemma replaceAll_miss pat rep (r : jsstring) :
  startsWith pat (38%N :: r) = false ->
  hd_error pat = Some 38%N ->
  forallb (notUnit 38%N) r = true ->
  replaceAll pat rep (38%N :: r) = 38%N :: r.
Proof.
  intros Hs Hp Hr. unfold replaceAll. cbn [replaceLit]. rewrite Hs.
  f_equal. now apply replaceAll_id.
Qed.

Lemma replaceEntity_skip open digit value (a s : jsstring) (k : nat) :
  replaceEntity open digit value (length a + k) (a ++ s)
  = replaceEntity open digit value k s.
Proof. induction a as [|x a IH]; simpl; auto. Qed.

Lemma replaceEntity_hit open digit value (c : char16) (s code : jsstring)
    (len : nat) :
  matchEntity open digit (c :: s) = Some (code, len) ->
  replaceEntity open digit value 0 (c :: s)
  = fromCharCode (value code) ++ replaceEntity open digit value (len - 1) s.
Proof.
  intros H.
  change (replaceEntity open digit value 0 (c :: s))
    with (match matchEntity open digit (c :: s) with
          | Some (code, len) =>
              fromCharCode (value code)
                ++ replaceEntity open digit value (len - 1) s
          | None => c :: replaceEntity open digit value 0 s
          end).
  now rewrite H.
Qed.

Lemma digit_not_amp (ds : jsstring) :
  forallb isDigit ds = true -> forallb (notUnit 38%N) ds = true.
Proof.
  induction ds as [|c ds IH]; simpl; [reflexivity|].
  intros H. apply andb_true_iff in H as [Hc Hds]. rewrite (IH Hds).
  apply isDigit_range in Hc. unfold notUnit.
  replace (N.eqb c 38) with false; [reflexivity|].
  symmetry. apply N.eqb_neq. lia.
Qed.

Lemma unescapeHtml_id (w : jsstring) :
  forallb (notUnit 38%N) w = true -> unescapeHtml w = w.
Proof.
  intros Hw. unfold unescapeHtml.
  repeat rewrite (replaceAll_id _ _ w) by (reflexivity || assumption).
  repeat rewrite (replaceEntity_id _ _ _ w) by (reflexivity || assumption).
  reflexivity.
Qed.

(** The last pass on a single unit. *)
Lemma hex_pass_unit (c : char16) :
  replaceEntity (lit "&#x") isHexDigit hexValue 0 [c] = [c].
Proof.
  cbn [replaceEntity]. unfold matchEntity.
  change (startsWith (lit "&#x") [c]) with (N.eqb 38 c && false).
  now rewrite andb_false_r.
Qed.

(** A decimal reference between ampersand-free texts, in terms of the
    exact value of its digits. *)
Lemma decimal_reference_decoded (t ds u : jsstring) :
  forallb (notUnit 38%N) t = true ->
  ds <> [] ->
  forallb isDigit ds = true ->
  forallb (notUnit 38%N) u = true ->
  decValue ds mod 65536 <> 38 \/ u = [] ->
  unescapeHtml (t ++ lit "&#" ++ ds ++ lit ";" ++ u)
  = t ++ fromCharCode (decValue ds) ++ u.
Proof.
  intros Ht Hne Hds Hu Hc.
  change (t ++ lit "&#" ++ ds ++ lit ";" ++ u)
    with (t ++ 38%N :: 35%N :: ds ++ 59%N :: u).
  assert (Hr : forallb (notUnit 38%N) (35%N :: ds ++ 59%N :: u) = true).
  { cbn [forallb]. rewrite forallb_app. cbn [forallb].
    now rewrite (digit_not_amp _ Hds), Hu. }
  destruct (startsWith (lit "&#39;") (38%N :: 35%N :: ds ++ 59%N :: u)) eqn:E5.
  - (* the reference is the one of the apostrophe *)
    assert (ds = lit "39") as ->.
    { apply startsWith_prefix in E5 as [b E].
      change (lit "&#39;" ++ b) with (38%N :: 35%N :: 51%N :: 57%N :: 59%N :: b)
        in E.
      destruct ds as [|d1 [|d2 [|d3 ds]]]; [congruence| | |].
      - discriminate E.
      - now injection E as -> ->.
      - injection E as _ _ E _. subst d3.
        cbn [forallb] in Hds.
        apply andb_true_iff in Hds as [_ Hds].
        apply andb_true_iff in Hds as [_ Hds].
        apply andb_true_iff in Hds as [Hd _]. discriminate Hd. }
    unfold unescapeHtml.
    rewrite (replaceAll_plain (lit "&amp;") _ t), replaceAll_miss;
      try reflexivity; try assumption.
    rewrite (replaceAll_plain (lit "&lt;") _ t), replaceAll_miss;
      try reflexivity; try assumption.
    rewrite (replaceAll_plain (lit "&gt;") _ t), replaceAll_miss;
      try reflexivity; try assumption.
    rewrite (replaceAll_plain (lit "&quot;") _ t), replaceAll_miss;
      try reflexivity; try assumption.
    rewrite (replaceAll_plain (lit "&#39;") _ t); try reflexivity; try assumption.
    change (38%N :: 35%N :: lit "39" ++ 59%N :: u) with (lit "&#39;" ++ u).
    rewrite replaceAll_hit by discriminate.
    rewrite (replaceAll_id (lit "&#39;") _ u) by (reflexivity || assumption).
    assert (Hw : forallb (notUnit 38%N) (t ++ lit "'" ++ u) = true).
    { rewrite !forallb_app, Ht, Hu. reflexivity. }
    repeat rewrite (replaceAll_id _ _ (t ++ lit "'" ++ u))
      by (reflexivity || assumption).
    repeat rewrite (replaceEntity_id _ _ _ (t ++ lit "'" ++ u))
      by (reflexivity || assumption).
    reflexivity.
  - destruct ds as [|d ds]; [congruence|].
    assert (Hd : isDigit d = true).
    { simpl in Hds. now apply andb_true_iff in Hds as [Hd _]. }
    assert (Hx : N.eqb 120 d = false).
    { apply isDigit_range in Hd. apply N.eqb_neq. lia. }
    assert (H7 : forall p,
               startsWith (38%N :: 35%N :: 120%N :: p)
                 (38%N :: 35%N :: (d :: ds) ++ 59%N :: u) = false).
    { intros p.
      change (N.eqb 120 d && startsWith p (ds ++ 59%N :: u) = false).
      now rewrite Hx. }
    unfold unescapeHtml.
    rewrite (replaceAll_plain (lit "&amp;") _ t), replaceAll_miss;
      try reflexivity; try assumption.
    rewrite (replaceAll_plain (lit "&lt;") _ t), replaceAll_miss;
      try reflexivity; try assumption.
    rewrite (replaceAll_plain (lit "&gt;") _ t), replaceAll_miss;
      try reflexivity; try assumption.
    rewrite (replaceAll_plain (lit "&quot;") _ t), replaceAll_miss;
      try reflexivity; try assumption.
    rewrite (replaceAll_plain (lit "&#39;") _ t), replaceAll_miss;
      try reflexivity; try assumption.
    rewrite (replaceAll_plain (lit "&apos;") _ t), replaceAll_miss;
      try reflexivity; try assumption.
    rewrite (replaceAll_plain (lit "&#x27;") _ t), replaceAll_miss;
      try reflexivity; try assumption; try apply H7.
    rewrite (replaceAll_plain (lit "&#x2F;") _ t), replaceAll_miss;
      try reflexivity; try assumption; try apply H7.
    rewrite (replaceEntity_plain (lit "&#") _ _ t) by (reflexivity || assumption).
    assert (Hm : matchEntity (lit "&#") isDigit
                   (38%N :: 35%N :: (d :: ds) ++ 59%N :: u)
                 = Some (d :: ds, (2 + length (d :: ds) + 1)%nat)).
    { unfold matchEntity.
      change (startsWith (lit "&#") (38%N :: 35%N :: (d :: ds) ++ 59%N :: u))
        with true.
      change (skipn (length (lit "&#")) (38%N :: 35%N :: (d :: ds) ++ 59%N :: u))
        with ((d :: ds) ++ 59%N :: u).
      rewrite (span_app isDigit (d :: ds) (59%N :: u) Hds eq_refl).
      reflexivity. }
    assert (Hk : forall k,
               k = (length (35%N :: (d :: ds) ++ [59%N]) + 0)%nat ->
               replaceEntity (lit "&#") isDigit decValue k
                 (35%N :: (d :: ds) ++ 59%N :: u)
               = replaceEntity (lit "&#") isDigit decValue 0 u).
    { intros k ->.
      rewrite <- (replaceEntity_skip _ _ _ (35%N :: (d :: ds) ++ [59%N]) u 0).
      f_equal. cbn [app]. now rewrite <- app_assoc. }
    rewrite (replaceEntity_hit _ _ _ _ _ _ _ Hm), Hk
      by (cbn [length]; rewrite length_app; cbn [length]; lia).
    rewrite (replaceEntity_id _ _ _ u) by (reflexivity || assumption).
    destruct Hc as [Hc| ->].
    + apply replaceEntity_id; [reflexivity|].
      rewrite !forallb_app, Ht, Hu. unfold fromCharCode. cbn [forallb].
      unfold notUnit.
      replace (N.eqb (Z.to_N (decValue (d :: ds) mod 65536)) 38)
        with false; [reflexivity|].
      symmetry. apply N.eqb_neq. intros E. apply Hc.
      assert (0 <= decValue (d :: ds) mod 65536)
        by (apply Z.mod_pos_bound; lia).
      lia.
    + rewrite (replaceEntity_plain _ _ _ t) by (reflexivity || assumption).
      rewrite app_nil_r. unfold fromCharCode. now rewrite hex_pass_unit.
Qed.

(** X21: a decimal character reference between ampersand-free texts is
    replaced by the single code unit of its value modulo 2^16 (so a value
    above 65535 does not give the character of that code point).  The
    value is taken below 2^53, where the integer that the runtime reads
    is the exact one. *)
Theorem unescapeHtml_decimal_reference (t ds u : jsstring) :
  forallb (notUnit 38%N) t = true ->
  ds <> [] ->
  forallb isDigit ds = true ->
  forallb (notUnit 38%N) u = true ->
  decValue ds < 2 ^ 53 ->
  decValue ds mod 65536 <> 38 ->
  unescapeHtml (t ++ lit "&#" ++ ds ++ lit ";" ++ u)
  = t ++ fromCharCode (decValue ds) ++ u.
Proof.
  intros Ht Hne Hds Hu _ Hc. apply decimal_reference_decoded; auto.
Qed.


Lemma unescapeHtml_decimal_reference_witness :
  unescapeHtml (lit "caf" ++ lit "&#" ++ lit "233" ++ lit ";" ++ lit " au lait")
  = lit "caf" ++ [233%N] ++ lit " au lait"
  /\ unescapeHtml (lit "&#" ++ lit "65601" ++ lit ";") = lit "A".
Proof.
  split.
  - rewrite (unescapeHtml_decimal_reference (lit "caf") (lit "233")
               (lit " au lait") eq_refl ltac:(discriminate) eq_refl eq_refl
               eq_refl ltac:(vm_compute; discriminate)).
    reflexivity.
  - apply (unescapeHtml_decimal_reference [] (lit "65601") [] eq_refl
             ltac:(discriminate) eq_refl eq_refl eq_refl
             ltac:(vm_compute; discriminate)).
Defined.

(** ** Entity decoder: double escapes *)

Lemma hexDigit_not_amp (hs : jsstring) :
  forallb isHexDigit hs = true -> forallb (notUnit 38%N) hs = true.
Proof.
  induction hs as [|c hs IH]; simpl; [reflexivity|].
  intros H. apply andb_true_iff in H as [Hc Hhs]. rewrite (IH Hhs).
  unfold notUnit. replace (N.eqb c 38) with false; [reflexivity|].
  symmetry. apply N.eqb_neq. intros ->. discriminate Hc.
Qed.

(** A run of units of a class that excludes the semicolon, followed by a
    semicolon, starts with two given units and a semicolon only if it is
    these two units. *)
Lemma two_units_then_semicolon (p : char16 -> bool) (hs u b : jsstring)
    (x y : char16) :
  forallb p hs = true -> p 59%N = false ->
  x <> 59%N -> y <> 59%N ->
  hs ++ 59%N :: u = x :: y :: 59%N :: b ->
  hs = [x; y] /\ u = b.
Proof.
  intros Hp H59 Hx Hy E. destruct hs as [|d1 [|d2 [|d3 hs]]].
  - injection E as E _. congruence.
  - injection E as _ E _. congruence.
  - injection E as -> -> ->. auto.
  - injection E as _ _ E _. subst d3. cbn [forallb] in Hp.
    apply andb_true_iff in Hp as [_ Hp].
    apply andb_true_iff in Hp as [_ Hp].
    apply andb_true_iff in Hp as [Hp _]. congruence.
Qed.

Lemma replaceEntity_miss open digit value (r : jsstring) :
  matchEntity open digit (38%N :: r) = None ->
  hd_error open = Some 38%N ->
  forallb (notUnit 38%N) r = true ->
  replaceEntity open digit value 0 (38%N :: r) = 38%N :: r.
Proof.
  intros Hm Hp Hr.
  change (replaceEntity open digit value 0 (38%N :: r))
    with (match matchEntity open digit (38%N :: r) with
          | Some (code, len) =>
              fromCharCode (value code)
                ++ replaceEntity open digit value (len - 1) r
          | None => 38%N :: replaceEntity open digit value 0 r
          end).
  rewrite Hm. f_equal. now apply replaceEntity_id.
Qed.

(** The first pass turns an escaped ampersand into the ampersand that
    the later passes see; what follows it must not spell the escape
    again. *)
Lemma unescapeHtml_escaped_amp (t w : jsstring) :
  forallb (notUnit 38%N) t = true ->
  startsWith (lit "&amp;") (38%N :: w) = false ->
  unescapeHtml (t ++ lit "&amp;" ++ w) = unescapeHtml (t ++ 38%N :: w).
Proof.
  intros Ht Hw.
  assert (H : replaceAll (lit "&amp;") (lit "&") (t ++ lit "&amp;" ++ w)
              = replaceAll (lit "&amp;") (lit "&") (t ++ 38%N :: w)).
  { rewrite !(replaceAll_plain (lit "&amp;") _ t) by (reflexivity || assumption).
    rewrite replaceAll_hit by discriminate. f_equal.
    unfold replaceAll at 2. cbn [replaceLit]. now rewrite Hw. }
  unfold unescapeHtml. now rewrite H.
Qed.

Ltac miss_pass pat t :=
  rewrite (replaceAll_plain pat _ t), replaceAll_miss;
  try reflexivity; try assumption.

(** A hexadecimal reference between ampersand-free texts, in terms of
    the exact value of its digits. *)
Lemma hex_reference_decoded (t hs u : jsstring) :
  forallb (notUnit 38%N) t = true ->
  hs <> [] ->
  forallb isHexDigit hs = true ->
  forallb (notUnit 38%N) u = true ->
  unescapeHtml (t ++ lit "&#x" ++ hs ++ lit ";" ++ u)
  = t ++ fromCharCode (hexValue hs) ++ u.
Proof.
  intros Ht Hne Hhs Hu.
  change (t ++ lit "&#x" ++ hs ++ lit ";" ++ u)
    with (t ++ 38%N :: 35%N :: 120%N :: hs ++ 59%N :: u).
  assert (Hr : forallb (notUnit 38%N) (35%N :: 120%N :: hs ++ 59%N :: u) = true).
  { cbn [forallb]. rewrite forallb_app. cbn [forallb].
    now rewrite (hexDigit_not_amp _ Hhs), Hu. }
  assert (Hlit : forall c, c <> 38%N ->
            forallb (notUnit 38%N) (t ++ c :: u) = true).
  { intros c Hc. rewrite forallb_app. cbn [forallb]. rewrite Ht, Hu.
    unfold notUnit. apply N.eqb_neq in Hc. now rewrite Hc. }
  unfold unescapeHtml.
  miss_pass (lit "&amp;") t. miss_pass (lit "&lt;") t.
  miss_pass (lit "&gt;") t. miss_pass (lit "&quot;") t.
  miss_pass (lit "&#39;") t. miss_pass (lit "&apos;") t.
  destruct (startsWith (lit "&#x27;")
              (38%N :: 35%N :: 120%N :: hs ++ 59%N :: u)) eqn:E7.
  { (* the reference is the apostrophe of the seventh pass *)
    apply startsWith_prefix in E7 as [b E].
    change (lit "&#x27;" ++ b)
      with (38%N :: 35%N :: 120%N :: 50%N :: 55%N :: 59%N :: b) in E.
    injection E as E.
    destruct (two_units_then_semicolon isHexDigit hs u b 50%N 55%N Hhs
                eq_refl ltac:(discriminate) ltac:(discriminate) E)
      as [-> _].
    rewrite (replaceAll_plain (lit "&#x27;") _ t) by (reflexivity || assumption).
    change (38%N :: 35%N :: 120%N :: [50%N; 55%N] ++ 59%N :: u)
      with (lit "&#x27;" ++ u).
    rewrite replaceAll_hit by discriminate.
    rewrite (replaceAll_id (lit "&#x27;") _ u) by (reflexivity || assumption).
    assert (Hw : forallb (notUnit 38%N) (t ++ lit "'" ++ u) = true)
      by (apply (Hlit 39%N); discriminate).
    rewrite (replaceAll_id _ _ (t ++ lit "'" ++ u))
      by (reflexivity || assumption).
    rewrite !(replaceEntity_id _ _ _ (t ++ lit "'" ++ u))
      by (reflexivity || assumption).
    reflexivity. }
  miss_pass (lit "&#x27;") t.
  destruct (startsWith (lit "&#x2F;")
              (38%N :: 35%N :: 120%N :: hs ++ 59%N :: u)) eqn:E8.
  { (* the reference is the slash of the eighth pass *)
    apply startsWith_prefix in E8 as [b E].
    change (lit "&#x2F;" ++ b)
      with (38%N :: 35%N :: 120%N :: 50%N :: 70%N :: 59%N :: b) in E.
    injection E as E.
    destruct (two_units_then_semicolon isHexDigit hs u b 50%N 70%N Hhs
                eq_refl ltac:(discriminate) ltac:(discriminate) E)
      as [-> _].
    rewrite (replaceAll_plain (lit "&#x2F;") _ t) by (reflexivity || assumption).
    change (38%N :: 35%N :: 120%N :: [50%N; 70%N] ++ 59%N :: u)
      with (lit "&#x2F;" ++ u).
    rewrite replaceAll_hit by discriminate.
    rewrite (replaceAll_id (lit "&#x2F;") _ u) by (reflexivity || assumption).
    assert (Hw : forallb (notUnit 38%N) (t ++ lit "/" ++ u) = true)
      by (apply (Hlit 47%N); discriminate).
    rewrite !(replaceEntity_id _ _ _ (t ++ lit "/" ++ u))
      by (reflexivity || assumption).
    reflexivity. }
  miss_pass (lit "&#x2F;") t.
  (* the decimal pass finds no digit after the opening *)
  rewrite (replaceEntity_plain (lit "&#") _ _ t) by (reflexivity || assumption).
  rewrite replaceEntity_miss; try reflexivity; try assumption.
  (* the hexadecimal pass *)
  rewrite (replaceEntity_plain (lit "&#x") _ _ t) by (reflexivity || assumption).
  destruct hs as [|d hs]; [congruence|].
  assert (Hm : matchEntity (lit "&#x") isHexDigit
                 (38%N :: 35%N :: 120%N :: (d :: hs) ++ 59%N :: u)
               = Some (d :: hs, (3 + length (d :: hs) + 1)%nat)).
  { unfold matchEntity.
    change (startsWith (lit "&#x")
              (38%N :: 35%N :: 120%N :: (d :: hs) ++ 59%N :: u)) with true.
    change (skipn (length (lit "&#x"))
              (38%N :: 35%N :: 120%N :: (d :: hs) ++ 59%N :: u))
      with ((d :: hs) ++ 59%N :: u).
    rewrite (span_app isHexDigit (d :: hs) (59%N :: u) Hhs eq_refl).
    reflexivity. }
  assert (Hk : forall k,
             k = (length (35%N :: 120%N :: (d :: hs) ++ [59%N]) + 0)%nat ->
             replaceEntity (lit "&#x") isHexDigit hexValue k
               (35%N :: 120%N :: (d :: hs) ++ 59%N :: u)
             = replaceEntity (lit "&#x") isHexDigit hexValue 0 u).
  { intros k ->.
    rewrite <- (replaceEntity_skip _ _ _
                  (35%N :: 120%N :: (d :: hs) ++ [59%N]) u 0).
    f_equal. cbn [app]. now rewrite <- app_assoc. }
  rewrite (replaceEntity_hit _ _ _ _ _ _ _ Hm), Hk
    by (cbn [length]; rewrite length_app; cbn [length]; lia).
  now rewrite (replaceEntity_id _ _ _ u) by (reflexivity || assumption).
Qed.

Lemma stripTags_plain_app (a s : jsstring) :
  forallb (notUnit 60%N) a = true ->
  stripTags 0 (a ++ s) = a ++ stripTags 0 s.
Proof.
  induction a as [|c a IH]; [reflexivity|]. simpl.
  intros H. apply andb_true_iff in H as [Hc Ha].
  unfold notUnit in Hc. apply negb_true_iff in Hc. now rewrite Hc, IH.
Qed.

(** A doubly-escaped pair of angle brackets inside plain text. *)
Lemma double_escaped_tag (a tag b : jsstring) :
  forallb plainUnit a = true -> forallb plainUnit tag = true ->
  forallb plainUnit b = true ->
  unescapeHtml (a ++ lit "&amp;lt;" ++ tag ++ lit "&amp;gt;" ++ b)
  = a ++ lit "<" ++ tag ++ lit ">" ++ b.
Proof.
  intros Ha Htag Hb.
  apply plain_parts in Ha as (Ha & _ & _).
  apply plain_parts in Htag as (Ht & _ & _).
  apply plain_parts in Hb as (Hb & _ & _).
  unfold unescapeHtml.
  (* first pass: both ampersands are decoded *)
  change (a ++ lit "&amp;lt;" ++ tag ++ lit "&amp;gt;" ++ b)
    with (a ++ lit "&amp;" ++ (lit "lt;" ++ tag) ++ lit "&amp;"
            ++ (lit "gt;" ++ b)).
  assert (Hlt : forallb (notUnit 38%N) (lit "lt;" ++ tag) = true)
    by (rewrite forallb_app, Ht; reflexivity).
  assert (Hgt : forallb (notUnit 38%N) (lit "gt;" ++ b) = true)
    by (rewrite forallb_app, Hb; reflexivity).
  rewrite (replaceAll_plain (lit "&amp;") _ a) by (reflexivity || assumption).
  rewrite replaceAll_hit by discriminate.
  rewrite (replaceAll_plain (lit "&amp;") _ (lit "lt;" ++ tag))
    by (reflexivity || assumption).
  rewrite replaceAll_hit by discriminate.
  rewrite (replaceAll_id (lit "&amp;") _ (lit "gt;" ++ b))
    by (reflexivity || assumption).
  (* second pass: the opening bracket *)
  change (a ++ lit "&" ++ (lit "lt;" ++ tag) ++ lit "&" ++ lit "gt;" ++ b)
    with (a ++ lit "&lt;" ++ tag ++ 38%N :: lit "gt;" ++ b).
  rewrite (replaceAll_plain (lit "&lt;") _ a) by (reflexivity || assumption).
  rewrite replaceAll_hit by discriminate.
  rewrite (replaceAll_plain (lit "&lt;") _ tag) by (reflexivity || assumption).
  rewrite replaceAll_miss by (reflexivity || assumption).
  (* third pass: the closing bracket *)
  set (v := a ++ lit "<" ++ tag).
  assert (Hv : forallb (notUnit 38%N) v = true)
    by (unfold v; rewrite !forallb_app, Ha, Ht; reflexivity).
  replace (a ++ lit "<" ++ tag ++ 38%N :: lit "gt;" ++ b)
    with (v ++ lit "&gt;" ++ b)
    by (unfold v; now rewrite <- !app_assoc).
  rewrite (replaceAll_plain (lit "&gt;") _ v) by (reflexivity || assumption).
  rewrite replaceAll_hit by discriminate.
  rewrite (replaceAll_id (lit "&gt;") _ b) by (reflexivity || assumption).
  (* the remaining passes find no ampersand *)
  set (w := v ++ lit ">" ++ b).
  assert (Hw : forallb (notUnit 38%N) w = true)
    by (unfold w; rewrite !forallb_app, Hv, Hb; reflexivity).
  rewrite !(replaceAll_id _ _ w) by (reflexivity || assumption).
  rewrite !(replaceEntity_id _ _ _ w) by (reflexivity || assumption).
  unfold w, v. now rewrite <- !app_assoc.
Qed.

Lemma normalizeText_double_escaped_tag (a tag b : jsstring) :
  forallb plainUnit a = true -> forallb plainUnit tag = true ->
  forallb plainUnit b = true ->
  normalizeText (a ++ lit "&amp;lt;" ++ tag ++ lit "&amp;gt;" ++ b)
  = trim (a ++ b).
Proof.
  intros Ha Htag Hb. unfold normalizeText.
  rewrite (double_escaped_tag _ _ _ Ha Htag Hb).
  apply plain_parts in Ha as (_ & Ha & _).
  apply plain_parts in Htag as (_ & _ & Htag).
  apply plain_parts in Hb as (_ & Hb & _).
  rewrite (stripTags_plain_app _ _ Ha).
  change (lit "<" ++ tag ++ lit ">" ++ b) with (60%N :: tag ++ 62%N :: b).
  now rewrite (stripTags_tag _ _ Htag), (stripTags_plain _ Hb).
Qed.

Ltac amp_free :=
  first [ reflexivity | assumption
        | simpl; assumption
        | rewrite !forallb_app; simpl;
          repeat match goal with H : forallb _ _ = true |- _ => rewrite H end;
          reflexivity ].

Ltac literal_passes t u :=
  repeat first
    [ rewrite (replaceAll_plain _ _ t), replaceAll_miss by amp_free
    | rewrite (replaceAll_plain _ _ t) by amp_free;
      match goal with
      | |- context [replaceAll ?pat ?rep (38%N :: ?r)] =>
          change (38%N :: r) with (pat ++ u);
          rewrite replaceAll_hit by discriminate;
          rewrite (replaceAll_id pat rep u) by amp_free;
          rewrite ?(replaceAll_id _ _ (t ++ rep ++ u)) by amp_free;
          rewrite ?(replaceEntity_id _ _ _ (t ++ rep ++ u)) by amp_free
      end ].

(** The named and fixed entities of the later passes, doubly escaped,
    between ampersand-free texts. *)
Lemma later_entities_in_context :
  Forall (fun e => forall t u,
            forallb (notUnit 38%N) t = true ->
            forallb (notUnit 38%N) u = true ->
            unescapeHtml (t ++ lit "&amp;" ++ fst e ++ u) = t ++ snd e ++ u)
         laterEntities.
Proof.
  unfold laterEntities.
  repeat (constructor;
    [intros t u Ht Hu; cbn [fst snd];
     rewrite unescapeHtml_escaped_amp by (reflexivity || assumption)|]).
  - unfold unescapeHtml. literal_passes t u. reflexivity.
  - unfold unescapeHtml. literal_passes t u. reflexivity.
  - unfold unescapeHtml. literal_passes t u. reflexivity.
  - unfold unescapeHtml. literal_passes t u. reflexivity.
  - unfold unescapeHtml. literal_passes t u. reflexivity.
  - unfold unescapeHtml. literal_passes t u. reflexivity.
  - unfold unescapeHtml. literal_passes t u. reflexivity.
  - apply (decimal_reference_decoded t (lit "65") u); auto;
      [discriminate|left; vm_compute; discriminate].
  - apply (hex_reference_decoded t (lit "41") u); auto; discriminate.
  - constructor.
Qed.

(** C10, amended: the replacements run one after the other, [&amp;]
    first, so a doubly-escaped entity whose inner entity belongs to a
    later pass is unescaped completely by one call, as [&amp;lt;] is: the
    named and fixed entities of the later passes, alone or between
    ampersand-free texts, and every decimal or hexadecimal reference
    between such texts (read with its exact value, below 2^53; a decimal
    reference to the ampersand only at the end of the text).  In
    [parseTranscriptXml] the brackets so obtained, in an otherwise plain
    inner text, are removed by the tag-stripping step together with what
    they enclose. *)
Theorem unescapeHtml_double_escape :
  unescapeHtml (lit "&amp;lt;") = lit "<"
  /\ unescapeHtml (lit "&amp;lt;") <> lit "&lt;"
  /\ replaceAll (lit "&lt;") (lit "<")
       (replaceAll (lit "&amp;") (lit "&") (lit "&amp;lt;")) = lit "<"
  /\ Forall (fun e => unescapeHtml (lit "&amp;" ++ fst e) = snd e)
            laterEntities
  /\ Forall (fun e => forall t u,
               forallb (notUnit 38%N) t = true ->
               forallb (notUnit 38%N) u = true ->
               unescapeHtml (t ++ lit "&amp;" ++ fst e ++ u)
               = t ++ snd e ++ u)
            laterEntities
  /\ (forall t ds u,
        forallb (notUnit 38%N) t = true -> ds <> [] ->
        forallb isDigit ds = true -> forallb (notUnit 38%N) u = true ->
        decValue ds < 2 ^ 53 ->
        decValue ds mod 65536 <> 38 \/ u = [] ->
        unescapeHtml (t ++ lit "&amp;#" ++ ds ++ lit ";" ++ u)
        = t ++ fromCharCode (decValue ds) ++ u)
  /\ (forall t hs u,
        forallb (notUnit 38%N) t = true -> hs <> [] ->
        forallb isHexDigit hs = true -> forallb (notUnit 38%N) u = true ->
        hexValue hs < 2 ^ 53 ->
        unescapeHtml (t ++ lit "&amp;#x" ++ hs ++ lit ";" ++ u)
        = t ++ fromCharCode (hexValue hs) ++ u)
  /\ (forall a tag b,
        forallb plainUnit a = true -> forallb plainUnit tag = true ->
        forallb plainUnit b = true ->
        unescapeHtml (a ++ lit "&amp;lt;" ++ tag ++ lit "&amp;gt;" ++ b)
        = a ++ lit "<" ++ tag ++ lit ">" ++ b
        /\ stripTags 0 (a ++ lit "<" ++ tag ++ lit ">" ++ b) = a ++ b)
  /\ (forall pf st du attrs a tag b,
        forallb plainUnit a = true -> forallb plainUnit tag = true ->
        forallb plainUnit b = true ->
        wellFormed
          (mkElement st du attrs
             (a ++ lit "&amp;lt;" ++ tag ++ lit "&amp;gt;" ++ b)) = true ->
        parseTranscriptXml pf
          (render (mkElement st du attrs
                     (a ++ lit "&amp;lt;" ++ tag ++ lit "&amp;gt;" ++ b)))
        = match trim (a ++ b) with
          | [] => []
          | txt =>
              [mkSnippet txt (pf st)
                 (pf (match du with [] => lit "0" | d => d end))]
          end).
Proof.
  split; [reflexivity|]. split; [discriminate|]. split; [reflexivity|].
  split; [repeat constructor|]. split; [exact later_entities_in_context|].
  split; [|split; [|split]].
  - intros t ds u Ht Hne Hds Hu _ Hc.
    change (t ++ lit "&amp;#" ++ ds ++ lit ";" ++ u)
      with (t ++ lit "&amp;" ++ (35%N :: ds ++ lit ";" ++ u)).
    rewrite unescapeHtml_escaped_amp by (reflexivity || assumption).
    now apply decimal_reference_decoded.
  - intros t hs u Ht Hne Hhs Hu _.
    change (t ++ lit "&amp;#x" ++ hs ++ lit ";" ++ u)
      with (t ++ lit "&amp;" ++ (35%N :: 120%N :: hs ++ lit ";" ++ u)).
    rewrite unescapeHtml_escaped_amp by (reflexivity || assumption).
    now apply hex_reference_decoded.
  - intros a tag b Ha Htag Hb. split; [now apply double_escaped_tag|].
    apply plain_parts in Ha as (_ & Ha & _).
    apply plain_parts in Htag as (_ & _ & Htag).
    apply plain_parts in Hb as (_ & Hb & _).
    rewrite (stripTags_plain_app _ _ Ha).
    change (lit "<" ++ tag ++ lit ">" ++ b) with (60%N :: tag ++ 62%N :: b).
    now rewrite (stripTags_tag _ _ Htag), (stripTags_plain _ Hb).
  - intros pf st du attrs a tag b Ha Htag Hb Hwf. unfold parseTranscriptXml.
    rewrite <- (app_nil_r (render _)).
    rewrite (scanText_render pf _ [] Hwf). cbn [scanText]. rewrite app_nil_r.
    unfold snippetOf. cbn [el_text el_start el_dur].
    rewrite (normalizeText_double_escaped_tag _ _ _ Ha Htag Hb).
    destruct (trim (a ++ b)); destruct du; reflexivity.
Qed.

Lemma unescapeHtml_double_escape_witness :
  unescapeHtml (lit "&amp;lt;b&amp;gt;") = lit "<b>"
  /\ unescapeHtml (lit "5 " ++ lit "&amp;" ++ lit "gt;" ++ lit " 3")
     = lit "5 > 3"
  /\ unescapeHtml (lit "caf" ++ lit "&amp;#" ++ lit "233" ++ lit ";"
                     ++ lit " au lait")
     = lit "caf" ++ [233%N] ++ lit " au lait"
  /\ unescapeHtml (lit "&amp;#" ++ lit "38" ++ lit ";") = lit "&"
  /\ unescapeHtml (lit "&amp;#x" ++ lit "E9" ++ lit ";") = [233%N]
  /\ unescapeHtml (lit "&amp;#x" ++ lit "1f600" ++ lit ";") = [62976%N]
  /\ parseTranscriptXml parseFloatExact
       (render (mkElement (lit "1") (lit "2") [] (lit "a &amp;lt;b&amp;gt; c")))
     = [mkSnippet (lit "a  c") (Fin 1) (Fin 2)].
Proof.
  destruct unescapeHtml_double_escape
    as (_ & _ & _ & _ & Hctx & Hdec & Hhex & Htag & Hxml).
  split; [|split; [|split; [|split; [|split; [|split]]]]].
  - exact (proj1 (Htag [] (lit "b") [] eq_refl eq_refl eq_refl)).
  - exact (proj1 (Forall_forall _ _) Hctx (lit "gt;", lit ">")
             (or_intror (or_introl eq_refl)) (lit "5 ") (lit " 3")
             eq_refl eq_refl).
  - exact (Hdec (lit "caf") (lit "233") (lit " au lait") eq_refl
             ltac:(discriminate) eq_refl eq_refl eq_refl
             ltac:(left; vm_compute; discriminate)).
  - exact (Hdec [] (lit "38") [] eq_refl ltac:(discriminate) eq_refl eq_refl
             eq_refl (or_intror eq_refl)).
  - exact (Hhex [] (lit "E9") [] eq_refl ltac:(discriminate) eq_refl eq_refl
             eq_refl).
  - exact (Hhex [] (lit "1f600") [] eq_refl ltac:(discriminate) eq_refl
             eq_refl eq_refl).
  - exact (Hxml parseFloatExact (lit "1") (lit "2") [] (lit "a ") (lit "b")
             (lit " c") eq_refl eq_refl eq_refl eq_refl).
Defined.
